(** * WMATA rail/bus gap analysis: a shallow embedding of [hot_zones.py]

    The development follows the stages of [run_analysis]:
    column detection ([find_best_column]), the string similarity used for
    fuzzy matching ([similar]), the rail aggregation, the geocoding of rail
    stations through bus stop names, the clustering of bus stops into
    hotspots and the gap analysis.  The last modules cover the station
    tables of [station_mappings.py] and the file names of
    [excel_to_csv.py].

    Conventions of the model.
    - Text is [string] (bytes); case folding, [isalnum] and white space are
      the ASCII ones: the model is the program on ASCII text, and a
      statement about the characters of a name says so ([ascii_text]).
    - Numbers that the program holds in binary64 ([float]) or in 64 bits
      ([int64]) are rationals [Q]; sums, means, roundings and comparisons
      are the exact ones.
    - A [DataFrame] is the list of its rows in row order; a missing cell
      (NaN, NaT, None) is [None]. *)

From Stdlib Require Import List String Ascii Bool Arith ZArith QArith Lia.
From Stdlib Require Import Qround Qabs Permutation Sorted Lqa.
Import ListNotations.

Close Scope Q_scope.
Open Scope string_scope.
Open Scope list_scope.
Open Scope nat_scope.

(** ** Text primitives ([str.lower], [str.strip], [str.replace], [in]) *)
Module Text.

Definition is_upper (c : ascii) : bool :=
  let n := nat_of_ascii c in (65 <=? n) && (n <=? 90).

Definition is_lower (c : ascii) : bool :=
  let n := nat_of_ascii c in (97 <=? n) && (n <=? 122).

Definition is_digit (c : ascii) : bool :=
  let n := nat_of_ascii c in (48 <=? n) && (n <=? 57).

(** [ch.isalnum()] *)
Definition isalnum (c : ascii) : bool := is_upper c || is_lower c || is_digit c.

(** The characters [str.strip()] removes: TAB, LF, VT, FF, CR, FS, GS, RS, US
    and the space. *)
Definition is_space (c : ascii) : bool :=
  let n := nat_of_ascii c in
  ((9 <=? n) && (n <=? 13)) || ((28 <=? n) && (n <=? 32)).

Definition lower_char (c : ascii) : ascii :=
  if is_upper c then ascii_of_nat (nat_of_ascii c + 32) else c.

(** [s.lower()] *)
Fixpoint lower (s : string) : string :=
  match s with
  | EmptyString => EmptyString
  | String c s' => String (lower_char c) (lower s')
  end.

Fixpoint lstrip (s : string) : string :=
  match s with
  | EmptyString => EmptyString
  | String c s' => if is_space c then lstrip s' else s
  end.

Fixpoint rstrip (s : string) : string :=
  match s with
  | EmptyString => EmptyString
  | String c s' =>
      match rstrip s' with
      | EmptyString => if is_space c then EmptyString else String c EmptyString
      | r => String c r
      end
  end.

(** [s.strip()] *)
Definition strip (s : string) : string := rstrip (lstrip s).

(** [s.replace(ch, '')] for a one-character [ch]. *)
Fixpoint remove_char (ch : ascii) (s : string) : string :=
  match s with
  | EmptyString => EmptyString
  | String c s' =>
      if Ascii.eqb c ch then remove_char ch s' else String c (remove_char ch s')
  end.

(** [s.startswith(p)] *)
Fixpoint starts_with (p s : string) : bool :=
  match p, s with
  | EmptyString, _ => true
  | String _ _, EmptyString => false
  | String a p', String b s' => Ascii.eqb a b && starts_with p' s'
  end.

(** [sub in s] *)
Fixpoint contains (sub s : string) : bool :=
  starts_with sub s
  || match s with
     | EmptyString => false
     | String _ s' => contains sub s'
     end.

Lemma lower_char_idem (c : ascii) : lower_char (lower_char c) = lower_char c.
Proof.
  destruct c as [[] [] [] [] [] [] [] []]; reflexivity.
Qed.

Lemma lower_idem (s : string) : lower (lower s) = lower s.
Proof.
  induction s as [|c s IH]; simpl; [reflexivity|].
  now rewrite lower_char_idem, IH.
Qed.

Lemma starts_with_refl (s : string) : starts_with s s = true.
Proof.
  induction s as [|c s IH]; simpl; [reflexivity|].
  now rewrite Ascii.eqb_refl, IH.
Qed.

Lemma contains_refl (s : string) : contains s s = true.
Proof.
  destruct s as [|c s]; [reflexivity|].
  unfold contains; fold contains.
  now rewrite starts_with_refl.
Qed.


(** *** The order of strings ([<] on [str]) is a total preorder *)

Lemma compare_lt_trans (s1 : string) :
  forall s2 s3,
    String.compare s1 s2 = Lt -> String.compare s2 s3 = Lt ->
    String.compare s1 s3 = Lt.
Proof.
  induction s1 as [|c1 s1 IH]; intros [|c2 s2] [|c3 s3]; simpl;
    try discriminate; try reflexivity.
  unfold Ascii.compare.
  destruct (N.compare_spec (N_of_ascii c1) (N_of_ascii c2)) as [E12|L12|G12];
    try discriminate;
    destruct (N.compare_spec (N_of_ascii c2) (N_of_ascii c3)) as [E23|L23|G23];
    try discriminate; intros H1 H2.
  - rewrite E12, E23, N.compare_refl. now apply IH with s2.
  - rewrite E12. now apply N.compare_lt_iff in L23 as ->.
  - rewrite <- E23. now apply N.compare_lt_iff in L12 as ->.
  - assert (L : (N_of_ascii c1 < N_of_ascii c3)%N) by lia.
    now apply N.compare_lt_iff in L as ->.
Qed.

Lemma compare_refl (s : string) : String.compare s s = Eq.
Proof.
  induction s as [|c s IH]; simpl; [reflexivity|].
  unfold Ascii.compare. now rewrite N.compare_refl.
Qed.

Lemma leb_refl (s : string) : String.leb s s = true.
Proof.
  unfold String.leb. now rewrite compare_refl.
Qed.

Lemma leb_trans (s1 s2 s3 : string) :
  String.leb s1 s2 = true -> String.leb s2 s3 = true ->
  String.leb s1 s3 = true.
Proof.
  unfold String.leb.
  destruct (String.compare s1 s2) eqn:E12; try discriminate;
    destruct (String.compare s2 s3) eqn:E23; try discriminate; intros _ _.
  - apply String.compare_eq_iff in E12, E23. subst.
    now rewrite compare_refl.
  - apply String.compare_eq_iff in E12. subst. now rewrite E23.
  - apply String.compare_eq_iff in E23. subst. now rewrite E12.
  - now rewrite (compare_lt_trans _ _ _ E12 E23).
Qed.

End Text.

(** ** Schema resolver: [find_best_column] *)
Module SchemaResolver.
Import Text.

(** A Python [dict] with string keys, in insertion order. *)
Definition dict (V : Type) : Type := list (string * V).

(** [d[k] = v] *)
Fixpoint dict_set {V : Type} (k : string) (v : V) (d : dict V) : dict V :=
  match d with
  | [] => [(k, v)]
  | (k', v') :: d' =>
      if String.eqb k' k then (k, v) :: d' else (k', v') :: dict_set k v d'
  end.

(** [d.get(k)] *)
Fixpoint dict_get {V : Type} (k : string) (d : dict V) : option V :=
  match d with
  | [] => None
  | (k', v') :: d' => if String.eqb k' k then Some v' else dict_get k d'
  end.

(** [c.strip().lower().replace(' ', '').replace('-', '').replace('_', '')] *)
Definition normalize (c : string) : string :=
  remove_char "_" (remove_char "-" (remove_char " " (lower (strip c)))).

(** The loop that fills [norm_map]: a later column overwrites an earlier one
    that has the same key. *)
Definition build_norm_map (df_cols : list string) : dict string :=
  fold_left (fun norm_map c => dict_set (normalize c) c norm_map) df_cols [].

(** First loop over [candidates]: exact match on the normalized key. *)
Fixpoint exact_pass (norm_map : dict string) (candidates : list string)
  : option string :=
  match candidates with
  | [] => None
  | cand :: rest =>
      match dict_get (normalize cand) norm_map with
      | Some c => Some c
      | None => exact_pass norm_map rest
      end
  end.

(** Second loop ("fallback: try contains"). *)
Fixpoint contains_pass (df_cols candidates : list string) : option string :=
  match candidates with
  | [] => None
  | cand :: rest =>
      match find (fun c => contains (lower cand) (lower c)) df_cols with
      | Some c => Some c
      | None => contains_pass df_cols rest
      end
  end.

Definition find_best_column (df_cols candidates : list string) : option string :=
  match exact_pass (build_norm_map df_cols) candidates with
  | Some c => Some c
  | None => contains_pass df_cols candidates
  end.

(** What it means for a candidate to match, by either method. *)
Definition exact_hit (df_cols : list string) (cand : string) : bool :=
  existsb (fun c => String.eqb (normalize c) (normalize cand)) df_cols.

Definition contains_hit (df_cols : list string) (cand : string) : bool :=
  existsb (fun c => contains (lower cand) (lower c)) df_cols.

(** The last column that has the candidate's normalized key. *)
Definition last_exact (df_cols : list string) (cand : string) : option string :=
  find (fun c => String.eqb (normalize c) (normalize cand)) (rev df_cols).

(** The first column that contains the candidate. *)
Definition first_containing (df_cols : list string) (cand : string)
  : option string :=
  find (fun c => contains (lower cand) (lower c)) df_cols.

Lemma dict_get_set {V : Type} (k k' : string) (v : V) (d : dict V) :
  dict_get k (dict_set k' v d) = if String.eqb k' k then Some v else dict_get k d.
Proof.
  induction d as [|[k0 v0] d IH]; simpl.
  - reflexivity.
  - destruct (String.eqb k0 k') eqn:E0; simpl.
    + apply String.eqb_eq in E0; subst k0.
      destruct (String.eqb k' k); reflexivity.
    + rewrite IH. destruct (String.eqb k0 k) eqn:E1; [|reflexivity].
      apply String.eqb_eq in E1; subst k0.
      rewrite String.eqb_sym in E0. now rewrite E0.
Qed.

Lemma find_app {A : Type} (f : A -> bool) (l1 l2 : list A) :
  find f (l1 ++ l2)
  = match find f l1 with Some x => Some x | None => find f l2 end.
Proof.
  induction l1 as [|x l1 IH]; simpl; [reflexivity|].
  destruct (f x); [reflexivity|exact IH].
Qed.

Lemma dict_get_fold (k : string) (df_cols : list string) (d : dict string) :
  dict_get k (fold_left (fun nm c => dict_set (normalize c) c nm) df_cols d)
  = match find (fun c => String.eqb (normalize c) k) (rev df_cols) with
    | Some c => Some c
    | None => dict_get k d
    end.
Proof.
  revert d; induction df_cols as [|c cs IH]; intros d; simpl.
  - reflexivity.
  - rewrite IH, find_app. simpl.
    destruct (find _ (rev cs)); [reflexivity|].
    rewrite dict_get_set. destruct (String.eqb (normalize c) k); reflexivity.
Qed.

Lemma norm_map_lookup (df_cols : list string) (cand : string) :
  dict_get (normalize cand) (build_norm_map df_cols) = last_exact df_cols cand.
Proof.
  unfold build_norm_map, last_exact. rewrite dict_get_fold.
  destruct (find _ (rev df_cols)); reflexivity.
Qed.

Lemma last_exact_hit (df_cols : list string) (cand : string) :
  exact_hit df_cols cand = true ->
  exists c, last_exact df_cols cand = Some c /\ In c df_cols
            /\ normalize c = normalize cand.
Proof.
  unfold exact_hit, last_exact. intros H.
  apply existsb_exists in H. destruct H as (c & Hin & Hc).
  destruct (find _ (rev df_cols)) as [c'|] eqn:F.
  - apply find_some in F. destruct F as [F1 F2].
    exists c'. split; [reflexivity|]. split.
    + now apply in_rev.
    + now apply String.eqb_eq.
  - apply find_none with (x := c) in F; [congruence|].
    now apply in_rev in Hin.
Qed.

Lemma last_exact_miss (df_cols : list string) (cand : string) :
  exact_hit df_cols cand = false -> last_exact df_cols cand = None.
Proof.
  unfold exact_hit, last_exact. intros H.
  destruct (find _ (rev df_cols)) as [c'|] eqn:F; [|reflexivity].
  apply find_some in F. destruct F as [F1 F2].
  assert (existsb (fun c => String.eqb (normalize c) (normalize cand)) df_cols = true).
  { apply existsb_exists. exists c'. split; [now apply in_rev|assumption]. }
  congruence.
Qed.

Lemma first_containing_hit (df_cols : list string) (cand : string) :
  contains_hit df_cols cand = true ->
  exists c, first_containing df_cols cand = Some c /\ In c df_cols
            /\ contains (lower cand) (lower c) = true.
Proof.
  unfold contains_hit, first_containing. intros H.
  apply existsb_exists in H. destruct H as (c & Hin & Hc).
  destruct (find _ df_cols) as [c'|] eqn:F.
  - apply find_some in F. exists c'. tauto.
  - apply find_none with (x := c) in F; [congruence|assumption].
Qed.

Lemma first_containing_miss (df_cols : list string) (cand : string) :
  contains_hit df_cols cand = false -> first_containing df_cols cand = None.
Proof.
  unfold contains_hit, first_containing. intros H.
  destruct (find _ df_cols) as [c'|] eqn:F; [|reflexivity].
  apply find_some in F.
  assert (existsb (fun c => contains (lower cand) (lower c)) df_cols = true).
  { apply existsb_exists. exists c'. exact F. }
  congruence.
Qed.

(** The exact pass returns the hit of the first candidate that has one. *)
Lemma exact_pass_first (df_cols pre post : list string) (cand : string) :
  (forall p, In p pre -> exact_hit df_cols p = false) ->
  exact_hit df_cols cand = true ->
  exact_pass (build_norm_map df_cols) (pre ++ cand :: post)
  = last_exact df_cols cand.
Proof.
  intros Hpre Hc. induction pre as [|p pre IH]; simpl.
  - rewrite norm_map_lookup.
    destruct (last_exact_hit _ _ Hc) as (c & -> & _). reflexivity.
  - rewrite norm_map_lookup, last_exact_miss by (apply Hpre; now left).
    apply IH. intros q Hq. apply Hpre. now right.
Qed.

Lemma exact_pass_none (df_cols candidates : list string) :
  exact_pass (build_norm_map df_cols) candidates = None
  <-> forall p, In p candidates -> exact_hit df_cols p = false.
Proof.
  induction candidates as [|p ps IH]; simpl.
  - split; [intros _ q []|reflexivity].
  - rewrite norm_map_lookup.
    destruct (exact_hit df_cols p) eqn:E.
    + destruct (last_exact_hit _ _ E) as (c & -> & _).
      split; [discriminate|]. intros H. specialize (H p (or_introl eq_refl)).
      congruence.
    + rewrite (last_exact_miss _ _ E), IH. split.
      * intros H q [<-|Hq]; auto.
      * intros H q Hq. apply H. now right.
Qed.

Lemma contains_pass_first (df_cols pre post : list string) (cand : string) :
  (forall p, In p pre -> contains_hit df_cols p = false) ->
  contains_hit df_cols cand = true ->
  contains_pass df_cols (pre ++ cand :: post) = first_containing df_cols cand.
Proof.
  intros Hpre Hc. induction pre as [|p pre IH]; simpl.
  - fold (first_containing df_cols cand).
    destruct (first_containing_hit _ _ Hc) as (c & -> & _). reflexivity.
  - fold (first_containing df_cols p).
    rewrite first_containing_miss by (apply Hpre; now left).
    apply IH. intros q Hq. apply Hpre. now right.
Qed.

Lemma contains_pass_none (df_cols candidates : list string) :
  contains_pass df_cols candidates = None
  <-> forall p, In p candidates -> contains_hit df_cols p = false.
Proof.
  induction candidates as [|p ps IH]; simpl.
  - split; [intros _ q []|reflexivity].
  - fold (first_containing df_cols p).
    destruct (contains_hit df_cols p) eqn:E.
    + destruct (first_containing_hit _ _ E) as (c & -> & _).
      split; [discriminate|]. intros H. specialize (H p (or_introl eq_refl)).
      congruence.
    + rewrite (first_containing_miss _ _ E), IH. split.
      * intros H q [<-|Hq]; auto.
      * intros H q Hq. apply H. now right.
Qed.

Lemma exact_hit_self (df_cols : list string) (a : string) :
  In a df_cols -> exact_hit df_cols a = true.
Proof.
  intros H. apply existsb_exists. exists a. split; [assumption|].
  apply String.eqb_refl.
Qed.

(** The candidate lists of [run_analysis] on typical rail headers. *)
Example rail_stop_column :
  find_best_column ["Date"; "Station_ID"; "Avg Daily Boardings"]
    ["stop_id"; "stopid"; "station_id"; "stationid"; "stop"]
  = Some "Station_ID".
Proof. reflexivity. Qed.

Example rail_no_date_column :
  find_best_column ["stop_id"; "boardings"]
    ["svc_date"; "svcdate"; "date"; "service_date"; "day"]
  = None.
Proof. reflexivity. Qed.

(** C10, as stated, fails: the later candidate [id] (an exact match) is
    returned although the earlier candidate [stop] matches too (as a
    substring of [bus_stop]); and with candidates [x; X] on the columns
    [x; X] the column returned is [X], the last one whose normalized name is
    that of the first candidate. *)
Lemma find_best_column_later_candidate_wins :
  contains_hit ["bus_stop"; "id"] "stop" = true
  /\ find_best_column ["bus_stop"; "id"] ["stop"; "id"] = Some "id"
  /\ find_best_column ["x"; "X"] ["x"; "X"] = Some "X".
Proof. repeat split. Qed.

(** C10 (amended): column resolution is a function of its two arguments
    (hence deterministic) that runs two passes.  An exact match on the
    normalized name of any candidate takes precedence over every substring
    match; within the exact pass, and within the substring pass once no
    candidate matches exactly, the earliest matching candidate decides.  The
    column returned for an exact match has the candidate's normalized name
    (the last such column), for a substring match it is the first column that
    contains the candidate.  Nothing is returned exactly when no candidate
    matches by either method.  With [a] first in the candidate list and [a]
    among the columns, the result is a column with the normalized name of
    [a], and is [a] itself when no other column shares that normalized
    name. *)
Theorem find_best_column_precedence (df_cols candidates : list string) :
  (forall pre cand post,
      candidates = pre ++ cand :: post ->
      (forall p, In p pre -> exact_hit df_cols p = false) ->
      exact_hit df_cols cand = true ->
      find_best_column df_cols candidates = last_exact df_cols cand
      /\ exists c, last_exact df_cols cand = Some c /\ In c df_cols
                   /\ normalize c = normalize cand)
  /\ (forall pre cand post,
      candidates = pre ++ cand :: post ->
      (forall p, In p candidates -> exact_hit df_cols p = false) ->
      (forall p, In p pre -> contains_hit df_cols p = false) ->
      contains_hit df_cols cand = true ->
      find_best_column df_cols candidates = first_containing df_cols cand
      /\ exists c, first_containing df_cols cand = Some c /\ In c df_cols
                   /\ contains (lower cand) (lower c) = true)
  /\ (find_best_column df_cols candidates = None
      <-> forall p, In p candidates ->
                    exact_hit df_cols p = false /\ contains_hit df_cols p = false)
  /\ (forall a rest,
      candidates = a :: rest -> In a df_cols ->
      exists c, find_best_column df_cols candidates = Some c
                /\ normalize c = normalize a
                /\ ((forall c', In c' df_cols -> normalize c' = normalize a -> c' = a)
                    -> c = a)).
Proof.
  unfold find_best_column. split; [|split; [|split]].
  - intros pre cand post -> Hpre Hc.
    rewrite (exact_pass_first _ _ _ _ Hpre Hc).
    destruct (last_exact_hit _ _ Hc) as (c & Hl & Hin & Hn).
    rewrite Hl. split; [reflexivity|]. now exists c.
  - intros pre cand post Heq Hex Hpre Hc.
    rewrite (proj2 (exact_pass_none df_cols candidates) Hex).
    subst candidates. split.
    + now apply contains_pass_first.
    + now apply first_containing_hit.
  - split.
    + destruct (exact_pass _ candidates) eqn:E; [discriminate|].
      intros Hc p Hp. split.
      * now apply (proj1 (exact_pass_none _ _) E).
      * now apply (proj1 (contains_pass_none _ _) Hc).
    + intros H.
      rewrite (proj2 (exact_pass_none df_cols candidates)
                 (fun p Hp => proj1 (H p Hp))).
      apply contains_pass_none. intros p Hp. now apply H.
  - intros a rest -> Hin.
    pose proof (exact_hit_self _ _ Hin) as Hhit.
    destruct (last_exact_hit _ _ Hhit) as (c & Hc & Hcin & Hn).
    exists c.
    pose proof (exact_pass_first df_cols [] rest a
                  (fun _ (F : False) => match F with end) Hhit) as E.
    simpl app in E. rewrite E.
    rewrite Hc. split; [reflexivity|]. split; [assumption|].
    intros Huniq. now apply Huniq.
Qed.

End SchemaResolver.

(** ** [difflib.SequenceMatcher(None, a, b).ratio()]

    The matcher of the Python standard library, as [similar] calls it: no
    junk predicate and [autojunk] left on.  Sequences are lists of
    characters. *)
Module Difflib.

(** [b2j[elt]] before any purge: the positions of [elt] in [b], ascending. *)
Fixpoint indices_from (elt : ascii) (b : list ascii) (i : nat) : list nat :=
  match b with
  | [] => []
  | x :: b' =>
      if Ascii.eqb x elt then i :: indices_from elt b' (S i)
      else indices_from elt b' (S i)
  end.

(** [__chain_b]: with [autojunk] and [len(b) >= 200], an element that occurs
    more than [len(b) // 100 + 1] times is "popular" and loses its entry. *)
Definition popular (b : list ascii) (elt : ascii) : bool :=
  (200 <=? List.length b)
  && (List.length b / 100 + 1 <? List.length (indices_from elt b 0)).

(** [b2j.get(elt, nothing)] *)
Definition b2j (b : list ascii) (elt : ascii) : list nat :=
  if popular b elt then [] else indices_from elt b 0.

(** [j2len.get(j)], with [0] for an absent key. *)
Fixpoint j2len_get (j2len : list (nat * nat)) (j : nat) : nat :=
  match j2len with
  | [] => 0
  | (j', k) :: rest => if j' =? j then k else j2len_get rest j
  end.

(** [j2len.get(j-1, 0)]: no key is negative. *)
Definition j2len_prev (j2len : list (nat * nat)) (j : nat) : nat :=
  match j with
  | 0 => 0
  | S j' => j2len_get j2len j'
  end.

Definition match_t : Type := nat * nat * nat.

(** The loop over [j] in [find_longest_match], with its [continue] and
    [break]. *)
Fixpoint inner_loop (i blo bhi : nat) (j2len : list (nat * nat))
  (js : list nat) (newj2len : list (nat * nat)) (best : match_t)
  : list (nat * nat) * match_t :=
  match js with
  | [] => (newj2len, best)
  | j :: js' =>
      if j <? blo then inner_loop i blo bhi j2len js' newj2len best
      else if bhi <=? j then (newj2len, best)
      else
        let k := j2len_prev j2len j + 1 in
        let '(_, _, bestsize) := best in
        inner_loop i blo bhi j2len js' ((j, k) :: newj2len)
          (if bestsize <? k then (i + 1 - k, j + 1 - k, k) else best)
  end.

Definition char0 : ascii := Ascii.zero.

(** The loop over [i in range(alo, ahi)]. *)
Fixpoint outer_loop (a b : list ascii) (blo bhi : nat) (rows : list nat)
  (j2len : list (nat * nat)) (best : match_t) : match_t :=
  match rows with
  | [] => best
  | i :: rows' =>
      let '(newj2len, best') :=
        inner_loop i blo bhi j2len (b2j b (nth i a char0)) [] best in
      outer_loop a b blo bhi rows' newj2len best'
  end.

(** First [while]: extend the match to the left. *)
Fixpoint extend_left (a b : list ascii) (alo blo besti bestj bestsize : nat)
  : match_t :=
  match besti with
  | 0 => (besti, bestj, bestsize)
  | S i' =>
      if (alo <? besti) && (blo <? bestj)
         && Ascii.eqb (nth i' a char0) (nth (bestj - 1) b char0)
      then extend_left a b alo blo i' (bestj - 1) (bestsize + 1)
      else (besti, bestj, bestsize)
  end.

(** Second [while]: extend the match to the right; [fuel] is the room that
    is left in [a]. *)
Fixpoint extend_right (a b : list ascii) (ahi bhi besti bestj bestsize : nat)
  (fuel : nat) : match_t :=
  match fuel with
  | 0 => (besti, bestj, bestsize)
  | S fuel' =>
      if (besti + bestsize <? ahi) && (bestj + bestsize <? bhi)
         && Ascii.eqb (nth (besti + bestsize) a char0)
                      (nth (bestj + bestsize) b char0)
      then extend_right a b ahi bhi besti bestj (bestsize + 1) fuel'
      else (besti, bestj, bestsize)
  end.

(** [find_longest_match(alo, ahi, blo, bhi)].  The last two [while] loops of
    the library extend over junk only, and there is none. *)
Definition find_longest_match (a b : list ascii) (alo ahi blo bhi : nat)
  : match_t :=
  let '(besti, bestj, bestsize) :=
    outer_loop a b blo bhi (seq alo (ahi - alo)) [] (alo, blo, 0) in
  let '(besti, bestj, bestsize) :=
    extend_left a b alo blo besti bestj bestsize in
  extend_right a b ahi bhi besti bestj bestsize (ahi - (besti + bestsize)).

(** The work list of [get_matching_blocks], as a recursion on the two
    remaining windows; the blocks come out in increasing position, which is
    the order the library sorts them into.  [None] when [fuel] runs out. *)
Fixpoint blocks_in (fuel : nat) (a b : list ascii) (alo ahi blo bhi : nat)
  : option (list match_t) :=
  match fuel with
  | 0 => None
  | S fuel' =>
      let '(i, j, k) := find_longest_match a b alo ahi blo bhi in
      if k =? 0 then Some []
      else
        match
          (if (alo <? i) && (blo <? j)
           then blocks_in fuel' a b alo i blo j else Some []),
          (if (i + k <? ahi) && (j + k <? bhi)
           then blocks_in fuel' a b (i + k) ahi (j + k) bhi else Some [])
        with
        | Some before, Some after => Some (before ++ (i, j, k) :: after)
        | _, _ => None
        end
  end.

(** Merging of adjacent blocks. *)
Fixpoint collapse (blocks : list match_t) (cur : match_t) : list match_t :=
  let '(i1, j1, k1) := cur in
  match blocks with
  | [] => if k1 =? 0 then [] else [cur]
  | (i2, j2, k2) :: rest =>
      if (i1 + k1 =? i2) && (j1 + k1 =? j2)
      then collapse rest (i1, j1, k1 + k2)
      else (if k1 =? 0 then [] else [cur]) ++ collapse rest (i2, j2, k2)
  end.

Definition get_matching_blocks (a b : list ascii) : list match_t :=
  match
    blocks_in (S (List.length a)) a b 0 (List.length a) 0 (List.length b)
  with
  | Some blocks =>
      collapse blocks (0, 0, 0) ++ [(List.length a, List.length b, 0)]
  | None => []
  end.

Definition block_size (m : match_t) : nat := snd m.

Definition total_size (blocks : list match_t) : nat :=
  fold_right (fun m acc => block_size m + acc) 0 blocks.

(** [_calculate_ratio(matches, length)] *)
Definition calculate_ratio (matches len : nat) : Q :=
  match len with
  | 0 => 1%Q
  | S _ => Qmake (Z.of_nat (2 * matches)) (Pos.of_nat len)
  end.

(** [SequenceMatcher(None, a, b).ratio()] *)
Definition ratio (a b : list ascii) : Q :=
  calculate_ratio (total_size (get_matching_blocks a b))
    (List.length a + List.length b).


(** *** Every block lies inside the window it was searched in *)

Definition in_window (alo ahi blo bhi : nat) (m : match_t) : Prop :=
  let '(i, j, k) := m in
  alo <= i /\ i + k <= ahi /\ blo <= j /\ j + k <= bhi.

(** The lengths recorded in [j2len] are bounded by the rows and columns
    already visited. *)
Definition row_ok (blo n : nat) (j2len : list (nat * nat)) : Prop :=
  Forall (fun jk => snd jk <= n /\ snd jk <= fst jk + 1 - blo) j2len.

Lemma j2len_get_bound (blo n : nat) (j2len : list (nat * nat)) (j : nat) :
  row_ok blo n j2len ->
  j2len_get j2len j <= n /\ j2len_get j2len j <= j + 1 - blo.
Proof.
  induction 1 as [|[j' k] rest [H1 H2] _ IH]; simpl.
  - lia.
  - destruct (j' =? j) eqn:E; [|exact IH].
    apply Nat.eqb_eq in E. subst j'. simpl in *. lia.
Qed.

Lemma j2len_prev_bound (blo n : nat) (j2len : list (nat * nat)) (j : nat) :
  row_ok blo n j2len -> blo <= j ->
  j2len_prev j2len j <= n /\ j2len_prev j2len j + 1 <= j + 1 - blo.
Proof.
  intros H Hj. destruct j as [|j']; cbn [j2len_prev].
  - lia.
  - destruct (j2len_get_bound blo n j2len j' H). lia.
Qed.

Section Window.
Variables (a b : list ascii) (alo ahi blo bhi : nat).

Lemma inner_loop_ok (i : nat) (j2len : list (nat * nat)) (js : list nat) :
  alo <= i -> i < ahi -> row_ok blo (i - alo) j2len ->
  forall newj2len best,
    row_ok blo (i + 1 - alo) newj2len ->
    in_window alo ahi blo bhi best ->
    row_ok blo (i + 1 - alo) (fst (inner_loop i blo bhi j2len js newj2len best))
    /\ in_window alo ahi blo bhi
         (snd (inner_loop i blo bhi j2len js newj2len best)).
Proof.
  intros Hlo Hhi Hprev.
  induction js as [|j js IH]; intros newj2len best Hnew Hbest; simpl.
  - now split.
  - destruct (j <? blo) eqn:E1; [now apply IH|].
    destruct (bhi <=? j) eqn:E2; [now split|].
    apply Nat.ltb_ge in E1. apply Nat.leb_gt in E2.
    destruct (j2len_prev_bound blo (i - alo) j2len j Hprev E1) as [B1 B2].
    destruct best as [[bi bj] bs].
    apply IH.
    + constructor; [simpl; lia|exact Hnew].
    + destruct (bs <? j2len_prev j2len j + 1); [|exact Hbest].
      unfold in_window. lia.
Qed.

Lemma outer_loop_ok (n : nat) :
  forall s j2len best,
    alo <= s -> s + n <= ahi -> row_ok blo (s - alo) j2len ->
    in_window alo ahi blo bhi best ->
    in_window alo ahi blo bhi (outer_loop a b blo bhi (seq s n) j2len best).
Proof.
  induction n as [|n IH]; intros s j2len best Hs Hn Hrow Hbest; simpl.
  - exact Hbest.
  - destruct (inner_loop s blo bhi j2len (b2j b (nth s a char0)) [] best)
      as [newj2len best'] eqn:E.
    assert (Hi : row_ok blo (s + 1 - alo) newj2len
                 /\ in_window alo ahi blo bhi best').
    { pose proof (inner_loop_ok s j2len (b2j b (nth s a char0))
                    Hs ltac:(lia) Hrow [] best (Forall_nil _) Hbest) as H.
      rewrite E in H. exact H. }
    destruct Hi as [Hrow' Hbest'].
    apply IH; try lia; [|exact Hbest'].
    replace (S s - alo) with (s + 1 - alo) by lia. exact Hrow'.
Qed.

Lemma extend_left_ok (besti : nat) :
  forall bestj bestsize,
    in_window alo ahi blo bhi (besti, bestj, bestsize) ->
    in_window alo ahi blo bhi (extend_left a b alo blo besti bestj bestsize).
Proof.
  induction besti as [|i' IH]; intros bestj bestsize H; simpl.
  - exact H.
  - destruct ((alo <? S i') && (blo <? bestj)
              && Ascii.eqb (nth i' a char0) (nth (bestj - 1) b char0)) eqn:E;
      [|exact H].
    apply andb_prop in E. destruct E as [E _].
    apply andb_prop in E. destruct E as [E1 E2].
    apply Nat.ltb_lt in E1. apply Nat.ltb_lt in E2.
    apply IH. unfold in_window in *. lia.
Qed.

Lemma extend_right_ok (fuel : nat) :
  forall besti bestj bestsize,
    in_window alo ahi blo bhi (besti, bestj, bestsize) ->
    in_window alo ahi blo bhi
      (extend_right a b ahi bhi besti bestj bestsize fuel).
Proof.
  induction fuel as [|fuel IH]; intros besti bestj bestsize H; simpl.
  - exact H.
  - destruct ((besti + bestsize <? ahi) && (bestj + bestsize <? bhi)
              && Ascii.eqb (nth (besti + bestsize) a char0)
                           (nth (bestj + bestsize) b char0)) eqn:E;
      [|exact H].
    apply andb_prop in E. destruct E as [E _].
    apply andb_prop in E. destruct E as [E1 E2].
    apply Nat.ltb_lt in E1. apply Nat.ltb_lt in E2.
    apply IH. unfold in_window in *. lia.
Qed.

Lemma find_longest_match_in_window :
  alo <= ahi -> blo <= bhi ->
  in_window alo ahi blo bhi (find_longest_match a b alo ahi blo bhi).
Proof.
  intros Ha Hb. unfold find_longest_match.
  pose proof (outer_loop_ok (ahi - alo) alo [] (alo, blo, 0)
                (le_n _) ltac:(lia) (Forall_nil _)
                ltac:(unfold in_window; lia)) as H.
  destruct (outer_loop a b blo bhi (seq alo (ahi - alo)) [] (alo, blo, 0))
    as [[bi bj] bs].
  apply extend_left_ok in H.
  destruct (extend_left a b alo blo bi bj bs) as [[bi' bj'] bs'].
  now apply extend_right_ok.
Qed.

End Window.

Lemma total_size_app (l1 l2 : list match_t) :
  total_size (l1 ++ l2) = total_size l1 + total_size l2.
Proof.
  induction l1 as [|m l1 IH]; simpl; [reflexivity|]. rewrite IH. lia.
Qed.

(** The blocks found in a window fit in it, on either side. *)
Lemma blocks_in_size (a b : list ascii) (fuel : nat) :
  forall alo ahi blo bhi blocks,
    alo <= ahi -> blo <= bhi ->
    blocks_in fuel a b alo ahi blo bhi = Some blocks ->
    total_size blocks <= ahi - alo /\ total_size blocks <= bhi - blo.
Proof.
  induction fuel as [|fuel IH]; intros alo ahi blo bhi blocks Ha Hb; simpl.
  - discriminate.
  - pose proof (find_longest_match_in_window a b alo ahi blo bhi Ha Hb) as W.
    destruct (find_longest_match a b alo ahi blo bhi) as [[i j] k].
    unfold in_window in W.
    destruct (k =? 0) eqn:Ek.
    { intros [= <-]. simpl. lia. }
    assert (L : forall bl,
               (if (alo <? i) && (blo <? j)
                then blocks_in fuel a b alo i blo j else Some []) = Some bl ->
               total_size bl <= i - alo /\ total_size bl <= j - blo).
    { intros bl. destruct ((alo <? i) && (blo <? j)).
      - apply IH; lia.
      - intros [= <-]. simpl. lia. }
    assert (R : forall bl,
               (if (i + k <? ahi) && (j + k <? bhi)
                then blocks_in fuel a b (i + k) ahi (j + k) bhi else Some [])
               = Some bl ->
               total_size bl <= ahi - (i + k)
               /\ total_size bl <= bhi - (j + k)).
    { intros bl. destruct ((i + k <? ahi) && (j + k <? bhi)).
      - apply IH; lia.
      - intros [= <-]. simpl. lia. }
    destruct (if (alo <? i) && (blo <? j) then _ else _) as [bl1|];
      [|discriminate].
    destruct (if (i + k <? ahi) && (j + k <? bhi) then _ else _) as [bl2|];
      [|discriminate].
    intros [= <-].
    specialize (L bl1 eq_refl). specialize (R bl2 eq_refl).
    rewrite total_size_app. cbn [total_size fold_right block_size snd].
    fold (total_size bl2). lia.
Qed.

(** The recursion ends: fuel above the width of the window is enough. *)
Lemma blocks_in_enough_fuel (a b : list ascii) (fuel : nat) :
  forall alo ahi blo bhi,
    alo <= ahi -> blo <= bhi -> ahi - alo < fuel ->
    exists blocks, blocks_in fuel a b alo ahi blo bhi = Some blocks.
Proof.
  induction fuel as [|fuel IH]; intros alo ahi blo bhi Ha Hb Hf; [lia|].
  simpl.
  pose proof (find_longest_match_in_window a b alo ahi blo bhi Ha Hb) as W.
  destruct (find_longest_match a b alo ahi blo bhi) as [[i j] k].
  unfold in_window in W.
  destruct (k =? 0) eqn:Ek; [now exists []|].
  apply Nat.eqb_neq in Ek.
  assert (L : exists bl,
             (if (alo <? i) && (blo <? j)
              then blocks_in fuel a b alo i blo j else Some []) = Some bl).
  { destruct ((alo <? i) && (blo <? j)); [apply IH; lia|now exists []]. }
  assert (R : exists bl,
             (if (i + k <? ahi) && (j + k <? bhi)
              then blocks_in fuel a b (i + k) ahi (j + k) bhi else Some [])
             = Some bl).
  { destruct ((i + k <? ahi) && (j + k <? bhi)); [apply IH; lia|now exists []]. }
  destruct L as [bl1 ->]. destruct R as [bl2 ->]. eauto.
Qed.

Lemma collapse_size (blocks : list match_t) :
  forall cur, total_size (collapse blocks cur) = block_size cur + total_size blocks.
Proof.
  induction blocks as [|[[i2 j2] k2] rest IH]; intros [[i1 j1] k1]; simpl.
  - destruct (k1 =? 0) eqn:E; simpl; unfold block_size; simpl.
    + apply Nat.eqb_eq in E. lia.
    + lia.
  - destruct ((i1 + k1 =? i2) && (j1 + k1 =? j2)).
    + rewrite IH. unfold block_size; simpl. lia.
    + rewrite total_size_app, IH.
      destruct (k1 =? 0) eqn:E; simpl; unfold block_size; simpl.
      * apply Nat.eqb_eq in E. lia.
      * lia.
Qed.

Lemma matches_bound (a b : list ascii) :
  total_size (get_matching_blocks a b) <= List.length a
  /\ total_size (get_matching_blocks a b) <= List.length b.
Proof.
  unfold get_matching_blocks.
  destruct (blocks_in (S (List.length a)) a b 0 (List.length a) 0 (List.length b))
    as [blocks|] eqn:E.
  - apply blocks_in_size in E; try lia.
    rewrite total_size_app, collapse_size. unfold block_size; simpl. lia.
  - simpl. lia.
Qed.

(** [get_matching_blocks] never runs out of fuel: its result ends with the
    sentinel block. *)
Lemma get_matching_blocks_total (a b : list ascii) :
  exists blocks,
    get_matching_blocks a b = blocks ++ [(List.length a, List.length b, 0)].
Proof.
  unfold get_matching_blocks.
  destruct (blocks_in_enough_fuel a b (S (List.length a)) 0 (List.length a) 0
              (List.length b)) as [blocks ->]; try lia.
  eauto.
Qed.

Lemma ratio_range (a b : list ascii) : (0 <= ratio a b <= 1)%Q.
Proof.
  unfold ratio. destruct (matches_bound a b) as [Ha Hb].
  set (m := total_size (get_matching_blocks a b)) in *.
  unfold calculate_ratio.
  destruct (List.length a + List.length b) as [|t] eqn:Et.
  - split; [apply Qle_bool_iff|apply Qle_refl]; reflexivity.
  - assert (HP : Z.pos (Pos.of_nat (S t)) = Z.of_nat (S t)).
    { rewrite <- (Nat2Pos.id (S t)) at 2 by discriminate.
      now rewrite positive_nat_Z. }
    unfold Qle. cbn [Qnum Qden]. rewrite HP. split; lia.
Qed.


(** Nothing matches the empty sequence. *)
Lemma outer_loop_empty_b (a : list ascii) (blo bhi : nat) (rows : list nat) :
  forall j2len best, outer_loop a [] blo bhi rows j2len best = best.
Proof.
  induction rows as [|i rows IH]; intros j2len best; simpl; [reflexivity|].
  apply IH.
Qed.

Lemma ratio_empty_b (a : list ascii) : a <> [] -> (ratio a [] == 0)%Q.
Proof.
  intros Ha. unfold ratio, get_matching_blocks. simpl blocks_in.
  unfold find_longest_match. rewrite outer_loop_empty_b. simpl extend_left.
  replace (extend_right a [] (List.length a) (List.length (@nil ascii)) 0 0 0
             (List.length a - (0 + 0))) with (0, 0, 0).
  - simpl. destruct a as [|c a]; [congruence|]. simpl. reflexivity.
  - destruct (List.length a - (0 + 0)); [reflexivity|].
    cbn [extend_right List.length Nat.add]. rewrite Nat.ltb_irrefl.
    now rewrite andb_false_r.
Qed.

End Difflib.

(** [similar(a, b)] *)
Definition similar (a b : string) : Q :=
  Difflib.ratio (list_ascii_of_string (Text.lower a))
                (list_ascii_of_string (Text.lower b)).


Example similar_union_station :
  similar "Union Station" "Union Sta Plaza" = Qmake 18 28.
Proof. vm_compute. reflexivity. Qed.

Example similar_court_house :
  similar "Court House" "House of Pizza" = Qmake 10 25.
Proof. vm_compute. reflexivity. Qed.

Lemma similar_empty_r (a : string) : a <> "" -> (similar a "" == 0)%Q.
Proof.
  intros Ha. unfold similar. simpl. apply Difflib.ratio_empty_b.
  destruct a; [congruence|discriminate].
Qed.

(** C9, as stated, fails: the ratio depends on the order of its arguments
    ([0.25] for tide/diet, [0.5] for diet/tide). *)
Lemma similar_not_symmetric :
  similar "tide" "diet" = Qmake 2 8
  /\ similar "diet" "tide" = Qmake 4 8
  /\ (similar "tide" "diet" < similar "diet" "tide")%Q.
Proof. vm_compute. repeat split. Qed.

(** C9 (amended): for every pair of strings the similarity lies in [0, 1]
    and does not depend on the case of either argument; it is not symmetric
    in general. *)
Theorem similar_range_case_insensitive (a b : string) :
  (0 <= similar a b <= 1)%Q
  /\ similar (Text.lower a) b = similar a b
  /\ similar a (Text.lower b) = similar a b.
Proof.
  unfold similar. split; [apply Difflib.ratio_range|].
  now rewrite !Text.lower_idem.
Qed.

(** ** Grouping and averaging, as the [groupby] calls use them

    [groupby] leaves out the rows whose key is missing; the callers below
    filter those rows before they group.  Groups are kept in the order in
    which their keys first occur; [groupby] returns them sorted by key, and
    the callers whose result is read in order ([bus_stop_agg], the grid
    cells of the clustering) sort them.  The rail tables are read by station
    only and are left in the order of first occurrence. *)
Module Frames.

Definition Qsum (l : list Q) : Q := fold_right Qplus 0%Q l.

(** [mean] of a non-empty group. *)
Definition Qmean (l : list Q) : Q :=
  (Qsum l / inject_Z (Z.of_nat (List.length l)))%Q.

Fixpoint group_insert {K V : Type} (eqb : K -> K -> bool) (k : K) (v : V)
  (groups : list (K * list V)) : list (K * list V) :=
  match groups with
  | [] => [(k, [v])]
  | (k', vs) :: rest =>
      if eqb k' k then (k', vs ++ [v]) :: rest
      else (k', vs) :: group_insert eqb k v rest
  end.

Definition group_by {K V : Type} (eqb : K -> K -> bool) (rows : list (K * V))
  : list (K * list V) :=
  fold_left (fun groups kv => group_insert eqb (fst kv) (snd kv) groups) rows [].

(** The group of a key, if there is one. *)
Fixpoint lookup {K V : Type} (eqb : K -> K -> bool) (k : K) (l : list (K * V))
  : option V :=
  match l with
  | [] => None
  | (k', v) :: rest => if eqb k' k then Some v else lookup eqb k rest
  end.


(** The values of the rows whose key is [k], in row order. *)
Definition values_of {K V : Type} (eqb : K -> K -> bool) (k : K)
  (rows : list (K * V)) : list V :=
  map snd (filter (fun kv => eqb (fst kv) k) rows).

Section GroupBy.
Context {K V : Type} (eqb : K -> K -> bool).
Hypothesis eqb_sym : forall x y, eqb x y = eqb y x.
Hypothesis eqb_trans : forall x y z, eqb x y = true -> eqb y z = true -> eqb x z = true.

Lemma eqb_congr (x y z : K) : eqb x y = true -> eqb x z = eqb y z.
Proof.
  intros H. destruct (eqb y z) eqn:E.
  - now apply eqb_trans with y.
  - destruct (eqb x z) eqn:E'; [|reflexivity].
    rewrite eqb_sym in H. rewrite <- E. symmetry. now apply eqb_trans with x.
Qed.

Lemma lookup_group_insert (k k' : K) (v : V) (groups : list (K * list V)) :
  lookup eqb k' (group_insert eqb k v groups)
  = if eqb k k'
    then Some (match lookup eqb k' groups with
               | Some vs => vs ++ [v]
               | None => [v]
               end)
    else lookup eqb k' groups.
Proof.
  induction groups as [|[k0 vs] rest IH]; simpl.
  - destruct (eqb k k'); reflexivity.
  - destruct (eqb k0 k) eqn:E0; simpl.
    + rewrite (eqb_congr k0 k k' E0).
      destruct (eqb k k'); reflexivity.
    + rewrite IH. destruct (eqb k0 k') eqn:E1; [|reflexivity].
      rewrite eqb_sym, <- (eqb_congr k0 k' k E1), E0. reflexivity.
Qed.

Lemma lookup_fold_insert (k : K) (rows : list (K * V)) :
  forall groups,
    lookup eqb k
      (fold_left (fun g kv => group_insert eqb (fst kv) (snd kv) g) rows groups)
    = match lookup eqb k groups with
      | Some vs => Some (vs ++ values_of eqb k rows)
      | None =>
          match values_of eqb k rows with
          | [] => None
          | l => Some l
          end
      end.
Proof.
  unfold values_of.
  induction rows as [|[k0 v0] rows IH]; intros groups; simpl.
  - destruct (lookup eqb k groups); [now rewrite app_nil_r|reflexivity].
  - rewrite IH, lookup_group_insert.
    destruct (eqb k0 k); simpl.
    + destruct (lookup eqb k groups); [now rewrite <- app_assoc|reflexivity].
    + reflexivity.
Qed.

(** A key has a group exactly when some row has it, and the group holds
    the values of those rows. *)
Lemma lookup_group_by (k : K) (rows : list (K * V)) :
  lookup eqb k (group_by eqb rows)
  = match values_of eqb k rows with
    | [] => None
    | l => Some l
    end.
Proof.
  unfold group_by. now rewrite lookup_fold_insert.
Qed.

Lemma lookup_map {W : Type} (f : list V -> W) (k : K) (groups : list (K * list V)) :
  lookup eqb k (map (fun g => (fst g, f (snd g))) groups)
  = option_map f (lookup eqb k groups).
Proof.
  induction groups as [|[k0 vs] rest IH]; simpl; [reflexivity|].
  destruct (eqb k0 k); [reflexivity|exact IH].
Qed.

End GroupBy.





(** *** Rounding to a number of decimals ([Series.round], [round]) *)

(** Nearest integer, ties to the even one. *)
Definition rint (x : Q) : Z :=
  let f := Qfloor x in
  match Qcompare ((x - inject_Z f) * 2) 1 with
  | Lt => f
  | Gt => (f + 1)%Z
  | Eq => if Z.even f then f else (f + 1)%Z
  end.

Definition pow10 (decimals : nat) : Z := (10 ^ Z.of_nat decimals)%Z.

(** The rounded value is [round_scaled x d / 10^d]. *)
Definition round_scaled (x : Q) (decimals : nat) : Z :=
  rint (x * inject_Z (pow10 decimals)).

Definition unscale (z : Z) (decimals : nat) : Q :=
  (inject_Z z / inject_Z (pow10 decimals))%Q.

Definition round_to (x : Q) (decimals : nat) : Q :=
  unscale (round_scaled x decimals) decimals.

(** *** Groups under an equality of keys that is the identity *)

Section GroupByEq.
Context {K V : Type} (eqb : K -> K -> bool).
Hypothesis eqb_eq : forall x y, eqb x y = true <-> x = y.

Lemma eqb_eq_refl (x : K) : eqb x x = true.
Proof. now apply eqb_eq. Qed.

Lemma eqb_eq_sym (x y : K) : eqb x y = eqb y x.
Proof.
  destruct (eqb x y) eqn:E.
  - apply eqb_eq in E. subst. symmetry. apply eqb_eq_refl.
  - destruct (eqb y x) eqn:E'; [|reflexivity].
    apply eqb_eq in E'. subst. now rewrite eqb_eq_refl in E.
Qed.

Lemma eqb_eq_trans (x y z : K) :
  eqb x y = true -> eqb y z = true -> eqb x z = true.
Proof.
  intros H1 H2. apply eqb_eq in H1, H2. subst. apply eqb_eq_refl.
Qed.

Lemma group_insert_keys (k : K) (v : V) (groups : list (K * list V)) :
  map fst (group_insert eqb k v groups)
  = if existsb (eqb k) (map fst groups) then map fst groups
    else map fst groups ++ [k].
Proof.
  induction groups as [|[k0 vs] rest IH]; simpl; [reflexivity|].
  rewrite (eqb_eq_sym k k0).
  destruct (eqb k0 k); simpl; [reflexivity|].
  rewrite IH. now destruct (existsb (eqb k) (map fst rest)).
Qed.

Lemma group_insert_nodup (k : K) (v : V) (groups : list (K * list V)) :
  NoDup (map fst groups) -> NoDup (map fst (group_insert eqb k v groups)).
Proof.
  intros H. rewrite group_insert_keys.
  destruct (existsb (eqb k) (map fst groups)) eqn:E; [assumption|].
  apply NoDup_app; [assumption|repeat constructor; intros []|].
  intros x Hx [->|[]].
  assert (existsb (eqb x) (map fst groups) = true).
  { apply existsb_exists. exists x. split; [assumption|apply eqb_eq_refl]. }
  congruence.
Qed.

Lemma group_by_nodup (rows : list (K * V)) :
  NoDup (map fst (group_by eqb rows)).
Proof.
  unfold group_by.
  assert (G : forall groups,
             NoDup (map fst groups) ->
             NoDup (map fst (fold_left
                               (fun g kv => group_insert eqb (fst kv) (snd kv) g)
                               rows groups))).
  { induction rows as [|kv rows IH]; intros groups H; simpl; [assumption|].
    apply IH. now apply group_insert_nodup. }
  apply G. constructor.
Qed.

Lemma lookup_in {W : Type} (k : K) (v : W) (l : list (K * W)) :
  lookup eqb k l = Some v -> In (k, v) l.
Proof.
  induction l as [|[k0 v0] l IH]; simpl; [discriminate|].
  destruct (eqb k0 k) eqn:E.
  - apply eqb_eq in E. subst. intros [= ->]. now left.
  - intros H. right. now apply IH.
Qed.

Lemma in_lookup {W : Type} (k : K) (v : W) (l : list (K * W)) :
  NoDup (map fst l) -> In (k, v) l -> lookup eqb k l = Some v.
Proof.
  induction l as [|[k0 v0] l IH]; simpl; [intros _ []|].
  intros Hnd [[= -> ->]|Hin].
  - now rewrite eqb_eq_refl.
  - inversion Hnd as [|? ? Hk0 Hnd']; subst.
    destruct (eqb k0 k) eqn:E; [|now apply IH].
    apply eqb_eq in E. subst. exfalso. apply Hk0.
    apply in_map_iff. now exists (k, v).
Qed.

(** The groups are the non-empty classes of rows with equal keys, each
    once, with its rows in row order. *)
Lemma group_by_in (rows : list (K * V)) (k : K) (vs : list V) :
  In (k, vs) (group_by eqb rows)
  <-> vs = values_of eqb k rows /\ vs <> [].
Proof.
  split.
  - intros H. apply (in_lookup _ _ _ (group_by_nodup rows)) in H.
    rewrite (lookup_group_by eqb eqb_eq_sym eqb_eq_trans) in H.
    destruct (values_of eqb k rows); [discriminate|].
    injection H as <-. split; [reflexivity|discriminate].
  - intros [-> Hne]. apply lookup_in.
    rewrite (lookup_group_by eqb eqb_eq_sym eqb_eq_trans).
    destruct (values_of eqb k rows); [congruence|reflexivity].
Qed.

End GroupByEq.

Lemma values_of_keyed {K V : Type} (eqb : K -> K -> bool) (key : V -> K)
  (k : K) (rows : list V) :
  values_of eqb k (map (fun r => (key r, r)) rows)
  = filter (fun r => eqb (key r) k) rows.
Proof.
  unfold values_of. induction rows as [|r rows IH]; simpl; [reflexivity|].
  destruct (eqb (key r) k); simpl; now rewrite IH.
Qed.

(** *** [pd.unique]: the distinct values in the order of first occurrence *)

Fixpoint unique_loop {A : Type} (eqb : A -> A -> bool) (l seen : list A)
  : list A :=
  match l with
  | [] => []
  | x :: rest =>
      if existsb (eqb x) seen then unique_loop eqb rest seen
      else x :: unique_loop eqb rest (x :: seen)
  end.

Definition unique {A : Type} (eqb : A -> A -> bool) (l : list A) : list A :=
  unique_loop eqb l [].


(** *** [unique] keeps the first occurrence of every value *)

(** The textbook definition: keep the head, drop it from the rest. *)
Fixpoint dedup {A : Type} (eqb : A -> A -> bool) (l : list A) : list A :=
  match l with
  | [] => []
  | x :: rest => x :: filter (fun y => negb (eqb y x)) (dedup eqb rest)
  end.

Lemma filter_filter {A : Type} (p q : A -> bool) (l : list A) :
  filter p (filter q l) = filter (fun y => q y && p y) l.
Proof.
  induction l as [|x l IH]; simpl; [reflexivity|].
  destruct (q x); simpl; [|exact IH].
  destruct (p x); now rewrite IH.
Qed.

Section Unique.
Context {A : Type} (eqb : A -> A -> bool).
Hypothesis eqb_eq : forall x y, eqb x y = true <-> x = y.

Lemma unique_loop_dedup (l : list A) :
  forall seen,
    unique_loop eqb l seen
    = filter (fun y => negb (existsb (eqb y) seen)) (dedup eqb l).
Proof.
  induction l as [|x l IH]; intros seen; simpl; [reflexivity|].
  destruct (existsb (eqb x) seen) eqn:E; simpl.
  - rewrite IH, filter_filter. apply filter_ext. intros y.
    destruct (eqb y x) eqn:Eyx; simpl; [|reflexivity].
    apply eqb_eq in Eyx. subst y. now rewrite E.
  - rewrite IH, filter_filter. f_equal. apply filter_ext. intros y.
    simpl. now rewrite negb_orb.
Qed.

Lemma unique_dedup (l : list A) : unique eqb l = dedup eqb l.
Proof.
  unfold unique. rewrite unique_loop_dedup.
  generalize (dedup eqb l). intros d.
  induction d as [|y d IH]; [reflexivity|].
  change (y :: filter (fun y => negb (existsb (eqb y) [])) d = y :: d).
  now rewrite IH.
Qed.

Lemma dedup_in (l : list A) (x : A) : In x (dedup eqb l) <-> In x l.
Proof.
  induction l as [|y l IH]; simpl; [tauto|].
  rewrite filter_In, IH. split.
  - tauto.
  - intros [->|H]; [now left|].
    destruct (eqb x y) eqn:E.
    + left. symmetry. now apply eqb_eq.
    + right. now split.
Qed.

Lemma dedup_nodup (l : list A) : NoDup (dedup eqb l).
Proof.
  induction l as [|y l IH]; simpl; constructor.
  - rewrite filter_In. intros [_ H].
    now rewrite (proj2 (eqb_eq y y) eq_refl) in H.
  - now apply NoDup_filter.
Qed.

Lemma unique_in (l : list A) (x : A) : In x (unique eqb l) <-> In x l.
Proof. rewrite unique_dedup. apply dedup_in. Qed.

End Unique.

(** *** Sorting (the key order of [groupby], [Series.mode]) *)

Section Sort.
Context {A : Type} (leb : A -> A -> bool).

Fixpoint insert_sorted (x : A) (l : list A) : list A :=
  match l with
  | [] => [x]
  | y :: rest => if leb x y then x :: l else y :: insert_sorted x rest
  end.

(** A stable sort. *)
Definition sort_on (l : list A) : list A := fold_right insert_sorted [] l.

Lemma insert_sorted_perm (x : A) (l : list A) :
  Permutation (insert_sorted x l) (x :: l).
Proof.
  induction l as [|y rest IH]; simpl; [reflexivity|].
  destruct (leb x y); [reflexivity|].
  rewrite IH. apply perm_swap.
Qed.

Lemma sort_on_perm (l : list A) : Permutation (sort_on l) l.
Proof.
  induction l as [|x l IH]; simpl; [reflexivity|].
  rewrite insert_sorted_perm. now constructor.
Qed.

Lemma sort_on_in (l : list A) (x : A) : In x (sort_on l) <-> In x l.
Proof.
  split; apply Permutation_in;
    [apply sort_on_perm|symmetry; apply sort_on_perm].
Qed.

Hypothesis leb_total : forall x y, leb x y = true \/ leb y x = true.
Hypothesis leb_trans :
  forall x y z, leb x y = true -> leb y z = true -> leb x z = true.

Lemma insert_sorted_sorted (x : A) (l : list A) :
  StronglySorted (fun a b => leb a b = true) l ->
  StronglySorted (fun a b => leb a b = true) (insert_sorted x l).
Proof.
  induction 1 as [|y rest Hs IH Hy]; simpl.
  - repeat constructor.
  - destruct (leb x y) eqn:E.
    + constructor; [now constructor|].
      constructor; [assumption|].
      rewrite Forall_forall in *. intros z Hz. apply leb_trans with y; auto.
    + constructor; [assumption|].
      rewrite Forall_forall in *. intros z Hz.
      apply (Permutation_in _ (insert_sorted_perm x rest)) in Hz.
      destruct Hz as [<-|Hz]; [|now apply Hy].
      destruct (leb_total x y); congruence.
Qed.

Lemma sort_on_sorted (l : list A) :
  StronglySorted (fun a b => leb a b = true) (sort_on l).
Proof.
  induction l as [|x l IH]; simpl; [constructor|].
  now apply insert_sorted_sorted.
Qed.

(** The head of the sorted list is a least element. *)
Lemma sort_on_head (l : list A) (m : A) (rest : list A) :
  sort_on l = m :: rest ->
  In m l /\ forall x, In x l -> x = m \/ leb m x = true.
Proof.
  intros E. split.
  - apply sort_on_in. rewrite E. now left.
  - intros x Hx. apply sort_on_in in Hx. rewrite E in Hx.
    destruct Hx as [<-|Hx]; [now left|right].
    pose proof (sort_on_sorted l) as S. rewrite E in S.
    inversion S as [|? ? _ F]; subst.
    rewrite Forall_forall in F. now apply F.
Qed.

End Sort.

End Frames.

(** ** Rail usage aggregation (step 1 of [run_analysis]) *)
Module RailUsage.
Import Frames.

(** A cell of a table read by [pd.read_csv].  A text cell carries what the
    two converters of the program make of it: [number] is the result of
    [float] once the commas are removed ([None] when it raises), [date] the
    result of [pd.to_datetime(..., errors='coerce')] ([None] for NaT). *)
Inductive cell : Type :=
| NA
| Num (q : Q)
| Txt (s : string) (number : option Q) (date : option Z).

Definition isna (c : cell) : bool :=
  match c with NA => true | _ => false end.

Definition is_some {A : Type} (o : option A) : bool :=
  match o with Some _ => true | None => false end.

(** Equality of group keys. *)
Definition cell_eqb (x y : cell) : bool :=
  match x, y with
  | NA, NA => true
  | Num p, Num q => Qeq_bool p q
  | Txt s _ _, Txt t _ _ => String.eqb s t
  | _, _ => false
  end.

(** [pd.to_datetime(..., errors='coerce')] on one cell; a number is an
    offset from the epoch. *)
Definition to_datetime (c : cell) : option Z :=
  match c with
  | NA => None
  | Num q => Some (Qfloor q)
  | Txt _ _ d => d
  end.

(** The value of a boardings cell after [.str.replace(',', '')] and
    [astype(float)]. *)
Definition to_number (c : cell) : option Q :=
  match c with
  | NA => None
  | Num q => Some q
  | Txt _ n _ => n
  end.

Record table : Type := {
  columns : list string;
  rows : list (list cell)
}.

Fixpoint index_of (c : string) (cols : list string) : option nat :=
  match cols with
  | [] => None
  | c' :: rest =>
      if String.eqb c' c then Some 0
      else option_map S (index_of c rest)
  end.

(** [row[c]] *)
Definition cell_at (cols : list string) (row : list cell) (c : string) : cell :=
  match index_of c cols with
  | Some i => nth i row NA
  | None => NA
  end.

Definition date_candidates : list string :=
  ["svc_date"; "svcdate"; "date"; "service_date"; "day"].
Definition stop_candidates : list string :=
  ["stop_id"; "stopid"; "station_id"; "stationid"; "stop"].
Definition board_candidates : list string :=
  ["avg_boardings"; "avg_boarding"; "avg_daily_boardings"; "boardings";
   "daily_boardings"; "avg_daily"].

(** [not col]: no column, or a column whose name is empty. *)
Definition falsy (col : option string) : bool :=
  match col with
  | None => true
  | Some c => String.eqb c ""
  end.

(** What becomes of one table that was read. *)
Inductive outcome : Type :=
| MissingColumns
| AggregationError
| Summary (stop_col : string) (station_avg : list (cell * Q)).

Definition key_eqb (x y : Z * cell) : bool :=
  Z.eqb (fst x) (fst y) && cell_eqb (snd x) (snd y).

(** [df.groupby([date_col, stop_col])[board_col].sum()]: the rows whose
    date is NaT belong to no group. *)
Definition daily_totals (keyed : list (option Z * cell * Q))
  : list (Z * cell * Q) :=
  map (fun g => (fst g, Qsum (snd g)))
    (group_by key_eqb
       (flat_map (fun r =>
                    match fst (fst r) with
                    | Some d => [((d, snd (fst r)), snd r)]
                    | None => []
                    end) keyed)).

(** [daily.groupby(stop_col)[board_col].mean()] *)
Definition station_means (daily : list (Z * cell * Q)) : list (cell * Q) :=
  map (fun g => (fst g, Qmean (snd g)))
    (group_by cell_eqb (map (fun r => (snd (fst r), snd r)) daily)).

(** The date of a row once the date column went through [to_datetime];
    without a date column the synthetic one is NaT in every row. *)
Definition date_of (df_cols : list string) (date_col : option string)
  (row : list cell) : option Z :=
  match date_col with
  | Some dc =>
      if falsy date_col then None else to_datetime (cell_at df_cols row dc)
  | None => None
  end.

(** The detected date column is the column [c]. *)
Definition same_column (date_col : option string) (c : string) : bool :=
  match date_col with
  | Some dc => String.eqb dc c
  | None => false
  end.

(** The body of the loop over [RAIL_FILES], from the column detection on.
    The three columns are detected one by one, and two detections can fall
    on one column (the header [avg_boardings_per_day] holds both [day] and
    [avg_boardings]).  The grouping then has a key twice, or its value
    column among the keys: [sum] on a column of dates or the [reset_index]
    that follows raises inside the [try], and the table yields no year
    summary. *)
Definition process_table (t : table) : outcome :=
  let df_cols := columns t in
  let date_col := SchemaResolver.find_best_column df_cols date_candidates in
  let stop_col := SchemaResolver.find_best_column df_cols stop_candidates in
  let board_col := SchemaResolver.find_best_column df_cols board_candidates in
  if falsy stop_col || falsy board_col then MissingColumns
  else
    match stop_col, board_col with
    | Some sc, Some bc =>
        if same_column date_col sc || same_column date_col bc
           || String.eqb sc bc
        then AggregationError
        else
        (* dropna(subset=[board_col, stop_col]) *)
        let kept :=
          filter (fun row => negb (isna (cell_at df_cols row bc))
                             && negb (isna (cell_at df_cols row sc)))
            (rows t) in
        if forallb (fun row => is_some (to_number (cell_at df_cols row bc))) kept
        then
          let keyed :=
            map (fun row =>
                   (date_of df_cols date_col row, cell_at df_cols row sc,
                    match to_number (cell_at df_cols row bc) with
                    | Some q => q
                    | None => 0%Q
                    end)) kept in
          Summary sc (station_means (daily_totals keyed))
        else
          (* the column is still text: [mean] raises on the first group *)
          match
            filter (fun row => is_some (date_of df_cols date_col row)) kept
          with
          | [] => Summary sc []
          | _ :: _ => AggregationError
          end
    | _, _ => MissingColumns
    end.

(** One entry of [RAIL_FILES]. *)
Inductive rail_file : Type :=
| NotFound
| ReadError
| Loaded (t : table).

Definition frame : Type := string * list (cell * Q).

(** The loop over [RAIL_FILES], with its two accumulators. *)
Fixpoint load_loop (files : list rail_file) (found_any_rail : bool)
  (year_station_dfs : list frame) : bool * list frame :=
  match files with
  | [] => (found_any_rail, year_station_dfs)
  | NotFound :: rest => load_loop rest found_any_rail year_station_dfs
  | ReadError :: rest => load_loop rest found_any_rail year_station_dfs
  | Loaded t :: rest =>
      match process_table t with
      | MissingColumns => load_loop rest true year_station_dfs
      | AggregationError => load_loop rest true year_station_dfs
      | Summary sc station_avg =>
          load_loop rest true (year_station_dfs ++ [(sc, station_avg)])
      end
  end.

(** [pd.concat] followed by [groupby(all_years.columns[0])...mean()]: the key
    column is the stop column of the first frame, and the rows of a frame
    whose stop column has another name are NaN there. *)
Definition combine_years (year_station_dfs : list frame) : list (cell * Q) :=
  match year_station_dfs with
  | [] => []
  | (key_col, _) :: _ =>
      map (fun g => (fst g, Qmean (snd g)))
        (group_by cell_eqb
           (flat_map (fun f : frame =>
                        if String.eqb (fst f) key_col then snd f else [])
              year_station_dfs))
  end.

Inductive rail_result : Type :=
| NoUsableData
| RailUsageTable (rail_usage : list (cell * Q)).

Definition aggregate_rail_usage (files : list rail_file) : rail_result :=
  let '(found_any_rail, year_station_dfs) := load_loop files false [] in
  if negb found_any_rail
     || match year_station_dfs with [] => true | _ => false end
  then NoUsableData
  else RailUsageTable (combine_years year_station_dfs).

(** The figure of a station in a list of per-station figures. *)
Definition figure (s : cell) (figures : list (cell * Q)) : option Q :=
  lookup cell_eqb s figures.


(** *** Tables that are skipped, and when the run aborts *)

Definition is_loaded (f : rail_file) : bool :=
  match f with Loaded _ => true | _ => false end.

(** The frame a file adds to [year_station_dfs], if any. *)
Definition summary_of (f : rail_file) : list frame :=
  match f with
  | Loaded t =>
      match process_table t with
      | Summary sc station_avg => [(sc, station_avg)]
      | _ => []
      end
  | _ => []
  end.

(** A file yields a year summary. *)
Definition usable (f : rail_file) : bool :=
  match summary_of f with [] => false | _ => true end.

Lemma load_loop_spec (files : list rail_file) :
  forall found dfs,
    load_loop files found dfs
    = (found || existsb is_loaded files, dfs ++ flat_map summary_of files).
Proof.
  induction files as [|f files IH]; intros found dfs; simpl.
  - now rewrite orb_false_r, app_nil_r.
  - destruct f as [| |t]; simpl; try apply IH.
    destruct (process_table t); rewrite IH, ?orb_true_r, ?app_nil_l;
      try reflexivity.
    now rewrite <- app_assoc.
Qed.

Lemma summary_needs_loaded (files : list rail_file) :
  flat_map summary_of files <> [] -> existsb is_loaded files = true.
Proof.
  induction files as [|f files IH]; simpl; [congruence|].
  destruct f; simpl; auto.
Qed.

Lemma flat_map_nil_iff {A B : Type} (f : A -> list B) (l : list A) :
  flat_map f l = [] <-> forall x, In x l -> f x = [].
Proof.
  induction l as [|x l IH]; simpl.
  - split; [intros _ y []|reflexivity].
  - split.
    + intros H. apply app_eq_nil in H. destruct H as [H1 H2].
      intros y [<-|Hy]; [assumption|]. now apply IH.
    + intros H. rewrite (H x (or_introl eq_refl)). simpl.
      apply IH. intros y Hy. apply H. now right.
Qed.

Lemma aggregate_spec (files : list rail_file) :
  aggregate_rail_usage files
  = match flat_map summary_of files with
    | [] => NoUsableData
    | dfs => RailUsageTable (combine_years dfs)
    end.
Proof.
  unfold aggregate_rail_usage. rewrite load_loop_spec. simpl.
  destruct (flat_map summary_of files) as [|d dfs] eqn:E.
  - now rewrite orb_true_r.
  - rewrite summary_needs_loaded by (rewrite E; discriminate). reflexivity.
Qed.

Lemma missing_columns_iff (t : table) :
  process_table t = MissingColumns
  <-> falsy (SchemaResolver.find_best_column (columns t) stop_candidates)
      || falsy (SchemaResolver.find_best_column (columns t) board_candidates)
      = true.
Proof.
  unfold process_table.
  destruct (falsy (SchemaResolver.find_best_column (columns t) stop_candidates)
            || falsy (SchemaResolver.find_best_column (columns t) board_candidates))
    eqn:E.
  - tauto.
  - split; [|discriminate].
    apply orb_false_elim in E. destruct E as [E1 E2].
    destruct (SchemaResolver.find_best_column (columns t) stop_candidates);
      [|discriminate].
    destruct (SchemaResolver.find_best_column (columns t) board_candidates);
      [|discriminate].
    destruct (same_column _ _ || same_column _ _ || String.eqb _ _);
      [discriminate|].
    destruct (forallb _ _); [discriminate|].
    destruct (filter _ _); discriminate.
Qed.

Lemma usable_false_iff (f : rail_file) :
  usable f = false
  <-> f = NotFound \/ f = ReadError
      \/ exists t, f = Loaded t
                   /\ (process_table t = MissingColumns
                       \/ process_table t = AggregationError).
Proof.
  unfold usable. destruct f as [| |t]; simpl.
  - tauto.
  - tauto.
  - destruct (process_table t) eqn:E; split; intros H; try reflexivity;
      try discriminate.
    + right; right. exists t. tauto.
    + right; right. exists t. tauto.
    + destruct H as [H|[H|(t' & [= <-] & [H|H])]]; congruence.
Qed.

Definition S_ (s : string) : cell := Txt s None None.
Definition D_ (s : string) (d : Z) : cell := Txt s None (Some d).

(** A table with a date, a stop and a boardings column whose boardings are
    not numbers. *)
Definition text_boardings_table : table :=
  {| columns := ["date"; "stop_id"; "boardings"];
     rows := [[D_ "2024-01-01" 19723; S_ "A01"; Txt "closed" None None]] |}.

(** C5, as stated, fails: a table that is read and has both required
    columns, but whose aggregation raises, leaves no year summary, and the
    run aborts. *)
Lemma aggregation_failure_aborts :
  SchemaResolver.find_best_column (columns text_boardings_table) stop_candidates
  = Some "stop_id"
  /\ SchemaResolver.find_best_column (columns text_boardings_table) board_candidates
     = Some "boardings"
  /\ process_table text_boardings_table = AggregationError
  /\ aggregate_rail_usage [Loaded text_boardings_table] = NoUsableData.
Proof. repeat split. Qed.

(** C5 (amended): the year summaries collected are those of the tables that
    were read, have a stop and a boardings column and were aggregated, in
    file order; a table is skipped for its columns exactly when the stop or
    the boardings column is not found; leaving out a file that yields no
    summary changes nothing in the result; and the run aborts with no usable
    data exactly when every file was missing, unreadable, skipped for its
    columns, or failed in the aggregation. *)
Theorem skip_bad_tables_abort_when_none (files : list rail_file) :
  snd (load_loop files false []) = flat_map summary_of files
  /\ (forall t, In (Loaded t) files ->
        (process_table t = MissingColumns
         <-> falsy (SchemaResolver.find_best_column (columns t) stop_candidates)
             || falsy (SchemaResolver.find_best_column (columns t) board_candidates)
             = true))
  /\ (forall l1 bad l2,
        files = l1 ++ bad :: l2 -> usable bad = false ->
        aggregate_rail_usage files = aggregate_rail_usage (l1 ++ l2))
  /\ (aggregate_rail_usage files = NoUsableData
      <-> forall f, In f files ->
            f = NotFound \/ f = ReadError
            \/ exists t, f = Loaded t
                         /\ (process_table t = MissingColumns
                             \/ process_table t = AggregationError)).
Proof.
  split; [|split; [|split]].
  - now rewrite load_loop_spec.
  - intros t _. apply missing_columns_iff.
  - intros l1 bad l2 -> Hbad. rewrite !aggregate_spec, !flat_map_app. simpl.
    unfold usable in Hbad. destruct (summary_of bad); [reflexivity|discriminate].
  - rewrite aggregate_spec. split.
    + intros H f Hf. apply usable_false_iff. unfold usable.
      destruct (flat_map summary_of files) eqn:E; [|discriminate].
      now rewrite (proj1 (flat_map_nil_iff _ _) E f Hf).
    + intros H.
      assert (E : flat_map summary_of files = []).
      { apply flat_map_nil_iff. intros f Hf.
        specialize (H f Hf). apply usable_false_iff in H. unfold usable in H.
        destruct (summary_of f); [reflexivity|discriminate]. }
      now rewrite E.
Qed.

(** *** A table without a date column *)

Definition no_date_table : table :=
  {| columns := ["stop_id"; "boardings"];
     rows := [[S_ "A01"; Num 100]; [S_ "A01"; Num 300]; [S_ "B02"; Num 50]] |}.

(** The same rows with a date column. *)
Definition dated_table : table :=
  {| columns := ["date"; "stop_id"; "boardings"];
     rows := [[D_ "2024-01-01" 19723; S_ "A01"; Num 100];
              [D_ "2024-01-02" 19724; S_ "A01"; Num 300];
              [D_ "2024-01-01" 19723; S_ "B02"; Num 50]] |}.

Example dated_table_figures :
  process_table dated_table
  = Summary "stop_id" [(S_ "A01", Qmake 400 2); (S_ "B02", Qmake 50 1)].
Proof. reflexivity. Qed.

(** Without a date column every row has the key NaT, which [groupby] leaves
    out: no stop receives a figure. *)
Lemma synthetic_date_groups_nothing (t : table) sc station_avg :
  falsy (SchemaResolver.find_best_column (columns t) date_candidates) = true ->
  process_table t = Summary sc station_avg ->
  station_avg = [].
Proof.
  unfold process_table. intros Hd.
  destruct (falsy (SchemaResolver.find_best_column (columns t) stop_candidates)
            || falsy (SchemaResolver.find_best_column (columns t) board_candidates));
    [discriminate|].
  destruct (SchemaResolver.find_best_column (columns t) stop_candidates) as [sc'|];
    [|discriminate].
  destruct (SchemaResolver.find_best_column (columns t) board_candidates) as [bc|];
    [|discriminate].
  destruct (same_column _ sc' || same_column _ bc || String.eqb sc' bc);
    [discriminate|].
  assert (Hnat : forall row,
             date_of (columns t)
               (SchemaResolver.find_best_column (columns t) date_candidates) row
             = None).
  { intros row. unfold date_of. rewrite Hd.
    destruct (SchemaResolver.find_best_column (columns t) date_candidates);
      reflexivity. }
  destruct (forallb _ _).
  - intros [= _ <-]. unfold daily_totals.
    match goal with
    | |- context [flat_map ?f (map ?g ?l)] =>
        assert (E : flat_map f (map g l) = [])
    end.
    { apply flat_map_nil_iff. intros x Hx. apply in_map_iff in Hx.
      destruct Hx as (row & <- & _). simpl. now rewrite Hnat. }
    rewrite E. reflexivity.
  - match goal with
    | |- context [filter ?f ?l] => assert (E : filter f l = [])
    end.
    { induction (filter _ (rows t)) as [|row l IH]; simpl; [reflexivity|].
      now rewrite Hnat. }
    rewrite E. now intros [= _ <-].
Qed.

(** C4: at a table without a date column the code gives no stop a figure,
    although every row has a stop identifier and boardings; the same rows
    with a date column give a figure to both stops. *)
Theorem no_date_table_yields_no_figure :
  SchemaResolver.find_best_column (columns no_date_table) date_candidates = None
  /\ process_table no_date_table = Summary "stop_id" []
  /\ aggregate_rail_usage [Loaded no_date_table] = RailUsageTable []
  /\ aggregate_rail_usage [Loaded dated_table]
     = RailUsageTable [(S_ "A01", Qmake 400 2); (S_ "B02", Qmake 50 1)].
Proof. repeat split. Qed.

(** *** The mean over the years *)

Definition table_2023 : table :=
  {| columns := ["date"; "stop_id"; "boardings"];
     rows := [[D_ "2023-06-01" 19509; S_ "A01"; Num 100]] |}.

Definition table_2024 : table :=
  {| columns := ["date"; "station_id"; "boardings"];
     rows := [[D_ "2024-06-01" 19875; S_ "A01"; Num 300];
              [D_ "2024-06-01" 19875; S_ "B02"; Num 50]] |}.

Lemma cell_eqb_sym (x y : cell) : cell_eqb x y = cell_eqb y x.
Proof.
  destruct x, y; simpl; try reflexivity.
  - apply Bool.eq_true_iff_eq. rewrite !Qeq_bool_iff.
    split; intros H; now symmetry.
  - apply String.eqb_sym.
Qed.

Lemma cell_eqb_trans (x y z : cell) :
  cell_eqb x y = true -> cell_eqb y z = true -> cell_eqb x z = true.
Proof.
  destruct x, y, z; simpl; try discriminate; try reflexivity.
  - rewrite !Qeq_bool_iff. apply Qeq_trans.
  - rewrite !String.eqb_eq. congruence.
Qed.

Lemma flat_map_one_header (k0 : string) (l : list frame) :
  (forall f, In f l -> fst f = k0) ->
  flat_map (fun f : frame => if String.eqb (fst f) k0 then snd f else []) l
  = flat_map snd l.
Proof.
  induction l as [|f l IH]; intros Hcol; simpl; [reflexivity|].
  rewrite (Hcol f (or_introl eq_refl)), String.eqb_refl.
  rewrite IH; [reflexivity|]. intros g Hg. apply Hcol. now right.
Qed.

(** When the year summaries share the name of their stop column, the
    figure of a station is the mean of its yearly figures, over the
    summaries in which it occurs. *)
Lemma combine_years_one_header (key_col : string) (dfs : list frame) (s : cell) :
  (forall f, In f dfs -> fst f = key_col) ->
  figure s (combine_years dfs)
  = match values_of cell_eqb s (flat_map snd dfs) with
    | [] => None
    | l => Some (Qmean l)
    end.
Proof.
  intros Hcol.
  destruct dfs as [|[k0 rows0] rest]; [reflexivity|].
  unfold figure, combine_years.
  assert (Hk : key_col = k0) by (symmetry; apply (Hcol (k0, rows0)); now left).
  subst key_col.
  pose proof (flat_map_one_header k0 ((k0, rows0) :: rest) Hcol) as E.
  unfold frame in *. rewrite E, (lookup_map cell_eqb Qmean).
  rewrite (lookup_group_by cell_eqb cell_eqb_sym cell_eqb_trans).
  now destruct (values_of cell_eqb s (flat_map snd ((k0, rows0) :: rest))).
Qed.

(** Yearly figures 100, 200 and 300 under one stop column combine to 200. *)
Example multi_year_mean :
  option_map Qred
    (figure (S_ "A01")
       (combine_years [("stop_id", [(S_ "A01", 100%Q)]);
                       ("stop_id", [(S_ "A01", 200%Q)]);
                       ("stop_id", [(S_ "A01", 300%Q)])]))
  = Some 200%Q.
Proof. reflexivity. Qed.

(** C6: two tables that name their stop column differently.  Only the
    figures of the first table reach the mean: station A01 gets 100, not the
    mean 200 of its two yearly figures, and station B02, present in the
    second table alone, gets no figure. *)
Theorem stop_column_names_must_agree :
  process_table table_2023 = Summary "stop_id" [(S_ "A01", Qmake 100 1)]
  /\ process_table table_2024
     = Summary "station_id" [(S_ "A01", Qmake 300 1); (S_ "B02", Qmake 50 1)]
  /\ aggregate_rail_usage [Loaded table_2023; Loaded table_2024]
     = RailUsageTable [(S_ "A01", Qmake 100 1)].
Proof. repeat split. Qed.

End RailUsage.

(** ** The bus table after cleaning *)
Module BusData.
Import Frames.

(** A row of [bus_df] once the rows without numeric coordinates are
    dropped.  [ROUTE_NAME] is the text [astype(str)] gives.  [STOP] is the
    cell of a column of text (an [object] column); a [STOP] column of
    numbers is outside the model. *)
Record bus_row : Type := {
  STOP : option string;
  LAT : Q;
  LON : Q;
  SUM_PASSENGERS_ON : option Q;
  ROUTE_NAME : string
}.

(** [sum] skips the missing values. *)
Definition present (l : list (option Q)) : list Q :=
  flat_map (fun o => match o with Some q => [q] | None => [] end) l.

Definition Qlt_bool (x y : Q) : bool := negb (Qle_bool y x).

Lemma Qlt_bool_iff (x y : Q) : Qlt_bool x y = true <-> (x < y)%Q.
Proof.
  unfold Qlt_bool. rewrite negb_true_iff. split.
  - intros H. apply Qnot_le_lt. intros L. apply Qle_bool_iff in L. congruence.
  - intros H. destruct (Qle_bool y x) eqn:E; [|reflexivity].
    apply Qle_bool_iff in E. exfalso. now apply (Qlt_not_le x y).
Qed.

(** A row of [bus_stop_agg]. *)
Record stop_agg : Type := {
  agg_STOP : string;
  agg_LAT : Q;
  agg_LON : Q;
  agg_SUM : Q
}.

(** The rows that have a stop name, under that name. *)
Definition named_rows (bus_df : list bus_row) : list (string * bus_row) :=
  flat_map (fun r => match STOP r with Some n => [(n, r)] | None => [] end)
    bus_df.

Definition aggregate_stop (g : string * list bus_row) : stop_agg :=
  {| agg_STOP := fst g;
     agg_LAT := Qmean (map LAT (snd g));
     agg_LON := Qmean (map LON (snd g));
     agg_SUM := Qsum (present (map SUM_PASSENGERS_ON (snd g))) |}.

(** [bus_df.groupby('STOP').agg({'LAT': 'mean', 'LON': 'mean',
    'SUM_PASSENGERS_ON': 'sum'}).reset_index()], in the order of the names. *)
Definition bus_stop_agg (bus_df : list bus_row) : list stop_agg :=
  map aggregate_stop
    (sort_on (fun g1 g2 => String.leb (fst g1) (fst g2))
       (group_by String.eqb (named_rows bus_df))).

Definition bus_stop_names (bus_df : list bus_row) : list string :=
  map agg_STOP (bus_stop_agg bus_df).


(** The rows of a stop name, in row order. *)
Definition rows_named (bus_df : list bus_row) (n : string) : list bus_row :=
  filter (fun r => match STOP r with
                   | Some m => String.eqb m n
                   | None => false
                   end) bus_df.

Lemma values_of_named (bus_df : list bus_row) (n : string) :
  values_of String.eqb n (named_rows bus_df) = rows_named bus_df n.
Proof.
  unfold values_of, named_rows, rows_named.
  induction bus_df as [|r rows IH]; simpl; [reflexivity|].
  destruct (STOP r) as [m|]; simpl; [|exact IH].
  destruct (String.eqb m n); simpl; now rewrite IH.
Qed.

(** A row of [bus_stop_agg] holds the means over the rows of its name. *)
Lemma bus_stop_agg_in (bus_df : list bus_row) (a : stop_agg) :
  In a (bus_stop_agg bus_df) ->
  rows_named bus_df (agg_STOP a) <> []
  /\ agg_LAT a = Qmean (map LAT (rows_named bus_df (agg_STOP a)))
  /\ agg_LON a = Qmean (map LON (rows_named bus_df (agg_STOP a)))
  /\ agg_SUM a
     = Qsum (present (map SUM_PASSENGERS_ON (rows_named bus_df (agg_STOP a)))).
Proof.
  unfold bus_stop_agg. intros H. apply in_map_iff in H.
  destruct H as ([n rows] & <- & H). apply sort_on_in in H.
  apply (group_by_in String.eqb String.eqb_eq) in H.
  rewrite values_of_named in H. destruct H as [-> Hne].
  unfold aggregate_stop. simpl. now repeat split.
Qed.

End BusData.

(** ** Geocoding of rail stations by fuzzy name matching (step 3) *)
Module Reconciler.
Import Text Frames.

(** [''.join(ch if ch.isalnum() else ' ' for ch in name)] *)
Fixpoint spaced (name : string) : string :=
  match name with
  | EmptyString => EmptyString
  | String ch rest => String (if isalnum ch then ch else " "%char) (spaced rest)
  end.

(** [s.split()]: the maximal runs without white space. *)
Fixpoint split_loop (s cur : string) : list string :=
  match s with
  | EmptyString => if String.eqb cur "" then [] else [cur]
  | String c rest =>
      if is_space c
      then (if String.eqb cur "" then [] else [cur]) ++ split_loop rest ""
      else split_loop rest (String.append cur (String c EmptyString))
  end.

Definition split (s : string) : list string := split_loop s "".

(** The tokens of a name: [t for t in ....split() if len(t) > 1]. *)
Definition tokens (name : string) : list string :=
  filter (fun t => 1 <? String.length t) (split (spaced name)).

(** [len(set(t.lower() for t in station_tokens)
         & set(t.lower() for t in b_tokens))] *)
Definition token_overlap (station_tokens b_tokens : list string) : nat :=
  List.length
    (filter (fun t => existsb (String.eqb t) (map lower b_tokens))
       (unique String.eqb (map lower station_tokens))).

(** The thresholds [0.6] and [0.78].  A ratio is [2M/T] with [T] the total
    length of the two names; below [2^25] characters the comparisons of the
    binary64 values agree with the exact ones. *)
Definition ratio_060 : Q := Qmake 6 10.
Definition ratio_078 : Q := Qmake 78 100.

(** The loop over [bus_stop_names] for one station. *)
Fixpoint match_loop (station_name : string) (station_tokens : list string)
  (names : list string) (best_match : option string) (best_ratio : Q)
  : option string * Q :=
  match names with
  | [] => (best_match, best_ratio)
  | bname :: rest =>
      if String.eqb bname ""
      then match_loop station_name station_tokens rest best_match best_ratio
      else
        let b_tokens := tokens bname in
        let overlap := token_overlap station_tokens b_tokens in
        let ratio := similar station_name bname in
        if (1 <=? overlap) && BusData.Qlt_bool ratio_060 ratio
        then
          if BusData.Qlt_bool best_ratio ratio
          then match_loop station_name station_tokens rest (Some bname) ratio
          else match_loop station_name station_tokens rest best_match best_ratio
        else if BusData.Qlt_bool best_ratio ratio
                && BusData.Qlt_bool ratio_078 ratio
        then match_loop station_name station_tokens rest (Some bname) ratio
        else match_loop station_name station_tokens rest best_match best_ratio
  end.

Definition find_match (station_name : string) (bus_stop_names : list string)
  : option string * Q :=
  match_loop station_name (tokens station_name) bus_stop_names None 0%Q.

(** A row of [rail_usage] with its name.  The name is never missing at
    this point (rows without a mapped name were dropped, or the name is
    [str(stop_id)]), so [station_name] is [STATION_NAME]. *)
Record rail_station : Type := {
  STOP_ID : RailUsage.cell;
  AVG_BOARDINGS : Q;
  STATION_NAME : string
}.

(** An entry of [rail_locations]. *)
Record rail_location : Type := {
  loc_STOP_ID : RailUsage.cell;
  loc_STATION_NAME : string;
  RAIL_BOARDINGS : Q;
  LAT : Q;
  LON : Q;
  MATCHED_STOP : string;
  MATCH_SCORE : Q
}.

(** The body of the loop over [rail_usage]: an entry when there is a best
    match, nothing otherwise.  [match_row] is the row of the matched name in
    [bus_stop_agg]. *)
Definition locate_station (agg : list BusData.stop_agg) (row : rail_station)
  : list rail_location :=
  match find_match (STATION_NAME row) (map BusData.agg_STOP agg) with
  | (Some best_match, best_ratio) =>
      match
        find (fun a => String.eqb (BusData.agg_STOP a) best_match) agg
      with
      | Some match_row =>
          [{| loc_STOP_ID := STOP_ID row;
              loc_STATION_NAME := STATION_NAME row;
              RAIL_BOARDINGS := AVG_BOARDINGS row;
              LAT := BusData.agg_LAT match_row;
              LON := BusData.agg_LON match_row;
              MATCHED_STOP := best_match;
              MATCH_SCORE := best_ratio |}]
      | None => []
      end
  | (None, _) => []
  end.

Definition locate (rail_usage : list rail_station)
  (bus_df : list BusData.bus_row) : list rail_location :=
  flat_map (locate_station (BusData.bus_stop_agg bus_df)) rail_usage.


(** *** Which bus stop is kept for a station *)

(** The two names share a token, case folded. *)
Definition shares_token (station_name bname : string) : Prop :=
  exists t, In t (map lower (tokens station_name))
            /\ In t (map lower (tokens bname)).

(** A bus stop name is an accepted candidate for a station name. *)
Definition accepted (station_name bname : string) : Prop :=
  (shares_token station_name bname
   /\ (ratio_060 < similar station_name bname)%Q)
  \/ (ratio_078 < similar station_name bname)%Q.

Definition acceptedb (station_name bname : string) : bool :=
  ((1 <=? token_overlap (tokens station_name) (tokens bname))
   && BusData.Qlt_bool ratio_060 (similar station_name bname))
  || BusData.Qlt_bool ratio_078 (similar station_name bname).

Lemma tokens_length (name t : string) :
  In t (tokens name) -> 1 < String.length t.
Proof.
  unfold tokens. rewrite filter_In. intros [_ H]. now apply Nat.ltb_lt.
Qed.

Lemma token_overlap_shares (station_name bname : string) :
  1 <= token_overlap (tokens station_name) (tokens bname)
  <-> shares_token station_name bname.
Proof.
  unfold token_overlap, shares_token.
  set (st := map lower (tokens station_name)).
  set (bt := map lower (tokens bname)).
  split.
  - intros H.
    destruct (filter (fun t => existsb (String.eqb t) bt) (unique String.eqb st))
      as [|t l] eqn:E; [simpl in H; lia|].
    assert (Ht : In t (filter (fun t => existsb (String.eqb t) bt)
                         (unique String.eqb st))) by (rewrite E; now left).
    apply filter_In in Ht. destruct Ht as [H1 H2].
    apply (proj1 (unique_in String.eqb String.eqb_eq _ _)) in H1.
    apply existsb_exists in H2. destruct H2 as (t' & H2 & H3).
    apply String.eqb_eq in H3. subst t'. exists t. split; assumption.
  - intros (t & H1 & H2).
    assert (Ht : In t (filter (fun t => existsb (String.eqb t) bt)
                         (unique String.eqb st))).
    { apply filter_In. split.
      - now apply (proj2 (unique_in String.eqb String.eqb_eq _ _)).
      - apply existsb_exists. exists t. split; [assumption|].
        apply String.eqb_refl. }
    destruct (filter _ _); [destruct Ht|simpl; lia].
Qed.

Lemma acceptedb_iff (station_name bname : string) :
  acceptedb station_name bname = true <-> accepted station_name bname.
Proof.
  unfold acceptedb, accepted.
  rewrite orb_true_iff, andb_true_iff, !BusData.Qlt_bool_iff, Nat.leb_le.
  now rewrite token_overlap_shares.
Qed.

(** One turn of the loop either keeps the best match or replaces it. *)
Lemma match_loop_cons (station_name bname : string) (rest : list string)
  (best_match : option string) (best_ratio : Q) :
  match_loop station_name (tokens station_name) (bname :: rest)
    best_match best_ratio
  = if negb (String.eqb bname "") && acceptedb station_name bname
       && BusData.Qlt_bool best_ratio (similar station_name bname)
    then match_loop station_name (tokens station_name) rest
           (Some bname) (similar station_name bname)
    else match_loop station_name (tokens station_name) rest
           best_match best_ratio.
Proof.
  cbn [match_loop]. unfold acceptedb.
  destruct (String.eqb bname ""); [reflexivity|]. cbn [negb andb].
  destruct ((1 <=? token_overlap (tokens station_name) (tokens bname))
            && BusData.Qlt_bool ratio_060 (similar station_name bname)).
  - reflexivity.
  - cbn [orb].
    destruct (BusData.Qlt_bool best_ratio (similar station_name bname)),
      (BusData.Qlt_bool ratio_078 (similar station_name bname)); reflexivity.
Qed.

(** The candidates the loop looks at: accepted, with a non-empty name. *)
Definition eligible (station_name bname : string) : Prop :=
  bname <> "" /\ accepted station_name bname.

Lemma eligible_iff (station_name bname : string) :
  negb (String.eqb bname "") && acceptedb station_name bname = true
  <-> eligible station_name bname.
Proof.
  unfold eligible.
  rewrite andb_true_iff, negb_true_iff, String.eqb_neq, acceptedb_iff.
  reflexivity.
Qed.

(** What the loop returns when it starts from a given best match. *)
Inductive loop_result (station_name : string) (names : list string)
  (best_match : option string) (best_ratio : Q) : option string * Q -> Prop :=
| Kept :
    (forall b, In b names -> eligible station_name b ->
               (similar station_name b <= best_ratio)%Q) ->
    loop_result station_name names best_match best_ratio
      (best_match, best_ratio)
| Replaced (pre post : list string) (b : string) :
    names = pre ++ b :: post ->
    eligible station_name b ->
    (best_ratio < similar station_name b)%Q ->
    (forall b', In b' pre -> eligible station_name b' ->
                (similar station_name b' < similar station_name b)%Q) ->
    (forall b', In b' post -> eligible station_name b' ->
                (similar station_name b' <= similar station_name b)%Q) ->
    loop_result station_name names best_match best_ratio
      (Some b, similar station_name b).

Lemma match_loop_result (station_name : string) (names : list string) :
  forall best_match best_ratio,
    loop_result station_name names best_match best_ratio
      (match_loop station_name (tokens station_name) names
         best_match best_ratio).
Proof.
  induction names as [|n rest IH]; intros best_match best_ratio.
  - apply Kept. intros b [].
  - rewrite match_loop_cons.
    destruct (negb (String.eqb n "") && acceptedb station_name n) eqn:El;
      cbn [andb].
    + apply eligible_iff in El.
      destruct (BusData.Qlt_bool best_ratio (similar station_name n)) eqn:Lt.
      * apply BusData.Qlt_bool_iff in Lt.
        destruct (IH (Some n) (similar station_name n))
          as [Hle|pre post b -> Hb Hlt Hpre Hpost].
        -- apply (Replaced _ _ _ _ [] rest n); auto. intros b' [].
        -- apply (Replaced _ _ _ _ (n :: pre) post b); auto.
           ++ now apply Qlt_trans with (similar station_name n).
           ++ intros b' [<-|Hb']; auto.
      * assert (Hn : (similar station_name n <= best_ratio)%Q).
        { apply Qnot_lt_le. intros L. apply BusData.Qlt_bool_iff in L.
          congruence. }
        destruct (IH best_match best_ratio)
          as [Hle|pre post b -> Hb Hlt Hpre Hpost].
        -- apply Kept. intros b [<-|Hb]; auto.
        -- apply (Replaced _ _ _ _ (n :: pre) post b); auto.
           intros b' [<-|Hb']; auto.
           intros _. now apply Qle_lt_trans with best_ratio.
    + assert (Hn : ~ eligible station_name n).
      { intros H. apply eligible_iff in H. congruence. }
      destruct (IH best_match best_ratio)
        as [Hle|pre post b -> Hb Hlt Hpre Hpost].
      * apply Kept. intros b [<-|Hb]; [tauto|auto].
      * apply (Replaced _ _ _ _ (n :: pre) post b); auto.
        intros b' [<-|Hb']; [tauto|auto].
Qed.

Lemma accepted_positive (station_name bname : string) :
  accepted station_name bname -> (0 < similar station_name bname)%Q.
Proof.
  intros [[_ H]|H]; (eapply Qlt_trans; [|exact H]); reflexivity.
Qed.

(** Only the pair of two empty names is accepted with an empty bus stop
    name. *)
Lemma accepted_nonempty (station_name bname : string) (names : list string) :
  station_name <> "" \/ ~ In "" names ->
  In bname names -> accepted station_name bname -> bname <> "".
Proof.
  intros [Hs|Hn] Hin Hacc ->; [|tauto].
  apply accepted_positive in Hacc.
  rewrite (similar_empty_r _ Hs) in Hacc. discriminate.
Qed.

(** *** Tokens, in the words of the specification

    "Tokenize its name by splitting on non-alphanumeric characters and
    discarding tokens of length <= 1": the tokens of a name are its maximal
    runs of letters and digits that have more than one character. *)

(** Every character of the string satisfies [p]. *)
Fixpoint string_forall (p : ascii -> bool) (s : string) : bool :=
  match s with
  | EmptyString => true
  | String c rest => p c && string_forall p rest
  end.

Definition first_char (s : string) : option ascii :=
  match s with
  | EmptyString => None
  | String c _ => Some c
  end.

Fixpoint last_char (s : string) : option ascii :=
  match s with
  | EmptyString => None
  | String c rest =>
      match last_char rest with
      | None => Some c
      | Some d => Some d
      end
  end.

(** The character next to a run, if there is one, is no letter or digit. *)
Definition apart (c : option ascii) : bool :=
  match c with
  | None => true
  | Some c => negb (isalnum c)
  end.

(** [t] is a run of letters and digits of [name] that cannot be extended:
    [name] is [before ++ t ++ after] and neither the last character of
    [before] nor the first one of [after] is a letter or a digit. *)
Definition maximal_run (name t : string) : Prop :=
  string_forall isalnum t = true /\ t <> ""
  /\ exists before after,
      name = String.append before (String.append t after)
      /\ apart (last_char before) = true
      /\ apart (first_char after) = true.

Definition spec_token (name t : string) : Prop :=
  maximal_run name t /\ 1 < String.length t.

(** The text is ASCII: the bytes of the model are then the characters of
    the program. *)
Definition ascii_text (s : string) : bool :=
  string_forall (fun c => nat_of_ascii c <? 128) s.

Lemma str_app_nil_r (s : string) : String.append s "" = s.
Proof.
  induction s as [|c s IH]; cbn [String.append]; [reflexivity|].
  now rewrite IH.
Qed.

Lemma str_app_assoc (a b c : string) :
  String.append (String.append a b) c = String.append a (String.append b c).
Proof.
  induction a as [|x a IH]; cbn [String.append]; [reflexivity|].
  now rewrite IH.
Qed.

Lemma string_forall_app (p : ascii -> bool) (s t : string) :
  string_forall p (String.append s t)
  = string_forall p s && string_forall p t.
Proof.
  induction s as [|c s IH]; simpl; [reflexivity|].
  now rewrite IH, andb_assoc.
Qed.

Lemma isalnum_not_space (c : ascii) :
  Text.isalnum c = true -> Text.is_space c = false.
Proof.
  destruct c as [[] [] [] [] [] [] [] []]; vm_compute; congruence.
Qed.

Lemma last_char_cons (c : ascii) (s : string) :
  s <> "" -> last_char (String c s) = last_char s.
Proof.
  intros Hs. cbn [last_char]. destruct s as [|d s]; [congruence|].
  cbn [last_char]. now destruct (last_char s).
Qed.

(** The runs that [split] yields on the spaced name, when it starts with
    the letters and digits [cur] already read: the run that continues
    [cur], and the maximal runs that start after a separator. *)
Lemma split_loop_spec (name : string) :
  forall cur t,
    string_forall isalnum cur = true ->
    (In t (split_loop (spaced name) cur)
     <-> t <> ""
         /\ ((exists r after,
                t = String.append cur r
                /\ name = String.append r after
                /\ string_forall isalnum r = true
                /\ apart (first_char after) = true)
             \/ (string_forall isalnum t = true
                 /\ exists before after,
                     name = String.append before (String.append t after)
                     /\ before <> ""
                     /\ apart (last_char before) = true
                     /\ apart (first_char after) = true))).
Proof.
  induction name as [|c rest IH]; intros cur t Hcur.
  - cbn [spaced split_loop]. split.
    + destruct (String.eqb_spec cur "") as [->|Hne]; [intros []|].
      intros [<-|[]]. split; [assumption|]. left. exists "", "".
      now rewrite str_app_nil_r.
    + intros (Ht & [(r & after & -> & Hn & _)|(_ & before & after & Hn & Hb & _)]).
      * destruct r; [|discriminate]. rewrite str_app_nil_r in *.
        destruct (String.eqb_spec cur ""); [congruence|now left].
      * destruct before; [congruence|discriminate].
  - cbn [spaced split_loop]. destruct (isalnum c) eqn:Ec.
    + rewrite (isalnum_not_space c Ec).
      assert (Hcur' : string_forall isalnum (String.append cur (String c ""))
                      = true).
      { rewrite string_forall_app, Hcur. cbn [string_forall]. now rewrite Ec. }
      rewrite (IH _ t Hcur'). split.
      * intros (Ht & [(r & after & -> & -> & Hr & Ha)|(Halt & before & after & -> & Hb & Hl & Ha)]).
        -- split; [assumption|]. left. exists (String c r), after.
           rewrite str_app_assoc. cbn [String.append string_forall].
           now rewrite Ec, Hr.
        -- split; [assumption|]. right. split; [assumption|].
           exists (String c before), after. cbn [String.append].
           split; [reflexivity|]. split; [discriminate|].
           now rewrite (last_char_cons c before Hb).
      * intros (Ht & [(r & after & -> & Hn & Hr & Ha)|(Halt & before & after & Hn & Hb & Hl & Ha)]).
        -- split; [assumption|]. left. destruct r as [|c' r].
           ++ cbn [String.append] in Hn. subst after.
              cbn [first_char apart] in Ha. rewrite Ec in Ha. discriminate.
           ++ cbn [String.append] in Hn. injection Hn as <- ->.
              cbn [string_forall] in Hr. apply andb_true_iff in Hr.
              exists r, after. rewrite str_app_assoc. cbn [String.append].
              tauto.
        -- split; [assumption|]. right. split; [assumption|].
           destruct before as [|c' before]; [congruence|].
           cbn [String.append] in Hn. injection Hn as <- ->.
           destruct before as [|d before].
           ++ cbn [last_char apart] in Hl. rewrite Ec in Hl. discriminate.
           ++ exists (String d before), after. split; [reflexivity|].
              split; [discriminate|].
              rewrite last_char_cons in Hl by discriminate. tauto.
    + change (Text.is_space " "%char) with true. cbv iota.
      rewrite in_app_iff, (IH "" t eq_refl). split.
      * intros [Hin|(Ht & [(r & after & -> & -> & Hr & Ha)|(Halt & before & after & -> & Hb & Hl & Ha)])].
        -- destruct (String.eqb_spec cur "") as [->|Hne]; [destruct Hin|].
           destruct Hin as [<-|[]]. split; [assumption|]. left.
           exists "", (String c rest). rewrite str_app_nil_r.
           cbn [String.append string_forall first_char apart].
           now rewrite Ec.
        -- cbn [String.append] in Ht |- *. split; [assumption|]. right.
           split; [assumption|]. exists (String c ""), after.
           cbn [String.append last_char apart]. rewrite Ec.
           split; [reflexivity|]. split; [discriminate|]. tauto.
        -- split; [assumption|]. right. split; [assumption|].
           exists (String c before), after. cbn [String.append].
           split; [reflexivity|]. split; [discriminate|].
           now rewrite (last_char_cons c before Hb).
      * intros (Ht & [(r & after & -> & Hn & Hr & Ha)|(Halt & before & after & Hn & Hb & Hl & Ha)]).
        -- left. destruct r as [|c' r].
           ++ rewrite str_app_nil_r in *.
              destruct (String.eqb_spec cur ""); [congruence|now left].
           ++ cbn [String.append] in Hn. injection Hn as <- ->.
              cbn [string_forall] in Hr. rewrite Ec in Hr. discriminate.
        -- right. split; [assumption|].
           destruct before as [|c' before]; [congruence|].
           cbn [String.append] in Hn. injection Hn as <- ->.
           destruct before as [|d before].
           ++ left. exists t, after. cbn [String.append]. tauto.
           ++ right. split; [assumption|].
              exists (String d before), after. split; [reflexivity|].
              split; [discriminate|].
              rewrite last_char_cons in Hl by discriminate. tauto.
Qed.

(** The tokens of the program are the tokens of the specification. *)
Lemma tokens_spec (name t : string) :
  In t (tokens name) <-> spec_token name t.
Proof.
  unfold tokens, split, spec_token, maximal_run.
  rewrite filter_In, Nat.ltb_lt, (split_loop_spec name "" t eq_refl). split.
  - intros [(Ht & [(r & after & -> & -> & Hr & Ha)|(Halt & before & after & -> & _ & Hl & Ha)]) Hlen];
      cbn [String.append] in *.
    + split; [|assumption]. split; [assumption|]. split; [assumption|].
      exists "", after. cbn [String.append last_char apart]. tauto.
    + split; [|assumption]. split; [assumption|]. split; [assumption|].
      exists before, after. tauto.
  - intros [(Halt & Ht & before & after & -> & Hl & Ha) Hlen].
    split; [|assumption]. split; [assumption|].
    destruct before as [|c before].
    + left. exists t, after. cbn [String.append]. tauto.
    + right. split; [assumption|]. exists (String c before), after.
      split; [reflexivity|]. split; [discriminate|]. tauto.
Qed.

(** Names on which the two parts of the rule can be told apart. *)
Example tokens_split_on_separators :
  tokens "King St-Old Town" = ["King"; "St"; "Old"; "Town"]
  /\ tokens "Mt Vernon Sq/7th St" = ["Mt"; "Vernon"; "Sq"; "7th"; "St"]
  /\ tokens "L'Enfant Plaza" = ["Enfant"; "Plaza"]
  /\ tokens "U Street" = ["Street"]
  /\ tokens "--" = [].
Proof. repeat split. Qed.

Example accepted_for_a_shared_token :
  acceptedb "Pentagon City" "Pentagon" = true
  /\ similar "Pentagon City" "Pentagon" = Qmake 16 21
  /\ acceptedb "Metro Center" "Metro-Ctr" = true
  /\ similar "Metro Center" "Metro-Ctr" = Qmake 16 21.
Proof. vm_compute. repeat split. Qed.

Example refused_without_a_shared_token :
  acceptedb "Wheaton" "Wheatly" = false
  /\ similar "Wheaton" "Wheatly" = Qmake 10 14
  /\ acceptedb "U Street" "U St" = false
  /\ similar "U Street" "U St" = Qmake 8 12
  /\ acceptedb "Court House" "House of Pizza" = false
  /\ similar "Court House" "House of Pizza" = Qmake 10 25.
Proof. vm_compute. repeat split. Qed.

Example accepted_for_the_similarity_alone :
  acceptedb "Takoma" "Tacoma" = true
  /\ token_overlap (tokens "Takoma") (tokens "Tacoma") = 0
  /\ similar "Takoma" "Tacoma" = Qmake 10 12.
Proof. vm_compute. repeat split. Qed.

(** C2: a bus stop name is an accepted candidate for a station exactly when
    the two names share a token of length above 1 (case folded) and the
    similarity is above 0.6, or the similarity is above 0.78; the tokens of
    a name are its maximal runs of letters and digits that have more than
    one character (for "Metro-Ctr": Metro and Ctr; for "U St": St alone), so
    that "Pentagon City" accepts "Pentagon" and "Metro Center" accepts
    "Metro-Ctr" at similarity 16/21 for their shared token, "Wheaton"
    refuses "Wheatly" (10/14) and "U Street" refuses "U St" (8/12) for want
    of one, and "Takoma" accepts "Tacoma" (10/12) on the similarity alone;
    the loop keeps no match exactly when no name is accepted, and otherwise
    keeps the accepted name of highest similarity, the first such name in
    the order of the bus stop names.  (A station has a non-empty name, as
    have the bus stops.) *)
Theorem best_match_is_first_best_accepted (station_name : string)
  (names : list string) :
  station_name <> "" \/ ~ In "" names ->
  (forall bname, acceptedb station_name bname = true
                 <-> (shares_token station_name bname
                      /\ (Qmake 6 10 < similar station_name bname)%Q)
                     \/ (Qmake 78 100 < similar station_name bname)%Q)
  /\ (forall name t, In t (tokens name) -> 1 < String.length t)
  /\ (forall name t, ascii_text name = true ->
        (In t (tokens name) <-> spec_token name t))
  /\ (forall bname,
        shares_token station_name bname
        <-> exists t u, spec_token station_name t /\ spec_token bname u
                        /\ lower t = lower u)
  /\ (tokens "King St-Old Town" = ["King"; "St"; "Old"; "Town"]
      /\ tokens "L'Enfant Plaza" = ["Enfant"; "Plaza"]
      /\ tokens "Metro-Ctr" = ["Metro"; "Ctr"]
      /\ tokens "U St" = ["St"])
  /\ (acceptedb "Pentagon City" "Pentagon" = true
      /\ acceptedb "Metro Center" "Metro-Ctr" = true
      /\ (similar "Metro Center" "Metro-Ctr" <= Qmake 78 100)%Q
      /\ acceptedb "Wheaton" "Wheatly" = false
      /\ (Qmake 6 10 < similar "Wheaton" "Wheatly")%Q
      /\ acceptedb "U Street" "U St" = false
      /\ (Qmake 6 10 < similar "U Street" "U St")%Q
      /\ acceptedb "Court House" "House of Pizza" = false
      /\ acceptedb "Takoma" "Tacoma" = true
      /\ token_overlap (tokens "Takoma") (tokens "Tacoma") = 0)
  /\ match find_match station_name names with
     | (None, _) => forall b, In b names -> ~ accepted station_name b
     | (Some b, score) =>
         score = similar station_name b
         /\ accepted station_name b
         /\ exists pre post,
             names = pre ++ b :: post
             /\ (forall b', In b' pre -> accepted station_name b' ->
                   (similar station_name b' < similar station_name b)%Q)
             /\ (forall b', In b' post -> accepted station_name b' ->
                   (similar station_name b' <= similar station_name b)%Q)
     end.
Proof.
  intros Hne. split; [exact (acceptedb_iff station_name)|].
  split; [exact tokens_length|].
  split; [intros name t _; apply tokens_spec|].
  split.
  { intros bname. unfold shares_token. split.
    - intros (x & Hs & Hb). apply in_map_iff in Hs, Hb.
      destruct Hs as (t & Et & Ht). destruct Hb as (u & Eu & Hu).
      exists t, u. rewrite <- !tokens_spec. repeat split; congruence.
    - intros (t & u & Ht & Hu & E). apply tokens_spec in Ht, Hu.
      exists (lower t). split; [now apply in_map|].
      rewrite E. now apply in_map. }
  split; [repeat split|].
  split; [vm_compute; repeat split; discriminate|].
  unfold find_match.
  destruct (match_loop_result station_name names None 0%Q)
    as [Hle|pre post b Hnames [Hb Hacc] Hlt Hpre Hpost].
  - intros b Hin Hacc.
    assert (El : eligible station_name b).
    { split; [|assumption]. now apply accepted_nonempty with station_name names. }
    specialize (Hle b Hin El). apply accepted_positive in Hacc.
    now apply (Qlt_not_le _ _ Hacc).
  - split; [reflexivity|]. split; [assumption|].
    exists pre, post. split; [assumption|]. split.
    + intros b' Hin Hacc'. apply Hpre; [assumption|]. split; [|assumption].
      apply accepted_nonempty with station_name names; auto.
      rewrite Hnames. apply in_or_app. now left.
    + intros b' Hin Hacc'. apply Hpost; [assumption|]. split; [|assumption].
      apply accepted_nonempty with station_name names; auto.
      rewrite Hnames. apply in_or_app. right. now right.
Qed.

Definition union_station_names : list string :=
  ["Court House"; "Union Sta Plaza"; "Union Station NE"; "union station";
   "UNION STATION"].

Example union_station_match :
  find_match "Union Station" union_station_names
  = (Some "union station", Qmake 26 26).
Proof. vm_compute. reflexivity. Qed.

(** Bus stop names for the station Pentagon City: the best one is accepted
    for its token, at a similarity below 0.78. *)
Definition pentagon_names : list string :=
  ["Penn Quarter"; "Wheatly"; "Pentagon"; "Pentagon Mall"; "PENTAGON"].

Example pentagon_match :
  find_match "Pentagon City" pentagon_names = (Some "Pentagon", Qmake 16 21).
Proof. vm_compute. reflexivity. Qed.

Lemma pentagon_city_nonempty : "Pentagon City" <> "".
Proof. discriminate. Qed.

Lemma best_match_is_first_best_accepted_witness :
  find_match "Pentagon City" pentagon_names = (Some "Pentagon", Qmake 16 21)
  /\ (acceptedb "Pentagon City" "Pentagon" = true
      <-> (shares_token "Pentagon City" "Pentagon"
           /\ (Qmake 6 10 < similar "Pentagon City" "Pentagon")%Q)
          \/ (Qmake 78 100 < similar "Pentagon City" "Pentagon")%Q)
  /\ accepted "Pentagon City" "Pentagon"
  /\ exists pre post,
      pentagon_names = pre ++ "Pentagon" :: post
      /\ (forall b', In b' pre -> accepted "Pentagon City" b' ->
            (similar "Pentagon City" b' < similar "Pentagon City" "Pentagon")%Q)
      /\ (forall b', In b' post -> accepted "Pentagon City" b' ->
            (similar "Pentagon City" b' <= similar "Pentagon City" "Pentagon")%Q).
Proof.
  pose proof (best_match_is_first_best_accepted "Pentagon City"
                pentagon_names (or_introl pentagon_city_nonempty)) as H.
  destruct H as (Hacc & _ & _ & _ & _ & _ & H).
  rewrite pentagon_match in H. destruct H as (_ & Ha & Hex).
  split; [exact pentagon_match|]. split; [exact (Hacc "Pentagon")|].
  split; [exact Ha|exact Hex].
Defined.


(** *** The located stations *)

Lemma find_match_some (station_name : string) (names : list string)
  (b : string) (score : Q) :
  find_match station_name names = (Some b, score) ->
  In b names /\ accepted station_name b /\ score = similar station_name b.
Proof.
  unfold find_match. intros E.
  pose proof (match_loop_result station_name names None 0%Q) as H.
  rewrite E in H. inversion H as [|pre post b' Hn [_ Hacc] _ _ _]; subst.
  split; [|now split]. apply in_or_app. right. now left.
Qed.

Lemma locate_station_in (agg : list BusData.stop_agg) (row : rail_station)
  (e : rail_location) :
  In e (locate_station agg row) ->
  loc_STOP_ID e = STOP_ID row
  /\ loc_STATION_NAME e = STATION_NAME row
  /\ RAIL_BOARDINGS e = AVG_BOARDINGS row
  /\ find_match (STATION_NAME row) (map BusData.agg_STOP agg)
     = (Some (MATCHED_STOP e), MATCH_SCORE e)
  /\ exists a, In a agg /\ BusData.agg_STOP a = MATCHED_STOP e
               /\ LAT e = BusData.agg_LAT a /\ LON e = BusData.agg_LON a.
Proof.
  unfold locate_station.
  destruct (find_match (STATION_NAME row) (map BusData.agg_STOP agg))
    as [[b|] score]; [|intros []].
  destruct (find _ agg) as [a|] eqn:F; [|intros []].
  intros [<-|[]]. simpl. repeat split.
  apply find_some in F. destruct F as [Hin Hb].
  apply String.eqb_eq in Hb. exists a. now repeat split.
Qed.

Lemma locate_station_some (agg : list BusData.stop_agg) (row : rail_station)
  (b : string) (score : Q) :
  find_match (STATION_NAME row) (map BusData.agg_STOP agg) = (Some b, score) ->
  exists e, locate_station agg row = [e]
            /\ loc_STOP_ID e = STOP_ID row
            /\ loc_STATION_NAME e = STATION_NAME row
            /\ MATCHED_STOP e = b.
Proof.
  intros E. unfold locate_station. rewrite E.
  apply find_match_some in E. destruct E as [Hin _].
  apply in_map_iff in Hin. destruct Hin as (a & Ha & Hin).
  destruct (find (fun a => String.eqb (BusData.agg_STOP a) b) agg) eqn:F.
  - eexists. split; [reflexivity|]. now repeat split.
  - apply find_none with (x := a) in F; [|assumption].
    rewrite Ha, String.eqb_refl in F. discriminate.
Qed.

End Reconciler.

(** ** Bus hotspots (step 4) *)
Module Clusterer.
Import Frames.

Definition HOTSPOT_MIN_BOARDINGS : Q := 100.
Definition HOTSPOT_ROUND_DECIMALS : nat := 4.

(** A row of [bus_hotspots]. *)
Record hotspot : Type := {
  LAT_R : Q;
  LON_R : Q;
  SUM_PASSENGERS_ON : Q;
  REP_STOP : option string;
  ROUTES : string
}.

(** The grid cell of a row: [LAT_R] and [LON_R], as integers scaled by
    [10^decimals]. *)
Definition cell_key (decimals : nat) (r : BusData.bus_row) : Z * Z :=
  (round_scaled (BusData.LAT r) decimals, round_scaled (BusData.LON r) decimals).

Definition key_eqb (k1 k2 : Z * Z) : bool :=
  Z.eqb (fst k1) (fst k2) && Z.eqb (snd k1) (snd k2).

(** The order of the group keys. *)
Definition key_leb (k1 k2 : Z * Z) : bool :=
  Z.ltb (fst k1) (fst k2) || (Z.eqb (fst k1) (fst k2) && Z.leb (snd k1) (snd k2)).

Definition count_name (n : string) (names : list string) : nat :=
  List.length (filter (String.eqb n) names).

Definition max_count (names : list string) : nat :=
  fold_right Nat.max 0 (map (fun n => count_name n names) names).

(** [x.mode()]: the most frequent values, sorted. *)
Definition mode (names : list string) : list string :=
  sort_on String.leb
    (filter (fun n => count_name n names =? max_count names)
       (unique String.eqb names)).

(** The stop names of a group that are not missing ([mode] drops NaN). *)
Definition present_names (group : list BusData.bus_row) : list string :=
  flat_map (fun r => match BusData.STOP r with Some n => [n] | None => [] end)
    group.

(** [lambda x: x.mode().iat[0] if not x.mode().empty else x.iloc[0]] *)
Definition representative (group : list BusData.bus_row) : option string :=
  match mode (present_names group) with
  | m :: _ => Some m
  | [] =>
      match group with
      | r :: _ => BusData.STOP r
      | [] => None
      end
  end.

(** [lambda x: ', '.join(pd.unique(x.astype(str))[:5])] *)
Definition routes (group : list BusData.bus_row) : string :=
  String.concat ", "
    (firstn 5 (unique String.eqb (map BusData.ROUTE_NAME group))).

Definition aggregate_cell (decimals : nat) (g : (Z * Z) * list BusData.bus_row)
  : hotspot :=
  {| LAT_R := unscale (fst (fst g)) decimals;
     LON_R := unscale (snd (fst g)) decimals;
     SUM_PASSENGERS_ON :=
       Qsum (BusData.present (map BusData.SUM_PASSENGERS_ON (snd g)));
     REP_STOP := representative (snd g);
     ROUTES := routes (snd g) |}.

(** [bus_df.groupby(['LAT_R', 'LON_R']).agg(...)], in the order of the keys. *)
Definition cells (bus_df : list BusData.bus_row) (decimals : nat)
  : list ((Z * Z) * list BusData.bus_row) :=
  sort_on (fun g1 g2 => key_leb (fst g1) (fst g2))
    (group_by key_eqb (map (fun r => (cell_key decimals r, r)) bus_df)).

(** [agg[agg['SUM_PASSENGERS_ON'] >= min_boardings]] *)
Definition cluster (bus_df : list BusData.bus_row) (decimals : nat)
  (min_boardings : Q) : list hotspot :=
  filter (fun h => Qle_bool min_boardings (SUM_PASSENGERS_ON h))
    (map (aggregate_cell decimals) (cells bus_df decimals)).

Definition bus_hotspots (bus_df : list BusData.bus_row) : list hotspot :=
  cluster bus_df HOTSPOT_ROUND_DECIMALS HOTSPOT_MIN_BOARDINGS.


(** *** What a hotspot holds *)

(** The rows of a grid cell, in row order. *)
Definition rows_in (bus_df : list BusData.bus_row) (decimals : nat)
  (k : Z * Z) : list BusData.bus_row :=
  filter (fun r => key_eqb (cell_key decimals r) k) bus_df.

Definition boardings_sum (rows : list BusData.bus_row) : Q :=
  Qsum (BusData.present (map BusData.SUM_PASSENGERS_ON rows)).

(** [rep] is a most frequent stop name of the rows and, among the most
    frequent ones, the least in the order of strings; it is missing only
    when every stop name is. *)
Definition is_representative (rows : list BusData.bus_row)
  (rep : option string) : Prop :=
  let names := present_names rows in
  match rep with
  | Some n =>
      In n names
      /\ forall n', In n' names ->
           count_name n' names <= count_name n names
           /\ (count_name n' names = count_name n names ->
               String.leb n n' = true)
  | None => names = []
  end.

Lemma key_eqb_eq (k1 k2 : Z * Z) : key_eqb k1 k2 = true <-> k1 = k2.
Proof.
  destruct k1 as [a b], k2 as [c d]. unfold key_eqb. simpl.
  rewrite andb_true_iff, !Z.eqb_eq. split.
  - now intros [-> ->].
  - now intros [= -> ->].
Qed.

Lemma max_upper (l : list nat) (x : nat) :
  In x l -> x <= fold_right Nat.max 0 l.
Proof.
  induction l as [|y l IH]; simpl; [intros []|].
  intros [->|H]; [lia|]. specialize (IH H). lia.
Qed.

Lemma max_attained (l : list nat) :
  l <> [] -> In (fold_right Nat.max 0 l) l.
Proof.
  induction l as [|y l IH]; [congruence|]. intros _. simpl.
  destruct l as [|z l].
  - left. simpl. lia.
  - specialize (IH ltac:(discriminate)).
    destruct (Nat.max_spec y (fold_right Nat.max 0 (z :: l))) as [[_ E]|[_ E]];
      rewrite E; [now right|now left].
Qed.

Lemma count_le_max (names : list string) (n : string) :
  In n names -> count_name n names <= max_count names.
Proof.
  intros H. apply max_upper. apply in_map_iff. now exists n.
Qed.

Lemma mode_nonempty (names : list string) :
  names <> [] -> mode names <> [].
Proof.
  intros Hne Hm.
  assert (Hmax : In (max_count names)
                   (map (fun n => count_name n names) names)).
  { apply max_attained. destruct names; [congruence|discriminate]. }
  apply in_map_iff in Hmax. destruct Hmax as (n & Hc & Hn).
  assert (Hin : In n (mode names)).
  { unfold mode. apply sort_on_in. apply filter_In. split.
    - now apply (proj2 (unique_in String.eqb String.eqb_eq _ _)).
    - now apply Nat.eqb_eq. }
  rewrite Hm in Hin. destruct Hin.
Qed.

Lemma representative_spec (group : list BusData.bus_row) :
  is_representative group (representative group).
Proof.
  unfold representative, is_representative.
  destruct (mode (present_names group)) as [|m rest] eqn:Em.
  - assert (Hn : present_names group = []).
    { destruct (present_names group) eqn:E; [reflexivity|].
      exfalso. apply (mode_nonempty (s :: l)); [discriminate|assumption]. }
    destruct group as [|r group]; [reflexivity|].
    destruct (BusData.STOP r) eqn:Er; [|exact Hn].
    unfold present_names in Hn. simpl in Hn. rewrite Er in Hn. discriminate.
  - unfold mode in Em.
    apply (sort_on_head String.leb String.leb_total Text.leb_trans) in Em.
    destruct Em as [Hm Hmin].
    apply filter_In in Hm. destruct Hm as [Hm Hc].
    apply (proj1 (unique_in String.eqb String.eqb_eq _ _)) in Hm.
    apply Nat.eqb_eq in Hc.
    split; [assumption|]. intros n' Hn'. split.
    + rewrite Hc. now apply count_le_max.
    + intros Heq.
      destruct (Hmin n') as [->|H]; [|apply Text.leb_refl|assumption].
      apply filter_In. split.
      * now apply (proj2 (unique_in String.eqb String.eqb_eq _ _)).
      * apply Nat.eqb_eq. congruence.
Qed.

Lemma cells_in (bus_df : list BusData.bus_row) (decimals : nat)
  (k : Z * Z) (vs : list BusData.bus_row) :
  In (k, vs) (cells bus_df decimals)
  <-> vs = rows_in bus_df decimals k /\ vs <> [].
Proof.
  unfold cells. rewrite sort_on_in, (group_by_in key_eqb key_eqb_eq).
  now rewrite values_of_keyed.
Qed.

Lemma cells_nodup (bus_df : list BusData.bus_row) (decimals : nat) :
  NoDup (map fst (cells bus_df decimals)).
Proof.
  unfold cells.
  eapply Permutation_NoDup;
    [|apply (group_by_nodup key_eqb key_eqb_eq
               (map (fun r => (cell_key decimals r, r)) bus_df))].
  apply Permutation_map. symmetry. apply sort_on_perm.
Qed.

Lemma filter_map_swap {A B : Type} (f : A -> B) (p : B -> bool) (l : list A) :
  filter p (map f l) = map f (filter (fun x => p (f x)) l).
Proof.
  induction l as [|x l IH]; simpl; [reflexivity|].
  destruct (p (f x)); simpl; now rewrite IH.
Qed.

Lemma nodup_keys_filter {A B : Type} (p : A * B -> bool) (l : list (A * B)) :
  NoDup (map fst l) -> NoDup (map fst (filter p l)).
Proof.
  induction l as [|x l IH]; simpl; [trivial|].
  intros H. inversion H as [|? ? Hx Hl]; subst.
  destruct (p x); simpl; [|now apply IH].
  constructor; [|now apply IH].
  intros Hin. apply Hx. apply in_map_iff in Hin.
  destruct Hin as (y & Hy & Hin). apply filter_In in Hin.
  apply in_map_iff. exists y. tauto.
Qed.

(** The hotspot of a grid cell. *)
Definition hotspot_of (bus_df : list BusData.bus_row) (decimals : nat)
  (k : Z * Z) (h : hotspot) : Prop :=
  let rows := rows_in bus_df decimals k in
  LAT_R h = unscale (fst k) decimals
  /\ LON_R h = unscale (snd k) decimals
  /\ SUM_PASSENGERS_ON h = boardings_sum rows
  /\ is_representative rows (REP_STOP h)
  /\ ROUTES h
     = String.concat ", "
         (firstn 5 (dedup String.eqb (map BusData.ROUTE_NAME rows))).

Definition q (n d : Z) : Q := (inject_Z n / inject_Z d)%Q.

Definition obs (name : string) (lat lon boardings : Q) (route : string)
  : BusData.bus_row :=
  {| BusData.STOP := Some name; BusData.LAT := lat; BusData.LON := lon;
     BusData.SUM_PASSENGERS_ON := Some boardings;
     BusData.ROUTE_NAME := route |}.

(** Two observations 3 m apart and a third one a kilometre away. *)
Example nearby_observations_merge :
  map (fun h => (Qred (LAT_R h), Qred (LON_R h), Qred (SUM_PASSENGERS_ON h)))
    (bus_hotspots
       [obs "7th St" (q 3890001 100000) (q (-7703001) 100000) 60 "70";
        obs "7th St" (q 3890004 100000) (q (-7703004) 100000) 70 "79";
        obs "9th St" (q 3891 100) (q (-7704) 100) 150 "70"])
  = [(Qred (q 389 10), Qred (q (-7703) 100), 130%Q);
     (Qred (q 3891 100), Qred (q (-7704) 100), 150%Q)].
Proof. vm_compute. reflexivity. Qed.

(** C7, as stated, fails on the tie-break: with two stop names that occur
    once each in a cell, the label is the one that sorts first, not the one
    met first. *)
Lemma representative_tie_is_sorted_first :
  map BusData.STOP
    [obs "Pine St" 1 1 60 "70"; obs "Oak St" 1 1 60 "70"]
  = [Some "Pine St"; Some "Oak St"]
  /\ map REP_STOP
       (bus_hotspots [obs "Pine St" 1 1 60 "70"; obs "Oak St" 1 1 60 "70"])
     = [Some "Oak St"].
Proof. vm_compute. split; reflexivity. Qed.

(** The hotspots are the grid cells that reach the minimum, each once. *)
Lemma cluster_cells (bus_df : list BusData.bus_row) (decimals : nat)
  (min_boardings : Q) :
  exists keys,
    NoDup keys
    /\ (forall k, In k keys
                  <-> rows_in bus_df decimals k <> []
                      /\ (min_boardings
                          <= boardings_sum (rows_in bus_df decimals k))%Q)
    /\ Forall2 (hotspot_of bus_df decimals) keys
         (cluster bus_df decimals min_boardings).
Proof.
  unfold cluster. rewrite filter_map_swap.
  set (keep := fun g : (Z * Z) * list BusData.bus_row =>
                 Qle_bool min_boardings
                   (SUM_PASSENGERS_ON (aggregate_cell decimals g))).
  exists (map fst (filter keep (cells bus_df decimals))).
  split; [|split].
  - apply nodup_keys_filter, cells_nodup.
  - intros k. rewrite in_map_iff. split.
    + intros ([k' vs] & <- & Hin). apply filter_In in Hin.
      destruct Hin as [Hin Hk]. apply cells_in in Hin.
      destruct Hin as [-> Hne]. simpl. split; [assumption|].
      now apply Qle_bool_iff.
    + intros [Hne Hle]. exists (k, rows_in bus_df decimals k).
      split; [reflexivity|]. apply filter_In. split.
      * now apply cells_in.
      * now apply Qle_bool_iff.
  - assert (H : Forall (fun g => snd g = rows_in bus_df decimals (fst g))
                  (filter keep (cells bus_df decimals))).
    { apply Forall_forall. intros [k vs] Hin. apply filter_In in Hin.
      destruct Hin as [Hin _]. apply cells_in in Hin. tauto. }
    induction H as [|[k vs] l Hg _ IH]; simpl; constructor; [|exact IH].
    simpl in Hg. subst vs. unfold hotspot_of, aggregate_cell.
    cbn [LAT_R LON_R SUM_PASSENGERS_ON REP_STOP ROUTES fst snd].
    split; [reflexivity|]. split; [reflexivity|]. split; [reflexivity|].
    split.
    + apply representative_spec.
    + unfold routes. now rewrite (unique_dedup String.eqb String.eqb_eq).
Qed.

(** C7 (amended): the clusterer groups the observations by latitude and
    longitude, each rounded independently to the given number of decimals;
    there is one hotspot for every grid cell that holds an observation and
    whose summed boardings reach the minimum, and no other; the hotspot has
    the rounded coordinates of the cell, the sum of the boardings of its
    observations, as label the most frequent stop name with ties broken by
    the order of strings (the least name), and the first 5 distinct route
    identifiers in first-seen order.  So the observations at
    (38.90001, -77.03001) and (38.90004, -77.03004) fall in one cell and
    give one hotspot with their boardings summed, and the observation at
    (38.91, -77.04) gives a hotspot of its own. *)
Theorem cluster_spec :
  (forall bus_df decimals min_boardings,
      exists keys,
        NoDup keys
        /\ (forall k, In k keys
                      <-> rows_in bus_df decimals k <> []
                          /\ (min_boardings
                              <= boardings_sum (rows_in bus_df decimals k))%Q)
        /\ Forall2 (hotspot_of bus_df decimals) keys
             (cluster bus_df decimals min_boardings))
  /\ (forall n1 n2 n3 b1 b2 b3 r1 r2 r3,
        let o1 := obs n1 (q 3890001 100000) (q (-7703001) 100000) b1 r1 in
        let o2 := obs n2 (q 3890004 100000) (q (-7703004) 100000) b2 r2 in
        let o3 := obs n3 (q 3891 100) (q (-7704) 100) b3 r3 in
        cell_key 4 o1 = cell_key 4 o2
        /\ cell_key 4 o3 <> cell_key 4 o1
        /\ rows_in [o1; o2; o3] 4 (cell_key 4 o1) = [o1; o2]
        /\ boardings_sum [o1; o2] = (b1 + (b2 + 0))%Q
        /\ rows_in [o1; o2; o3] 4 (cell_key 4 o3) = [o3]).
Proof.
  split; [exact cluster_cells|].
  intros. repeat split; try reflexivity. discriminate.
Qed.

End Clusterer.

(** ** Gap analysis (step 5) *)
Module GapAnalyzer.
Import Frames.

Definition CANDIDATE_MIN_BOARDINGS : Q := 500.
Definition MIN_DISTANCE_MILES : Q := 1.

(** An entry of [potential_stations].  ['Nearest_Rail'] and
    ['Distance_Miles'] hold a Python object that is [None] or a value. *)
Record candidate : Type := {
  Name : option string;
  Lat : Q;
  Lon : Q;
  Bus_Boardings : Q;
  Nearest_Rail : option string;
  Distance_Miles : option Q;
  Routes : string
}.

(** [min_dist] starts as [float('inf')], here [None]. *)
Definition lt_dist (d : Q) (min_dist : option Q) : bool :=
  match min_dist with
  | None => true
  | Some m => BusData.Qlt_bool d m
  end.

Definition gt_dist (min_dist : option Q) (x : Q) : bool :=
  match min_dist with
  | None => true
  | Some m => BusData.Qlt_bool x m
  end.

(** [sort_values('Bus_Boardings', ascending=False)] leaves the list in
    descending order of the boardings. *)
Definition descending (l : list candidate) : Prop :=
  StronglySorted
    (fun c1 c2 => Qle_bool (Bus_Boardings c2) (Bus_Boardings c1) = true) l.

Section Analysis.

(** [haversine_miles(lon1, lat1, lon2, lat2)], in miles; [None] when the
    call raises (the caller catches it). *)
Variable haversine_miles : Q -> Q -> Q -> Q -> option Q.

(** [potential_df.sort_values('Bus_Boardings', ascending=False)], with the
    sort kind pandas uses by default. *)
Variable sort_values : list candidate -> list candidate.

(** The loop over [rail_loc_df] for one hotspot. *)
Fixpoint nearest_loop (b_lon b_lat : Q) (rail_loc_df : list Reconciler.rail_location)
  (min_dist : option Q) (nearest_station : option string)
  : option Q * option string :=
  match rail_loc_df with
  | [] => (min_dist, nearest_station)
  | r :: rest =>
      match
        haversine_miles b_lon b_lat (Reconciler.LON r) (Reconciler.LAT r)
      with
      | None => nearest_loop b_lon b_lat rest min_dist nearest_station
      | Some d =>
          if lt_dist d min_dist
          then nearest_loop b_lon b_lat rest (Some d)
                 (Some (Reconciler.loc_STATION_NAME r))
          else nearest_loop b_lon b_lat rest min_dist nearest_station
      end
  end.

(** The body of the loop over [bus_hotspots]: the entry appended for the
    hotspot, if any. *)
Definition candidate_of (min_boardings min_distance : Q)
  (rail_loc_df : list Reconciler.rail_location) (b : Clusterer.hotspot)
  : list candidate :=
  let b_lat := Clusterer.LAT_R b in
  let b_lon := Clusterer.LON_R b in
  let b_board := Clusterer.SUM_PASSENGERS_ON b in
  let '(min_dist, nearest_station) :=
    nearest_loop b_lon b_lat rail_loc_df None None in
  if Qle_bool min_boardings b_board && gt_dist min_dist min_distance
  then
    [{| Name := Clusterer.REP_STOP b;
        Lat := b_lat;
        Lon := b_lon;
        Bus_Boardings := b_board;
        Nearest_Rail :=
          Some (match nearest_station with
                | Some n => n
                | None => "None"
                end);
        Distance_Miles := option_map (fun d => round_to d 2) min_dist;
        Routes := Clusterer.ROUTES b |}]
  else [].

Definition potential_stations (min_boardings min_distance : Q)
  (bus_hotspots : list Clusterer.hotspot)
  (rail_loc_df : list Reconciler.rail_location) : list candidate :=
  flat_map (candidate_of min_boardings min_distance rail_loc_df) bus_hotspots.

(** [potential_df], after the sort and [.head(50)]. *)
Definition gap_analysis (min_boardings min_distance : Q)
  (bus_hotspots : list Clusterer.hotspot)
  (rail_loc_df : list Reconciler.rail_location) : list candidate :=
  match
    potential_stations min_boardings min_distance bus_hotspots rail_loc_df
  with
  | [] => []
  | potential => firstn 50 (sort_values potential)
  end.

(** The distances that were computed for a hotspot. *)
Definition distances (b : Clusterer.hotspot)
  (rail_loc_df : list Reconciler.rail_location) : list Q :=
  flat_map (fun r =>
              match
                haversine_miles (Clusterer.LON_R b) (Clusterer.LAT_R b)
                  (Reconciler.LON r) (Reconciler.LAT r)
              with
              | Some d => [d]
              | None => []
              end) rail_loc_df.

(** [m] is the least of the distances. *)
Definition is_minimum (m : Q) (ds : list Q) : Prop :=
  In m ds /\ forall d, In d ds -> (m <= d)%Q.

Lemma nearest_loop_min (b : Clusterer.hotspot)
  (rail_loc_df : list Reconciler.rail_location) :
  forall min_dist nearest_station,
    match
      fst (nearest_loop (Clusterer.LON_R b) (Clusterer.LAT_R b) rail_loc_df
             min_dist nearest_station)
    with
    | None => min_dist = None /\ distances b rail_loc_df = []
    | Some m =>
        (min_dist = Some m \/ In m (distances b rail_loc_df))
        /\ (forall d, In d (distances b rail_loc_df) -> (m <= d)%Q)
        /\ (forall i, min_dist = Some i -> (m <= i)%Q)
    end.
Proof.
  unfold distances.
  induction rail_loc_df as [|r rest IH]; intros min_dist nearest_station;
    cbn [nearest_loop flat_map].
  - destruct min_dist as [m|]; simpl.
    + split; [now left|]. split; [intros d []|].
      intros i [= <-]. apply Qle_refl.
    + now split.
  - destruct (haversine_miles (Clusterer.LON_R b) (Clusterer.LAT_R b)
                (Reconciler.LON r) (Reconciler.LAT r)) as [d|];
      [|apply IH].
    destruct (lt_dist d min_dist) eqn:E.
    + specialize (IH (Some d) (Some (Reconciler.loc_STATION_NAME r))).
      destruct (fst (nearest_loop _ _ rest (Some d) _)) as [m|].
      * destruct IH as (H1 & H2 & H3). specialize (H3 d eq_refl).
        split; [|split].
        -- right. destruct H1 as [[= <-]|H1]; [now left|].
           apply in_or_app. now right.
        -- intros d' [<-|Hd']; auto.
        -- intros i ->. simpl in E. apply BusData.Qlt_bool_iff in E.
           apply Qle_trans with d; [assumption|now apply Qlt_le_weak].
      * destruct IH as [[=] _].
    + specialize (IH min_dist nearest_station).
      destruct min_dist as [i|]; [|discriminate]. simpl in E.
      assert (Hid : (i <= d)%Q).
      { apply Qnot_lt_le. intros L. apply BusData.Qlt_bool_iff in L.
        congruence. }
      destruct (fst (nearest_loop _ _ rest (Some i) _)) as [m|].
      * destruct IH as (H1 & H2 & H3). specialize (H3 i eq_refl).
        split; [|split].
        -- destruct H1 as [H1|H1]; [now left|right].
           apply in_or_app. now right.
        -- intros d' [<-|Hd']; auto. now apply Qle_trans with i.
        -- intros i' [= <-]. assumption.
      * destruct IH as [[=] _].
Qed.

(** The name kept with the distance is that of a located station. *)
Lemma nearest_loop_name (b_lon b_lat : Q)
  (rail_loc_df : list Reconciler.rail_location) :
  forall min_dist nearest_station,
    let res := snd (nearest_loop b_lon b_lat rail_loc_df min_dist nearest_station) in
    res = nearest_station
    \/ exists r, In r rail_loc_df /\ res = Some (Reconciler.loc_STATION_NAME r).
Proof.
  induction rail_loc_df as [|r rest IH]; intros min_dist nearest_station;
    cbn [nearest_loop].
  - now left.
  - destruct (haversine_miles b_lon b_lat (Reconciler.LON r) (Reconciler.LAT r))
      as [d|].
    + destruct (lt_dist d min_dist).
      * destruct (IH (Some d) (Some (Reconciler.loc_STATION_NAME r)))
          as [H|(r' & Hr' & H)].
        -- right. exists r. split; [now left|exact H].
        -- right. exists r'. split; [now right|exact H].
      * destruct (IH min_dist nearest_station) as [H|(r' & Hr' & H)].
        -- now left.
        -- right. exists r'. split; [now right|exact H].
    + destruct (IH min_dist nearest_station) as [H|(r' & Hr' & H)].
      * now left.
      * right. exists r'. split; [now right|exact H].
Qed.



(** The distance and the name are set together. *)
Lemma nearest_loop_sync (b_lon b_lat : Q)
  (rail_loc_df : list Reconciler.rail_location) :
  forall min_dist nearest_station,
    (nearest_station = None -> min_dist = None) ->
    snd (nearest_loop b_lon b_lat rail_loc_df min_dist nearest_station) = None ->
    fst (nearest_loop b_lon b_lat rail_loc_df min_dist nearest_station) = None.
Proof.
  induction rail_loc_df as [|r rest IH]; intros min_dist nearest_station Hs;
    cbn [nearest_loop].
  - exact Hs.
  - destruct (haversine_miles b_lon b_lat (Reconciler.LON r) (Reconciler.LAT r))
      as [d|]; [|now apply IH].
    destruct (lt_dist d min_dist); apply IH; [discriminate|assumption].
Qed.

(** The nearest-rail name of a candidate is the placeholder, with no
    distance, or the name of a located station. *)
Lemma candidate_nearest_rail (min_boardings min_distance : Q)
  (bus_hotspots : list Clusterer.hotspot)
  (rail_loc_df : list Reconciler.rail_location) (c : candidate) :
  In c (potential_stations min_boardings min_distance bus_hotspots rail_loc_df) ->
  (Nearest_Rail c = Some "None" /\ Distance_Miles c = None)
  \/ exists e, In e rail_loc_df
               /\ Nearest_Rail c = Some (Reconciler.loc_STATION_NAME e).
Proof.
  unfold potential_stations. rewrite in_flat_map.
  intros (b & _ & Hc). unfold candidate_of in Hc.
  pose proof (nearest_loop_name (Clusterer.LON_R b) (Clusterer.LAT_R b)
                rail_loc_df None None) as Hname.
  pose proof (nearest_loop_sync (Clusterer.LON_R b) (Clusterer.LAT_R b)
                rail_loc_df None None (fun _ => eq_refl)) as Hsync.
  destruct (nearest_loop _ _ rail_loc_df None None) as [md ns].
  cbn [fst snd] in *.
  destruct (Qle_bool _ _ && gt_dist md min_distance); [|destruct Hc].
  destruct Hc as [<-|[]]. cbn [Nearest_Rail Distance_Miles].
  destruct Hname as [->|(e & He & ->)].
  - left. rewrite (Hsync eq_refl). now split.
  - right. now exists e.
Qed.

(** *** When a hotspot becomes a candidate *)

Lemma candidate_of_entry (min_boardings min_distance : Q)
  (rail_loc_df : list Reconciler.rail_location) (b : Clusterer.hotspot) :
  candidate_of min_boardings min_distance rail_loc_df b = []
  \/ exists c,
      candidate_of min_boardings min_distance rail_loc_df b = [c]
      /\ Name c = Clusterer.REP_STOP b
      /\ Lat c = Clusterer.LAT_R b
      /\ Lon c = Clusterer.LON_R b
      /\ Bus_Boardings c = Clusterer.SUM_PASSENGERS_ON b
      /\ Routes c = Clusterer.ROUTES b.
Proof.
  unfold candidate_of.
  destruct (nearest_loop _ _ rail_loc_df None None) as [md ns].
  destruct (Qle_bool _ _ && gt_dist md min_distance); [right|now left].
  eexists. split; [reflexivity|]. repeat split.
Qed.

Lemma candidate_of_nonempty (min_boardings min_distance : Q)
  (rail_loc_df : list Reconciler.rail_location) (b : Clusterer.hotspot) :
  candidate_of min_boardings min_distance rail_loc_df b <> []
  <-> (min_boardings <= Clusterer.SUM_PASSENGERS_ON b)%Q
      /\ (distances b rail_loc_df = []
          \/ exists m, is_minimum m (distances b rail_loc_df)
                       /\ (min_distance < m)%Q).
Proof.
  unfold candidate_of.
  pose proof (nearest_loop_min b rail_loc_df None None) as Hmin.
  destruct (nearest_loop _ _ rail_loc_df None None) as [md ns].
  cbn [fst] in Hmin.
  destruct (Qle_bool min_boardings (Clusterer.SUM_PASSENGERS_ON b)) eqn:Eb;
    cbn [andb].
  - apply Qle_bool_iff in Eb. destruct md as [m|]; cbn [gt_dist].
    + destruct Hmin as ([[=]|Hin] & Hle & _).
      destruct (BusData.Qlt_bool min_distance m) eqn:Ed.
      * apply BusData.Qlt_bool_iff in Ed. split; [|discriminate].
        intros _. split; [assumption|]. right. exists m. now repeat split.
      * split; [congruence|]. intros [_ [Hnil|(m' & [Hin' Hle'] & Hlt)]].
        -- rewrite Hnil in Hin. destruct Hin.
        -- exfalso.
           assert (L : (min_distance < m)%Q).
           { apply Qlt_le_trans with m'; [assumption|now apply Hle']. }
           apply BusData.Qlt_bool_iff in L. congruence.
    + destruct Hmin as [_ Hnil]. split; [|discriminate].
      intros _. split; [assumption|now left].
  - split; [congruence|]. intros [Hle _]. apply Qle_bool_iff in Hle.
    congruence.
Qed.

(** C1 (amended): for every hotspot the analysis takes the least of the
    distances to the located rail stations (a station whose distance
    computation raises is skipped), and the hotspot gives a candidate, one
    entry with its label, coordinates, boardings and routes, exactly when
    its boardings reach the minimum and that least distance is above the
    minimum distance or there is no distance at all, as when no rail station
    was located.  Without located rail stations every hotspot that reaches
    the boardings minimum is a candidate whose nearest-rail name is the text
    [None] and whose distance is null.  With the defaults 500 and 1.0, a
    hotspot with 600 boardings is a candidate when the nearest station is at
    1.5 miles and is not when it is at 0.5 miles. *)
Theorem candidate_iff_busy_and_far (min_boardings min_distance : Q)
  (rail_loc_df : list Reconciler.rail_location) (b : Clusterer.hotspot) :
  let ds := distances b rail_loc_df in
  let entry := candidate_of min_boardings min_distance rail_loc_df b in
  (entry = []
   \/ exists c, entry = [c]
                /\ Name c = Clusterer.REP_STOP b
                /\ Lat c = Clusterer.LAT_R b
                /\ Lon c = Clusterer.LON_R b
                /\ Bus_Boardings c = Clusterer.SUM_PASSENGERS_ON b
                /\ Routes c = Clusterer.ROUTES b)
  /\ (entry <> []
      <-> (min_boardings <= Clusterer.SUM_PASSENGERS_ON b)%Q
          /\ (ds = [] \/ exists m, is_minimum m ds /\ (min_distance < m)%Q))
  /\ ((forall r, In r rail_loc_df ->
         haversine_miles (Clusterer.LON_R b) (Clusterer.LAT_R b)
           (Reconciler.LON r) (Reconciler.LAT r) <> None) ->
      (ds = [] <-> rail_loc_df = []))
  /\ ((min_boardings <= Clusterer.SUM_PASSENGERS_ON b)%Q ->
      exists c, candidate_of min_boardings min_distance [] b = [c]
                /\ Nearest_Rail c = Some "None"
                /\ Distance_Miles c = None)
  /\ (forall m,
        is_minimum m ds ->
        (Clusterer.SUM_PASSENGERS_ON b == 600)%Q ->
        ((m == Qmake 15 10)%Q ->
         candidate_of CANDIDATE_MIN_BOARDINGS MIN_DISTANCE_MILES rail_loc_df b
         <> [])
        /\ ((m == Qmake 5 10)%Q ->
            candidate_of CANDIDATE_MIN_BOARDINGS MIN_DISTANCE_MILES rail_loc_df b
            = [])).
Proof.
  intros ds entry. split; [apply candidate_of_entry|].
  split; [apply candidate_of_nonempty|]. split; [|split].
  - intros Hall. subst ds. unfold distances. split.
    + intros Hnil. destruct rail_loc_df as [|r rest]; [reflexivity|].
      exfalso. cbn [flat_map] in Hnil.
      specialize (Hall r (or_introl eq_refl)).
      destruct (haversine_miles _ _ _ _); [discriminate|congruence].
    + now intros ->.
  - intros Hle. apply Qle_bool_iff in Hle. unfold candidate_of.
    cbn [nearest_loop]. rewrite Hle. cbn [andb gt_dist].
    eexists. split; [reflexivity|]. now split.
  - intros m Hm Hb. split.
    + intros Em. apply candidate_of_nonempty. split.
      * rewrite Hb. discriminate.
      * right. exists m. split; [assumption|]. rewrite Em. reflexivity.
    + intros Em.
      destruct (candidate_of CANDIDATE_MIN_BOARDINGS MIN_DISTANCE_MILES
                  rail_loc_df b) as [|c l] eqn:E; [reflexivity|].
      exfalso.
      assert (Hne : candidate_of CANDIDATE_MIN_BOARDINGS MIN_DISTANCE_MILES
                      rail_loc_df b <> []) by (rewrite E; discriminate).
      apply candidate_of_nonempty in Hne.
      destruct Hne as [_ [Hnil|(m' & [Hin' Hle'] & Hlt)]].
      * destruct Hm as [Hin _]. fold ds in Hnil. rewrite Hnil in Hin.
        destruct Hin.
      * destruct Hm as [Hin Hle].
        assert (L : (MIN_DISTANCE_MILES < m)%Q).
        { apply Qlt_le_trans with m'; [assumption|now apply Hle']. }
        rewrite Em in L. discriminate.
Qed.

(** *** The ranked list *)

Lemma in_firstn {A : Type} (n : nat) (l : list A) (x : A) :
  In x (firstn n l) -> In x l.
Proof.
  intros H. rewrite <- (firstn_skipn n l). apply in_or_app. now left.
Qed.

Lemma in_skipn {A : Type} (n : nat) (l : list A) (x : A) :
  In x (skipn n l) -> In x l.
Proof.
  intros H. rewrite <- (firstn_skipn n l). apply in_or_app. now right.
Qed.

Lemma firstn_skipn_sorted (n : nat) (l : list candidate) :
  descending l ->
  forall c c', In c (firstn n l) -> In c' (skipn n l) ->
               (Bus_Boardings c' <= Bus_Boardings c)%Q.
Proof.
  unfold descending. intros H. revert n.
  induction H as [|x l Hs IH Hx]; intros n c c'.
  - destruct n; intros [].
  - destruct n as [|n]; [intros []|]. cbn [firstn skipn].
    intros [<-|Hc] Hc'.
    + apply Qle_bool_iff. rewrite Forall_forall in Hx. apply Hx.
      now apply (in_skipn n).
    + now apply (IH n).
Qed.

Lemma descending_firstn (n : nat) (l : list candidate) :
  descending l -> descending (firstn n l).
Proof.
  unfold descending. intros H. revert n.
  induction H as [|x l Hs IH Hx]; intros n.
  - destruct n; constructor.
  - destruct n as [|n]; [constructor|]. cbn [firstn].
    constructor; [apply IH|].
    rewrite Forall_forall in *. intros y Hy. apply Hx.
    now apply (in_firstn n).
Qed.

Hypothesis sort_values_perm : forall l, Permutation (sort_values l) l.
Hypothesis sort_values_desc : forall l, descending (sort_values l).

(** C8 (amended): the list the gap analysis returns is cut inside the
    pipeline.  It is the first 50 entries of the candidates sorted by bus
    boardings, descending: all candidates when there are at most 50 of them,
    and otherwise 50 of them, none with fewer boardings than a candidate that
    was left out.  The order among candidates with equal boardings is the one
    the sort of the library leaves. *)
Theorem gap_analysis_top_50 (min_boardings min_distance : Q)
  (bus_hotspots : list Clusterer.hotspot)
  (rail_loc_df : list Reconciler.rail_location) :
  let potential :=
    potential_stations min_boardings min_distance bus_hotspots rail_loc_df in
  let out := gap_analysis min_boardings min_distance bus_hotspots rail_loc_df in
  out = firstn 50 (sort_values potential)
  /\ descending out
  /\ List.length out = Nat.min 50 (List.length potential)
  /\ (List.length potential <= 50 -> Permutation out potential)
  /\ exists rest,
      Permutation potential (out ++ rest)
      /\ forall c c', In c out -> In c' rest ->
                      (Bus_Boardings c' <= Bus_Boardings c)%Q.
Proof.
  intros potential out.
  assert (E : out = firstn 50 (sort_values potential)).
  { subst out. unfold gap_analysis. fold potential.
    destruct potential as [|c l] eqn:Ep; [|reflexivity].
    pose proof (sort_values_perm []) as P.
    apply Permutation_sym, Permutation_nil in P. now rewrite P. }
  split; [exact E|]. rewrite E. split; [|split; [|split]].
  - apply descending_firstn, sort_values_desc.
  - rewrite length_firstn.
    now rewrite (Permutation_length (sort_values_perm potential)).
  - intros Hlen. rewrite firstn_all2; [apply sort_values_perm|].
    now rewrite (Permutation_length (sort_values_perm potential)).
  - exists (skipn 50 (sort_values potential)). split.
    + rewrite firstn_skipn. symmetry. apply sort_values_perm.
    + apply firstn_skipn_sorted, sort_values_desc.
Qed.

End Analysis.

(** A hotspot with 600 boardings. *)
Definition busy_hotspot : Clusterer.hotspot :=
  {| Clusterer.LAT_R := Qmake 389 10;
     Clusterer.LON_R := Qmake (-7703) 100;
     Clusterer.SUM_PASSENGERS_ON := 600;
     Clusterer.REP_STOP := Some "7th St";
     Clusterer.ROUTES := "70" |}.

(** C1, as stated, fails on the nearest-rail name: without any located rail
    station, and whatever the distance function, the entry of a busy hotspot
    holds the text [None] under ['Nearest_Rail'], not a null; its distance
    is null. *)
Lemma nearest_rail_placeholder_is_text :
  (fun haversine_miles =>
     map (fun c => (Nearest_Rail c, Distance_Miles c))
       (candidate_of haversine_miles CANDIDATE_MIN_BOARDINGS
          MIN_DISTANCE_MILES [] busy_hotspot))
  = (fun _ => [(Some "None", None)]).
Proof. reflexivity. Qed.

Example candidate_at_a_mile_and_a_half :
  let station :=
    {| Reconciler.loc_STOP_ID := RailUsage.S_ "B03";
       Reconciler.loc_STATION_NAME := "Union Station";
       Reconciler.RAIL_BOARDINGS := 1000;
       Reconciler.LAT := Qmake 3892 100;
       Reconciler.LON := Qmake (-7703) 100;
       Reconciler.MATCHED_STOP := "Union Station";
       Reconciler.MATCH_SCORE := 1 |} in
  map (fun c => (Nearest_Rail c, Distance_Miles c))
    (candidate_of (fun _ _ _ _ => Some (Qmake 15 10)) CANDIDATE_MIN_BOARDINGS
       MIN_DISTANCE_MILES [station] busy_hotspot)
  = [(Some "Union Station", Some (unscale 150 2))]
  /\ candidate_of (fun _ _ _ _ => Some (Qmake 5 10)) CANDIDATE_MIN_BOARDINGS
       MIN_DISTANCE_MILES [station] busy_hotspot
     = [].
Proof. split; reflexivity. Qed.

(** *** A stable sort as an instance of [sort_values] *)

Definition boardings_geb (c1 c2 : candidate) : bool :=
  Qle_bool (Bus_Boardings c2) (Bus_Boardings c1).

Definition stable_sort_values (l : list candidate) : list candidate :=
  sort_on boardings_geb l.

Lemma boardings_geb_total (c1 c2 : candidate) :
  boardings_geb c1 c2 = true \/ boardings_geb c2 c1 = true.
Proof.
  unfold boardings_geb.
  destruct (Qlt_le_dec (Bus_Boardings c1) (Bus_Boardings c2)) as [H|H].
  - right. apply Qle_bool_iff. now apply Qlt_le_weak.
  - left. now apply Qle_bool_iff.
Qed.

Lemma boardings_geb_trans (c1 c2 c3 : candidate) :
  boardings_geb c1 c2 = true -> boardings_geb c2 c3 = true ->
  boardings_geb c1 c3 = true.
Proof.
  unfold boardings_geb. rewrite !Qle_bool_iff. intros H1 H2.
  now apply Qle_trans with (Bus_Boardings c2).
Qed.

Lemma stable_sort_values_perm (l : list candidate) :
  Permutation (stable_sort_values l) l.
Proof. apply sort_on_perm. Qed.

Lemma stable_sort_values_desc (l : list candidate) :
  descending (stable_sort_values l).
Proof.
  apply (sort_on_sorted boardings_geb boardings_geb_total boardings_geb_trans).
Qed.

(** Hotspots number [0] to [n - 1], with boardings from 500 upwards. *)
Definition numbered_hotspots (n : nat) : list Clusterer.hotspot :=
  map (fun i =>
         {| Clusterer.LAT_R := inject_Z (Z.of_nat i);
            Clusterer.LON_R := 0;
            Clusterer.SUM_PASSENGERS_ON := inject_Z (500 + Z.of_nat i);
            Clusterer.REP_STOP := None;
            Clusterer.ROUTES := "" |}) (seq 0 n).

(** C8, as stated, fails: of 51 hotspots that all qualify, at most 50 are in
    the list the gap analysis returns, whatever the distance function and
    the sort. *)
Lemma head_50_drops_candidates :
  (forall haversine_miles,
      List.length
        (potential_stations haversine_miles CANDIDATE_MIN_BOARDINGS
           MIN_DISTANCE_MILES (numbered_hotspots 51) []) = 51)
  /\ (forall haversine_miles sort_values,
        List.length
          (gap_analysis haversine_miles sort_values CANDIDATE_MIN_BOARDINGS
             MIN_DISTANCE_MILES (numbered_hotspots 51) []) <= 50).
Proof.
  split.
  - intros haversine_miles. vm_compute. reflexivity.
  - intros haversine_miles sort_values. unfold gap_analysis.
    destruct (potential_stations _ _ _ _ _); [simpl; lia|].
    apply firstn_le_length.
Qed.

Lemma gap_analysis_top_50_witness :
  let potential :=
    potential_stations (fun _ _ _ _ => Some 2%Q) CANDIDATE_MIN_BOARDINGS
      MIN_DISTANCE_MILES (numbered_hotspots 3) [] in
  let out :=
    gap_analysis (fun _ _ _ _ => Some 2%Q) stable_sort_values
      CANDIDATE_MIN_BOARDINGS MIN_DISTANCE_MILES (numbered_hotspots 3) [] in
  out = firstn 50 (stable_sort_values potential)
  /\ descending out
  /\ List.length out = Nat.min 50 (List.length potential)
  /\ (List.length potential <= 50 -> Permutation out potential)
  /\ exists rest,
      Permutation potential (out ++ rest)
      /\ forall c c', In c out -> In c' rest ->
                      (Bus_Boardings c' <= Bus_Boardings c)%Q.
Proof.
  exact (gap_analysis_top_50 (fun _ _ _ _ => Some 2%Q) stable_sort_values
           stable_sort_values_perm stable_sort_values_desc
           CANDIDATE_MIN_BOARDINGS MIN_DISTANCE_MILES (numbered_hotspots 3) []).
Defined.

Example ranked_three :
  map (fun c => Qred (Bus_Boardings c))
    (gap_analysis (fun _ _ _ _ => Some 2%Q) stable_sort_values
       CANDIDATE_MIN_BOARDINGS MIN_DISTANCE_MILES (numbered_hotspots 3) [])
  = [502%Q; 501%Q; 500%Q].
Proof. vm_compute. reflexivity. Qed.


End GapAnalyzer.

(** ** The stages together: no station is placed by guess *)
Module Pipeline.

(** C3: every entry of the list of located stations belongs to a station of
    the rail table that has an accepted bus stop name; it carries that
    name, the match score, and as coordinates the mean latitude and the mean
    longitude of the bus rows of that name.  A station without any accepted
    bus stop name has no entry, a station with a best match has one, and the
    nearest-rail name of a candidate is the placeholder (with no distance)
    or the name of an entry: a station that was not located takes no part in
    the nearest-rail search or in the candidate list. *)
Theorem no_guessed_coordinates (rail_usage : list Reconciler.rail_station)
  (bus_df : list BusData.bus_row) :
  let rail_loc_df := Reconciler.locate rail_usage bus_df in
  let names := BusData.bus_stop_names bus_df in
  (forall e, In e rail_loc_df ->
     exists st, In st rail_usage
       /\ Reconciler.loc_STOP_ID e = Reconciler.STOP_ID st
       /\ Reconciler.loc_STATION_NAME e = Reconciler.STATION_NAME st
       /\ Reconciler.RAIL_BOARDINGS e = Reconciler.AVG_BOARDINGS st
       /\ In (Reconciler.MATCHED_STOP e) names
       /\ Reconciler.accepted (Reconciler.STATION_NAME st)
            (Reconciler.MATCHED_STOP e)
       /\ Reconciler.find_match (Reconciler.STATION_NAME st) names
          = (Some (Reconciler.MATCHED_STOP e), Reconciler.MATCH_SCORE e)
       /\ Reconciler.MATCH_SCORE e
          = similar (Reconciler.STATION_NAME st) (Reconciler.MATCHED_STOP e)
       /\ BusData.rows_named bus_df (Reconciler.MATCHED_STOP e) <> []
       /\ Reconciler.LAT e
          = Frames.Qmean
              (map BusData.LAT
                 (BusData.rows_named bus_df (Reconciler.MATCHED_STOP e)))
       /\ Reconciler.LON e
          = Frames.Qmean
              (map BusData.LON
                 (BusData.rows_named bus_df (Reconciler.MATCHED_STOP e))))
  /\ (forall st, In st rail_usage ->
        (forall b, In b names ->
                   ~ Reconciler.accepted (Reconciler.STATION_NAME st) b) ->
        forall e, In e rail_loc_df ->
                  Reconciler.loc_STATION_NAME e <> Reconciler.STATION_NAME st)
  /\ (forall st b score, In st rail_usage ->
        Reconciler.find_match (Reconciler.STATION_NAME st) names
        = (Some b, score) ->
        exists e, In e rail_loc_df
                  /\ Reconciler.loc_STOP_ID e = Reconciler.STOP_ID st
                  /\ Reconciler.loc_STATION_NAME e = Reconciler.STATION_NAME st
                  /\ Reconciler.MATCHED_STOP e = b)
  /\ (forall haversine_miles min_boardings min_distance bus_hotspots c,
        In c (GapAnalyzer.potential_stations haversine_miles min_boardings
                min_distance bus_hotspots rail_loc_df) ->
        (GapAnalyzer.Nearest_Rail c = Some "None"
         /\ GapAnalyzer.Distance_Miles c = None)
        \/ exists e, In e rail_loc_df
                     /\ GapAnalyzer.Nearest_Rail c
                        = Some (Reconciler.loc_STATION_NAME e)).
Proof.
  intros rail_loc_df names.
  assert (Hentry : forall e, In e rail_loc_df ->
            exists st, In st rail_usage
              /\ Reconciler.loc_STOP_ID e = Reconciler.STOP_ID st
              /\ Reconciler.loc_STATION_NAME e = Reconciler.STATION_NAME st
              /\ Reconciler.RAIL_BOARDINGS e = Reconciler.AVG_BOARDINGS st
              /\ Reconciler.find_match (Reconciler.STATION_NAME st) names
                 = (Some (Reconciler.MATCHED_STOP e), Reconciler.MATCH_SCORE e)
              /\ exists a, In a (BusData.bus_stop_agg bus_df)
                           /\ BusData.agg_STOP a = Reconciler.MATCHED_STOP e
                           /\ Reconciler.LAT e = BusData.agg_LAT a
                           /\ Reconciler.LON e = BusData.agg_LON a).
  { intros e He. unfold rail_loc_df, Reconciler.locate in He.
    apply in_flat_map in He. destruct He as (st & Hst & He).
    apply Reconciler.locate_station_in in He.
    exists st. tauto. }
  split; [|split; [|split]].
  - intros e He.
    destruct (Hentry e He) as (st & Hst & Hid & Hn & Hb & Hm & a & Ha & Has & Hlat & Hlon).
    destruct (Reconciler.find_match_some _ _ _ _ Hm) as (Hin & Hacc & Hscore).
    destruct (BusData.bus_stop_agg_in _ _ Ha) as (Hne & Hla & Hlo & _).
    rewrite Has in Hne, Hla, Hlo.
    exists st. repeat split; try assumption; congruence.
  - intros st Hst Hnone e He Hname.
    destruct (Hentry e He) as (st' & _ & _ & Hn & _ & Hm & _).
    destruct (Reconciler.find_match_some _ _ _ _ Hm) as (Hin & Hacc & _).
    apply (Hnone _ Hin). congruence.
  - intros st b score Hst Hm.
    destruct (Reconciler.locate_station_some (BusData.bus_stop_agg bus_df)
                st b score Hm) as (e & He & H).
    exists e. split; [|exact H].
    unfold rail_loc_df, Reconciler.locate. apply in_flat_map.
    exists st. split; [assumption|]. rewrite He. now left.
  - intros haversine_miles min_boardings min_distance bus_hotspots c.
    apply GapAnalyzer.candidate_nearest_rail.
Qed.

End Pipeline.

(** ** More on [similar]: identical names, empty names, lengths *)
Module SimilarFacts.
Import Difflib.

(** The positions of [c] listed by [indices_from] lie in the sequence. *)
Lemma indices_from_range (c : ascii) (b : list ascii) :
  forall s j, In j (indices_from c b s) -> s <= j /\ j < s + List.length b.
Proof.
  induction b as [|x b IH]; intros s j; simpl; [intros []|].
  destruct (Ascii.eqb x c).
  - intros [<-|H]; [lia|]. apply IH in H. lia.
  - intros H. apply IH in H. lia.
Qed.

(** They are in ascending order: around a position [i] that holds [c], the
    list splits into the smaller and the larger positions. *)
Lemma indices_from_split (c : ascii) (b : list ascii) :
  forall s i,
    i < List.length b -> nth i b char0 = c ->
    exists lo hi,
      indices_from c b s = lo ++ (s + i) :: hi
      /\ (forall j, In j lo -> s <= j /\ j < s + i)
      /\ (forall j, In j hi -> s + i < j /\ j < s + List.length b).
Proof.
  induction b as [|x b IH]; intros s i Hi Hc; simpl in Hi; [lia|].
  destruct i as [|i].
  - simpl in Hc. subst x. simpl. rewrite Ascii.eqb_refl.
    exists [], (indices_from c b (S s)). rewrite Nat.add_0_r.
    split; [reflexivity|]. split; [intros j []|].
    intros j Hj. apply indices_from_range in Hj. lia.
  - simpl in Hc.
    destruct (IH (S s) i ltac:(lia) Hc) as (lo & hi & E & Hlo & Hhi).
    simpl. rewrite E. replace (S s + i) with (s + S i) by lia.
    destruct (Ascii.eqb x c).
    + exists (s :: lo), hi. split; [reflexivity|]. split.
      * intros j [<-|Hj]; [lia|]. apply Hlo in Hj. lia.
      * intros j Hj. apply Hhi in Hj. lia.
    + exists lo, hi. split; [reflexivity|]. split.
      * intros j Hj. apply Hlo in Hj. lia.
      * intros j Hj. apply Hhi in Hj. lia.
Qed.

(** A stretch of the inner loop without [break]. *)
Lemma inner_loop_app (i blo bhi : nat) (j2len : list (nat * nat))
  (lo rest : list nat) :
  (forall j, In j lo -> j < bhi) ->
  forall new best,
    inner_loop i blo bhi j2len (lo ++ rest) new best
    = inner_loop i blo bhi j2len rest
        (fst (inner_loop i blo bhi j2len lo new best))
        (snd (inner_loop i blo bhi j2len lo new best)).
Proof.
  induction lo as [|j lo IH]; intros Hlo new best; [reflexivity|].
  cbn [app inner_loop].
  assert (Hj : (bhi <=? j) = false).
  { apply Nat.leb_gt. apply Hlo. now left. }
  assert (Hlo' : forall j', In j' lo -> j' < bhi).
  { intros j' H. apply Hlo. now right. }
  destruct (j <? blo); [now apply IH|].
  rewrite Hj. destruct best as [[bi bj] bs]. now apply IH.
Qed.

(** A stretch of the inner loop in which no match is longer than the best
    one: the best match stays, and the other entries of the row too. *)
Lemma inner_loop_quiet (i blo bhi : nat) (j2len : list (nat * nat))
  (js : list nat) :
  forall new bi bj bs,
    (forall j, In j js ->
       blo <= j /\ j < bhi /\ j2len_prev j2len j + 1 <= bs) ->
    snd (inner_loop i blo bhi j2len js new (bi, bj, bs)) = (bi, bj, bs)
    /\ forall q, ~ In q js ->
         j2len_get (fst (inner_loop i blo bhi j2len js new (bi, bj, bs))) q
         = j2len_get new q.
Proof.
  induction js as [|j js IH]; intros new bi bj bs Hjs; cbn [inner_loop].
  - split; [reflexivity|]. now intros q _.
  - destruct (Hjs j (or_introl eq_refl)) as (H1 & H2 & H3).
    assert (E1 : (j <? blo) = false) by (apply Nat.ltb_ge; lia).
    assert (E2 : (bhi <=? j) = false) by (apply Nat.leb_gt; lia).
    assert (E3 : (bs <? j2len_prev j2len j + 1) = false)
      by (apply Nat.ltb_ge; lia).
    rewrite E1, E2, E3.
    destruct (IH ((j, j2len_prev j2len j + 1) :: new) bi bj bs) as [Hb Hg].
    { intros j' Hj'. apply Hjs. now right. }
    split; [exact Hb|]. intros q Hq. rewrite Hg.
    + cbn [j2len_get]. destruct (j =? q) eqn:E; [|reflexivity].
      apply Nat.eqb_eq in E. subst q. exfalso. apply Hq. now left.
    + intros Hin. apply Hq. now right.
Qed.

(** One row of the comparison of a sequence with itself. *)
Lemma inner_loop_diagonal (a : list ascii) (i : nat) (j2len : list (nat * nat)) :
  List.length a < 200 -> i < List.length a ->
  row_ok 0 i j2len -> j2len_prev j2len i = i ->
  snd (inner_loop i 0 (List.length a) j2len (b2j a (nth i a char0)) []
         (0, 0, i)) = (0, 0, S i)
  /\ j2len_get
       (fst (inner_loop i 0 (List.length a) j2len (b2j a (nth i a char0)) []
               (0, 0, i))) i = S i.
Proof.
  intros Hshort Hi Hrow Hprev. unfold b2j, popular.
  assert (Enp : (200 <=? List.length a) = false) by (apply Nat.leb_gt; lia).
  rewrite Enp. cbn [andb].
  destruct (indices_from_split (nth i a char0) a 0 i Hi eq_refl)
    as (lo & hi & E & Hlo & Hhi).
  rewrite E. cbn [Nat.add] in *.
  rewrite inner_loop_app by (intros j Hj; apply Hlo in Hj; lia).
  destruct (inner_loop_quiet i 0 (List.length a) j2len lo [] 0 0 i) as [Hb Hg].
  { intros j Hj. apply Hlo in Hj.
    destruct (j2len_prev_bound 0 i j2len j Hrow ltac:(lia)). lia. }
  rewrite Hb. cbn [inner_loop].
  assert (Ei0 : (i <? 0) = false) by reflexivity.
  assert (Ein : (List.length a <=? i) = false) by (apply Nat.leb_gt; lia).
  assert (Eii : (i <? i + 1) = true) by (apply Nat.ltb_lt; lia).
  rewrite Ei0, Ein, Hprev, Eii.
  replace (i + 1 - (i + 1)) with 0 by lia.
  destruct (inner_loop_quiet i 0 (List.length a) j2len hi
              ((i, i + 1) :: fst (inner_loop i 0 (List.length a) j2len lo []
                                    (0, 0, i)))
              0 0 (i + 1)) as [Hb' Hg'].
  { intros j Hj. apply Hhi in Hj.
    destruct (j2len_prev_bound 0 i j2len j Hrow ltac:(lia)). lia. }
  rewrite Hb', Hg'.
  - cbn [j2len_get]. rewrite Nat.eqb_refl.
    replace (i + 1) with (S i) by lia. now split.
  - intros Hin. apply Hhi in Hin. lia.
Qed.

Lemma outer_loop_diagonal (a : list ascii) (m : nat) :
  List.length a < 200 ->
  forall i j2len,
    i + m = List.length a ->
    row_ok 0 i j2len -> j2len_prev j2len i = i ->
    outer_loop a a 0 (List.length a) (seq i m) j2len (0, 0, i)
    = (0, 0, List.length a).
Proof.
  intros Hshort. induction m as [|m IH]; intros i j2len Him Hrow Hprev.
  - simpl. f_equal. lia.
  - cbn [seq outer_loop].
    destruct (inner_loop_diagonal a i j2len Hshort ltac:(lia) Hrow Hprev)
      as [Hb Hg].
    pose proof (inner_loop_ok 0 (List.length a) 0 (List.length a) i j2len
                  (b2j a (nth i a char0)) (Nat.le_0_l _) ltac:(lia)
                  ltac:(now rewrite Nat.sub_0_r) [] (0, 0, i)
                  (Forall_nil _) ltac:(unfold in_window; lia)) as [Hrow' _].
    destruct (inner_loop i 0 (List.length a) j2len (b2j a (nth i a char0)) []
                (0, 0, i)) as [newj2len best'].
    cbn [fst snd] in *. subst best'.
    apply IH; [lia| |exact Hg].
    replace (S i) with (i + 1 - 0) by lia. exact Hrow'.
Qed.

(** The longest match of a sequence with itself is the whole sequence. *)
Lemma find_longest_match_self (a : list ascii) :
  List.length a < 200 ->
  find_longest_match a a 0 (List.length a) 0 (List.length a)
  = (0, 0, List.length a).
Proof.
  intros Hshort. unfold find_longest_match. rewrite Nat.sub_0_r.
  rewrite (outer_loop_diagonal a (List.length a) Hshort 0 []
             eq_refl (Forall_nil _) eq_refl).
  cbn [extend_left]. now rewrite Nat.add_0_l, Nat.sub_diag.
Qed.

Lemma ratio_self (a : list ascii) :
  List.length a < 200 -> (ratio a a == 1)%Q.
Proof.
  intros Hshort. unfold ratio, get_matching_blocks. cbn [blocks_in].
  rewrite (find_longest_match_self a Hshort).
  destruct (List.length a) as [|n] eqn:En; [reflexivity|].
  cbn [Nat.eqb]. rewrite Nat.ltb_irrefl. cbn [andb].
  assert (Enn : (0 + S n <? S n) = false) by (apply Nat.ltb_ge; lia).
  rewrite Enn. cbn [andb app collapse Nat.add Nat.eqb].
  unfold total_size, block_size, calculate_ratio. cbn [fold_right snd app].
  unfold Qeq. cbn [Qnum Qden].
  assert (HP : Z.pos (Pos.of_nat (S n + S n)) = Z.of_nat (S n + S n)).
  { rewrite <- (Nat2Pos.id (S n + S n)) at 2 by lia.
    now rewrite positive_nat_Z. }
  cbn [Nat.add] in *. rewrite HP. lia.
Qed.

(** Nothing matches an empty first sequence. *)
Lemma ratio_empty_a (b : list ascii) : b <> [] -> (ratio [] b == 0)%Q.
Proof.
  intros Hb. destruct b as [|c b]; [congruence|]. reflexivity.
Qed.

Lemma lower_length (s : string) :
  List.length (list_ascii_of_string (Text.lower s)) = String.length s.
Proof.
  induction s as [|c s IH]; simpl; [reflexivity|]. now rewrite IH.
Qed.

(** The ratio is at most twice the shorter length over the total length. *)
Lemma similar_length_bound (a b : string) :
  (similar a b * inject_Z (Z.of_nat (String.length a + String.length b))
   <= inject_Z (Z.of_nat (2 * Nat.min (String.length a) (String.length b))))%Q.
Proof.
  unfold similar, ratio.
  set (la := list_ascii_of_string (Text.lower a)).
  set (lb := list_ascii_of_string (Text.lower b)).
  destruct (matches_bound la lb) as [Ha Hb].
  set (m := total_size (get_matching_blocks la lb)) in *.
  assert (Ela : List.length la = String.length a) by apply lower_length.
  assert (Elb : List.length lb = String.length b) by apply lower_length.
  rewrite Ela, Elb in *.
  unfold calculate_ratio.
  destruct (String.length a + String.length b) as [|t] eqn:Et.
  - assert (String.length a = 0) by lia. assert (String.length b = 0) by lia.
    rewrite H, H0. simpl. unfold Qle. simpl. lia.
  - assert (HP : Z.pos (Pos.of_nat (S t)) = Z.of_nat (S t)).
    { rewrite <- (Nat2Pos.id (S t)) at 2 by discriminate.
      now rewrite positive_nat_Z. }
    unfold Qle, Qmult, inject_Z. cbn [Qnum Qden].
    rewrite Pos.mul_1_r, HP. nia.
Qed.


Lemma similar_range_bound (a b : string) : (similar a b <= 1)%Q.
Proof. unfold similar. apply Difflib.ratio_range. Qed.

Lemma ratio_self_folded (a b : string) :
  Text.lower a = Text.lower b -> String.length a < 200 ->
  (similar a b == 1)%Q.
Proof.
  intros Hab Hlen. unfold similar. rewrite <- Hab. apply ratio_self.
  now rewrite lower_length.
Qed.

(** X1: two names that are equal up to letter case, shorter than the 200
    characters from which the matcher discards frequent characters, have
    similarity 1. *)
Theorem similar_same_name (a b : string) :
  Text.lower a = Text.lower b -> String.length a < 200 ->
  (similar a b == 1)%Q.
Proof.
  intros Hab Hlen. now apply ratio_self_folded.
Qed.

Lemma similar_same_name_witness :
  (similar "Union Station" "UNION STATION" == 1)%Q.
Proof.
  apply similar_same_name; [reflexivity|]. simpl. lia.
Defined.

(** X2: the similarity of two empty names is 1, and the similarity of the
    empty name and any other name is 0, whichever comes first. *)
Theorem similar_with_empty_name :
  (similar "" "" == 1)%Q
  /\ forall a, a <> "" -> (similar a "" == 0)%Q /\ (similar "" a == 0)%Q.
Proof.
  split; [reflexivity|]. intros a Ha. split.
  - now apply similar_empty_r.
  - unfold similar. simpl. apply ratio_empty_a.
    destruct a; [congruence|discriminate].
Qed.

(** X3: a bus stop name is never an accepted candidate for a station name
    when one of the two names is at least 7/3 times as long as the other:
    the similarity is then at most 0.6. *)
Theorem lengths_too_different_never_accepted (station_name bname : string) :
  0 < String.length station_name + String.length bname ->
  7 * String.length station_name <= 3 * String.length bname
  \/ 7 * String.length bname <= 3 * String.length station_name ->
  ~ Reconciler.accepted station_name bname.
Proof.
  intros Hpos Hlen Hacc.
  assert (H6 : (Qmake 6 10 < similar station_name bname)%Q).
  { destruct Hacc as [[_ H]|H]; [exact H|].
    eapply Qlt_trans; [|exact H]. reflexivity. }
  pose proof (similar_length_bound station_name bname) as Hb.
  set (la := String.length station_name) in *.
  set (lb := String.length bname) in *.
  destruct (similar station_name bname) as [n d].
  unfold Qlt, Qle, Qmult, inject_Z in *. cbn [Qnum Qden] in *.
  rewrite Pos.mul_1_r in Hb. nia.
Qed.

Lemma lengths_too_different_never_accepted_witness :
  String.length "Vienna" = 6
  /\ String.length "Vienna Fairfax GMU North Kiss and Ride" = 38
  /\ ~ Reconciler.accepted "Vienna" "Vienna Fairfax GMU North Kiss and Ride".
Proof.
  split; [reflexivity|]. split; [reflexivity|].
  apply lengths_too_different_never_accepted; simpl; lia.
Defined.

End SimilarFacts.

(** ** Means lie between the least and the greatest value *)
Module MeanFacts.
Import Frames.

Lemma least_element (l : list Q) :
  l <> [] -> exists m, In m l /\ forall x, In x l -> (m <= x)%Q.
Proof.
  induction l as [|y l IH]; [congruence|]. intros _.
  destruct l as [|z l].
  - exists y. split; [now left|]. intros x [<-|[]]. apply Qle_refl.
  - destruct (IH ltac:(discriminate)) as (m & Hm & Hle).
    destruct (Qlt_le_dec y m) as [H|H].
    + exists y. split; [now left|]. intros x [<-|Hx]; [apply Qle_refl|].
      apply Qle_trans with m; [now apply Qlt_le_weak|now apply Hle].
    + exists m. split; [now right|]. intros x [<-|Hx]; [assumption|].
      now apply Hle.
Qed.

Lemma greatest_element (l : list Q) :
  l <> [] -> exists m, In m l /\ forall x, In x l -> (x <= m)%Q.
Proof.
  induction l as [|y l IH]; [congruence|]. intros _.
  destruct l as [|z l].
  - exists y. split; [now left|]. intros x [<-|[]]. apply Qle_refl.
  - destruct (IH ltac:(discriminate)) as (m & Hm & Hle).
    destruct (Qlt_le_dec m y) as [H|H].
    + exists y. split; [now left|]. intros x [<-|Hx]; [apply Qle_refl|].
      apply Qle_trans with m; [now apply Hle|now apply Qlt_le_weak].
    + exists m. split; [now right|]. intros x [<-|Hx]; [assumption|].
      now apply Hle.
Qed.

Lemma length_succ_Q {A : Type} (x : A) (l : list A) :
  (inject_Z (Z.of_nat (List.length (x :: l)))
   == inject_Z (Z.of_nat (List.length l)) + 1)%Q.
Proof.
  cbn [List.length]. rewrite Nat2Z.inj_succ. unfold Z.succ.
  now rewrite inject_Z_plus.
Qed.

Lemma length_pos_Q {A : Type} (l : list A) :
  l <> [] -> (0 < inject_Z (Z.of_nat (List.length l)))%Q.
Proof.
  destruct l as [|x l]; [congruence|]. intros _.
  rewrite length_succ_Q.
  assert (0 <= inject_Z (Z.of_nat (List.length l)))%Q.
  { change 0%Q with (inject_Z 0). rewrite <- Zle_Qle. lia. }
  lra.
Qed.

Lemma Qsum_lower (l : list Q) (lo : Q) :
  (forall x, In x l -> (lo <= x)%Q) ->
  (lo * inject_Z (Z.of_nat (List.length l)) <= Qsum l)%Q.
Proof.
  induction l as [|y l IH]; intros H.
  - cbn [List.length Z.of_nat]. change (inject_Z 0) with 0%Q.
    change (Qsum []) with 0%Q. lra.
  - rewrite length_succ_Q. cbn [Qsum fold_right].
    fold (Qsum l).
    assert (lo <= y)%Q by (apply H; now left).
    assert (lo * inject_Z (Z.of_nat (List.length l)) <= Qsum l)%Q
      by (apply IH; intros x Hx; apply H; now right).
    lra.
Qed.

Lemma Qsum_upper (l : list Q) (hi : Q) :
  (forall x, In x l -> (x <= hi)%Q) ->
  (Qsum l <= hi * inject_Z (Z.of_nat (List.length l)))%Q.
Proof.
  induction l as [|y l IH]; intros H.
  - cbn [List.length Z.of_nat]. change (inject_Z 0) with 0%Q.
    change (Qsum []) with 0%Q. lra.
  - rewrite length_succ_Q. cbn [Qsum fold_right].
    fold (Qsum l).
    assert (y <= hi)%Q by (apply H; now left).
    assert (Qsum l <= hi * inject_Z (Z.of_nat (List.length l)))%Q
      by (apply IH; intros x Hx; apply H; now right).
    lra.
Qed.

(** The mean of a non-empty list lies between two of its values. *)
Lemma Qmean_between (l : list Q) :
  l <> [] ->
  exists lo hi, In lo l /\ In hi l /\ (lo <= Qmean l)%Q /\ (Qmean l <= hi)%Q.
Proof.
  intros Hne.
  destruct (least_element l Hne) as (lo & Hlo & Hmin).
  destruct (greatest_element l Hne) as (hi & Hhi & Hmax).
  exists lo, hi. repeat split; try assumption; unfold Qmean.
  - apply Qle_shift_div_l; [now apply length_pos_Q|now apply Qsum_lower].
  - apply Qle_shift_div_r; [now apply length_pos_Q|now apply Qsum_upper].
Qed.

(** A mean of values that are not negative is not negative. *)
Lemma Qmean_nonneg (l : list Q) :
  (forall x, In x l -> (0 <= x)%Q) -> (0 <= Qmean l)%Q.
Proof.
  intros H. destruct l as [|y l].
  - unfold Qmean. simpl. unfold Qdiv, Qmult, Qle. simpl. lia.
  - destruct (Qmean_between (y :: l) ltac:(discriminate))
      as (lo & _ & Hlo & _ & Hle & _).
    apply Qle_trans with lo; [now apply H|assumption].
Qed.

Lemma Qsum_nonneg (l : list Q) :
  (forall x, In x l -> (0 <= x)%Q) -> (0 <= Qsum l)%Q.
Proof.
  intros H. pose proof (Qsum_lower l 0 H) as L. lra.
Qed.

End MeanFacts.

(** ** More on the geocoding of rail stations *)
Module ReconcilerFacts.
Import Frames Reconciler.

(** *** The pool of bus stop names *)

Lemma rows_named_nonempty (bus_df : list BusData.bus_row) (n : string) :
  BusData.rows_named bus_df n <> []
  <-> exists r, In r bus_df /\ BusData.STOP r = Some n.
Proof.
  unfold BusData.rows_named. split.
  - intros H. destruct (filter _ bus_df) as [|r l] eqn:E; [congruence|].
    assert (Hr : In r (filter (fun r => match BusData.STOP r with
                                        | Some m => String.eqb m n
                                        | None => false
                                        end) bus_df))
      by (rewrite E; now left).
    apply filter_In in Hr. destruct Hr as [Hin Hs]. exists r.
    split; [assumption|]. destruct (BusData.STOP r) as [m|]; [|discriminate].
    apply String.eqb_eq in Hs. now subst.
  - intros (r & Hin & Hs) E.
    assert (Hr : In r (filter (fun r => match BusData.STOP r with
                                        | Some m => String.eqb m n
                                        | None => false
                                        end) bus_df)).
    { apply filter_In. split; [assumption|].
      rewrite Hs. apply String.eqb_refl. }
    rewrite E in Hr. destruct Hr.
Qed.

Lemma bus_stop_names_groups (bus_df : list BusData.bus_row) :
  BusData.bus_stop_names bus_df
  = map fst (sort_on (fun g1 g2 => String.leb (fst g1) (fst g2))
               (group_by String.eqb (BusData.named_rows bus_df))).
Proof.
  unfold BusData.bus_stop_names, BusData.bus_stop_agg.
  rewrite map_map. reflexivity.
Qed.

Lemma bus_stop_names_in (bus_df : list BusData.bus_row) (n : string) :
  In n (BusData.bus_stop_names bus_df)
  <-> exists r, In r bus_df /\ BusData.STOP r = Some n.
Proof.
  rewrite <- rows_named_nonempty, bus_stop_names_groups, in_map_iff. split.
  - intros ([n' rows] & <- & H). apply sort_on_in in H.
    apply (group_by_in String.eqb String.eqb_eq) in H.
    rewrite BusData.values_of_named in H. destruct H as [-> H]. exact H.
  - intros H. exists (n, BusData.rows_named bus_df n). split; [reflexivity|].
    apply sort_on_in. apply (group_by_in String.eqb String.eqb_eq).
    now rewrite BusData.values_of_named.
Qed.

(** *** The entries of the located stations *)

Lemma locate_in (rail_usage : list rail_station)
  (bus_df : list BusData.bus_row) (e : rail_location) :
  In e (locate rail_usage bus_df) ->
  exists st, In st rail_usage
    /\ loc_STOP_ID e = STOP_ID st
    /\ loc_STATION_NAME e = STATION_NAME st
    /\ find_match (STATION_NAME st) (BusData.bus_stop_names bus_df)
       = (Some (MATCHED_STOP e), MATCH_SCORE e)
    /\ exists a, In a (BusData.bus_stop_agg bus_df)
                 /\ BusData.agg_STOP a = MATCHED_STOP e
                 /\ LAT e = BusData.agg_LAT a /\ LON e = BusData.agg_LON a.
Proof.
  unfold locate. intros He. apply in_flat_map in He.
  destruct He as (st & Hst & He). apply locate_station_in in He.
  exists st. tauto.
Qed.

(** X6: the match score of every located station is above 0.6 and at most
    1. *)
Theorem located_score_range (rail_usage : list rail_station)
  (bus_df : list BusData.bus_row) :
  Forall (fun e => (Qmake 6 10 < MATCH_SCORE e)%Q /\ (MATCH_SCORE e <= 1)%Q)
    (locate rail_usage bus_df).
Proof.
  apply Forall_forall. intros e He.
  destruct (locate_in _ _ _ He) as (st & _ & _ & _ & Hm & _).
  apply find_match_some in Hm. destruct Hm as (_ & Hacc & ->). split.
  - destruct Hacc as [[_ H]|H]; [exact H|].
    eapply Qlt_trans; [|exact H]. reflexivity.
  - apply SimilarFacts.similar_range_bound.
Qed.


Lemma locate_ids_in (rail_usage : list rail_station)
  (bus_df : list BusData.bus_row) (e : rail_location) :
  In e (locate rail_usage bus_df) ->
  In (loc_STOP_ID e) (map STOP_ID rail_usage).
Proof.
  intros He. destruct (locate_in _ _ _ He) as (st & Hst & Hid & _).
  rewrite Hid. now apply in_map.
Qed.

Lemma locate_station_short (agg : list BusData.stop_agg) (row : rail_station) :
  locate_station agg row = []
  \/ exists e, locate_station agg row = [e] /\ loc_STOP_ID e = STOP_ID row.
Proof.
  unfold locate_station.
  destruct (find_match _ _) as [[b|] score]; [|now left].
  destruct (find _ agg); [right|now left]. eexists. now split.
Qed.

(** X7: the located stations are no more than the stations of the rail
    table, and a station identifier that occurs once in the rail table
    occurs at most once among the located stations. *)
Theorem locate_keeps_stations_apart (rail_usage : list rail_station)
  (bus_df : list BusData.bus_row) :
  List.length (locate rail_usage bus_df) <= List.length rail_usage
  /\ (NoDup (map STOP_ID rail_usage) ->
      NoDup (map loc_STOP_ID (locate rail_usage bus_df))).
Proof.
  split.
  - unfold locate. induction rail_usage as [|st l IH]; simpl; [lia|].
    rewrite length_app.
    destruct (locate_station_short (BusData.bus_stop_agg bus_df) st)
      as [->|(e & -> & _)]; simpl; lia.
  - induction rail_usage as [|st l IH]; intros Hnd; [constructor|].
    inversion Hnd as [|? ? Hst Hl]; subst.
    change (locate (st :: l) bus_df)
      with (locate_station (BusData.bus_stop_agg bus_df) st ++ locate l bus_df).
    destruct (locate_station_short (BusData.bus_stop_agg bus_df) st)
      as [->|(e & -> & Hid)]; simpl; [now apply IH|].
    constructor; [|now apply IH].
    rewrite Hid. intros Hin. apply Hst. apply in_map_iff in Hin.
    destruct Hin as (e' & He' & Hin). rewrite <- He'.
    now apply locate_ids_in with bus_df.
Qed.

Lemma lower_nonempty (s : string) : Text.lower s = "" -> s = "".
Proof. destruct s; [reflexivity|discriminate]. Qed.

Lemma namesake_located (rail_usage : list rail_station)
  (bus_df : list BusData.bus_row) (st : rail_station) (r : BusData.bus_row)
  (b : string) :
  In st rail_usage -> In r bus_df -> BusData.STOP r = Some b ->
  Text.lower b = Text.lower (STATION_NAME st) ->
  STATION_NAME st <> "" -> String.length (STATION_NAME st) < 200 ->
  exists e, In e (locate rail_usage bus_df)
            /\ loc_STOP_ID e = STOP_ID st
            /\ loc_STATION_NAME e = STATION_NAME st
            /\ (MATCH_SCORE e == 1)%Q.
Proof.
  intros Hst Hr Hs Hlow Hne Hlen.
  set (names := BusData.bus_stop_names bus_df).
  assert (Hb : In b names).
  { apply bus_stop_names_in. now exists r. }
  assert (H1 : (similar (STATION_NAME st) b == 1)%Q).
  { apply SimilarFacts.ratio_self_folded; [now symmetry|assumption]. }
  assert (Hel : eligible (STATION_NAME st) b).
  { split.
    - intros ->. simpl in Hlow. symmetry in Hlow.
      now apply lower_nonempty in Hlow.
    - right. rewrite H1. reflexivity. }
  assert (Hm : exists b' score,
             find_match (STATION_NAME st) names = (Some b', score)
             /\ (score == 1)%Q).
  { unfold find_match.
    pose proof (match_loop_result (STATION_NAME st) names None 0%Q) as H.
    inversion H as [Hle Heq|pre post b' Hn Hb' Hlt Hpre Hpost Heq].
    - specialize (Hle b Hb Hel). rewrite H1 in Hle. exfalso.
      apply (Qlt_not_le 0 1); [reflexivity|exact Hle].
    - exists b', (similar (STATION_NAME st) b'). split; [reflexivity|].
      apply Qle_antisym; [apply SimilarFacts.similar_range_bound|].
      rewrite <- H1. rewrite Hn in Hb.
      apply in_app_or in Hb. destruct Hb as [Hb|[<-|Hb]].
      + apply Qlt_le_weak. now apply Hpre.
      + apply Qle_refl.
      + now apply Hpost. }
  destruct Hm as (b' & score & Hm & Hscore).
  unfold names, BusData.bus_stop_names in Hm.
  destruct (locate_station_some (BusData.bus_stop_agg bus_df) st b' score Hm)
    as (e & He & Hid & Hn & _).
  assert (Hin : In e (locate_station (BusData.bus_stop_agg bus_df) st))
    by (rewrite He; now left).
  exists e. split.
  - unfold locate. apply in_flat_map. now exists st.
  - split; [assumption|]. split; [assumption|].
    apply locate_station_in in Hin. destruct Hin as (_ & _ & _ & Hm' & _).
    rewrite Hm in Hm'. injection Hm' as _ <-. exact Hscore.
Qed.

End ReconcilerFacts.

(** ** More on [groupby]: the groups partition the rows *)
Module GroupFacts.
Import Frames.

Lemma group_insert_perm {K V : Type} (eqb : K -> K -> bool) (k : K) (v : V)
  (groups : list (K * list V)) :
  Permutation (flat_map snd (group_insert eqb k v groups))
    (v :: flat_map snd groups).
Proof.
  induction groups as [|[k0 vs] rest IH]; cbn [group_insert flat_map snd].
  - reflexivity.
  - destruct (eqb k0 k); cbn [flat_map snd].
    + rewrite <- app_assoc. symmetry. apply Permutation_middle.
    + rewrite IH. symmetry. apply Permutation_middle.
Qed.

Lemma group_by_perm {K V : Type} (eqb : K -> K -> bool) (rows : list (K * V)) :
  Permutation (flat_map snd (group_by eqb rows)) (map snd rows).
Proof.
  unfold group_by.
  assert (G : forall groups,
             Permutation
               (flat_map snd
                  (fold_left
                     (fun g kv => group_insert eqb (fst kv) (snd kv) g)
                     rows groups))
               (flat_map snd groups ++ map snd rows)).
  { induction rows as [|kv rows IH]; intros groups; cbn [fold_left map].
    - now rewrite app_nil_r.
    - rewrite IH, group_insert_perm. apply Permutation_middle. }
  apply (G []).
Qed.

(** The values of a group are values of the rows. *)
Lemma group_values_in {K V : Type} (eqb : K -> K -> bool)
  (rows : list (K * V)) (k : K) (vs : list V) (v : V) :
  In (k, vs) (group_by eqb rows) -> In v vs -> In v (map snd rows).
Proof.
  intros Hg Hv. apply (Permutation_in _ (group_by_perm eqb rows)).
  apply in_flat_map. now exists (k, vs).
Qed.

Lemma group_insert_keys_of {K V : Type} (eqb : K -> K -> bool) (k : K) (v : V)
  (groups : list (K * list V)) :
  map fst (group_insert eqb k v groups)
  = if existsb (fun k' => eqb k' k) (map fst groups) then map fst groups
    else map fst groups ++ [k].
Proof.
  induction groups as [|[k0 vs] rest IH]; cbn [group_insert map fst existsb];
    [reflexivity|].
  destruct (eqb k0 k); cbn [map fst orb]; [reflexivity|].
  rewrite IH. now destruct (existsb (fun k' => eqb k' k) (map fst rest)).
Qed.

(** No two keys of the list are equal under [eqb]. *)
Definition distinct_keys {K : Type} (eqb : K -> K -> bool) (keys : list K)
  : Prop :=
  ForallOrdPairs (fun a b => eqb a b = false) keys.

Lemma distinct_keys_snoc {K : Type} (eqb : K -> K -> bool) (keys : list K)
  (k : K) :
  distinct_keys eqb keys -> existsb (fun k' => eqb k' k) keys = false ->
  distinct_keys eqb (keys ++ [k]).
Proof.
  unfold distinct_keys. induction 1 as [|a l Ha Hl IH]; cbn [existsb app].
  - intros _. repeat constructor.
  - intros E. apply orb_false_elim in E. destruct E as [E1 E2].
    constructor; [|now apply IH].
    apply Forall_app. split; [assumption|]. now repeat constructor.
Qed.

Lemma group_by_distinct {K V : Type} (eqb : K -> K -> bool)
  (rows : list (K * V)) :
  distinct_keys eqb (map fst (group_by eqb rows)).
Proof.
  unfold group_by.
  assert (G : forall groups,
             distinct_keys eqb (map fst groups) ->
             distinct_keys eqb
               (map fst
                  (fold_left
                     (fun g kv => group_insert eqb (fst kv) (snd kv) g)
                     rows groups))).
  { induction rows as [|kv rows IH]; intros groups H; cbn [fold_left];
      [assumption|].
    apply IH. rewrite group_insert_keys_of.
    destruct (existsb (fun k' => eqb k' (fst kv)) (map fst groups)) eqn:E;
      [assumption|].
    now apply distinct_keys_snoc. }
  apply G. constructor.
Qed.

Lemma distinct_keys_nodup {K : Type} (eqb : K -> K -> bool) (keys : list K) :
  (forall k, eqb k k = true) -> distinct_keys eqb keys -> NoDup keys.
Proof.
  intros Hrefl. induction 1 as [|a l Ha Hl IH]; constructor; [|assumption].
  intros Hin. rewrite Forall_forall in Ha. specialize (Ha a Hin).
  now rewrite Hrefl in Ha.
Qed.

Section Equivalence.
Context {K V : Type} (eqb : K -> K -> bool).
Hypothesis eqb_refl : forall x, eqb x x = true.
Hypothesis eqb_sym : forall x y, eqb x y = eqb y x.
Hypothesis eqb_trans :
  forall x y z, eqb x y = true -> eqb y z = true -> eqb x z = true.

Lemma distinct_lookup {W : Type} (k : K) (w : W) (l : list (K * W)) :
  distinct_keys eqb (map fst l) -> In (k, w) l -> lookup eqb k l = Some w.
Proof.
  unfold distinct_keys.
  induction l as [|[k0 w0] l IH]; cbn [map fst lookup]; [intros _ []|].
  intros H. inversion H as [|? ? Ha Hl]; subst.
  intros [[= -> ->]|Hin].
  - now rewrite eqb_refl.
  - rewrite Forall_forall in Ha.
    rewrite (Ha k) by (apply in_map_iff; now exists (k, w)).
    now apply IH.
Qed.

(** Under an equivalence of keys, a group holds the values of the rows
    whose key is equivalent to its own, in row order, and is not empty. *)
Lemma group_by_in_class (rows : list (K * V)) (k : K) (vs : list V) :
  In (k, vs) (group_by eqb rows) ->
  vs = values_of eqb k rows /\ vs <> [].
Proof.
  intros H.
  apply (distinct_lookup _ _ _ (group_by_distinct eqb rows)) in H.
  rewrite (lookup_group_by eqb eqb_sym eqb_trans) in H.
  destruct (values_of eqb k rows); [discriminate|].
  injection H as <-. split; [reflexivity|discriminate].
Qed.

End Equivalence.

End GroupFacts.

(** ** More on rounding to a number of decimals *)
Module RoundFacts.
Import Frames.

(** Half a unit of the last decimal kept: [0.5 / 10^decimals]. *)
Definition half_step (decimals : nat) : Q :=
  ((1 # 2) / inject_Z (pow10 decimals))%Q.

Lemma rint_close (x : Q) :
  (inject_Z (rint x) - x <= 1 # 2)%Q /\ (x - inject_Z (rint x) <= 1 # 2)%Q.
Proof.
  unfold rint.
  pose proof (Qfloor_le x) as Hlo. pose proof (Qlt_floor x) as Hhi.
  rewrite inject_Z_plus in Hhi. change (inject_Z 1) with 1%Q in Hhi.
  destruct (Qcompare_spec ((x - inject_Z (Qfloor x)) * 2) 1) as [E|L|G].
  - destruct (Z.even (Qfloor x)).
    + split; lra.
    + rewrite inject_Z_plus. change (inject_Z 1) with 1%Q. split; lra.
  - split; lra.
  - rewrite inject_Z_plus. change (inject_Z 1) with 1%Q. split; lra.
Qed.

Lemma rint_monotone (x y : Q) : (x <= y)%Q -> (rint x <= rint y)%Z.
Proof.
  intros Hxy.
  assert (Hf : (Qfloor x <= Qfloor y)%Z) by now apply Qfloor_resp_le.
  destruct (Z.eq_dec (Qfloor x) (Qfloor y)) as [E|N].
  - unfold rint. rewrite <- E.
    destruct (Qcompare_spec ((x - inject_Z (Qfloor x)) * 2) 1) as [Ex|Lx|Gx];
      destruct (Qcompare_spec ((y - inject_Z (Qfloor x)) * 2) 1) as [Ey|Ly|Gy];
      try destruct (Z.even (Qfloor x)); try lia; exfalso; lra.
  - assert (Hlt : (Qfloor x + 1 <= Qfloor y)%Z) by lia.
    assert (Hx : (rint x <= Qfloor x + 1)%Z).
    { unfold rint. destruct (Qcompare _ _); try destruct (Z.even _); lia. }
    assert (Hy : (Qfloor y <= rint y)%Z).
    { unfold rint. destruct (Qcompare _ _); try destruct (Z.even _); lia. }
    lia.
Qed.

Lemma rint_integer (z : Z) : rint (inject_Z z) = z.
Proof.
  unfold rint. rewrite Qfloor_Z.
  destruct (Qcompare_spec ((inject_Z z - inject_Z z) * 2) 1) as [E|L|G].
  - exfalso. lra.
  - reflexivity.
  - exfalso. lra.
Qed.

Lemma pow10_pos (decimals : nat) : (0 < inject_Z (pow10 decimals))%Q.
Proof.
  change 0%Q with (inject_Z 0). rewrite <- Zlt_Qlt. unfold pow10.
  apply Z.pow_pos_nonneg; lia.
Qed.

Lemma half_step_pos (decimals : nat) : (0 < half_step decimals)%Q.
Proof.
  unfold half_step. apply Qlt_shift_div_l; [apply pow10_pos|reflexivity].
Qed.

(** Rounding moves a number by half a unit of the last decimal at most. *)
Lemma round_to_close (x : Q) (decimals : nat) :
  (Qabs (round_to x decimals - x) <= half_step decimals)%Q.
Proof.
  unfold round_to, unscale, round_scaled, half_step.
  pose proof (pow10_pos decimals) as HP.
  destruct (rint_close (x * inject_Z (pow10 decimals))) as [H1 H2].
  set (P := inject_Z (pow10 decimals)) in *.
  set (r := inject_Z (rint (x * P))) in *.
  assert (E : (r / P - x == (r - x * P) / P)%Q) by (field; lra).
  rewrite E. apply Qabs_Qle_condition. split.
  - apply Qle_shift_div_l; [assumption|].
    assert (E' : (- ((1 # 2) / P) * P == - (1 # 2))%Q) by (field; lra).
    rewrite E'. lra.
  - apply Qle_shift_div_r; [assumption|].
    assert (E' : ((1 # 2) / P * P == 1 # 2)%Q) by (field; lra).
    rewrite E'. lra.
Qed.

Lemma unscale_lt (z1 z2 : Z) (decimals : nat) :
  (z1 < z2)%Z -> (unscale z1 decimals < unscale z2 decimals)%Q.
Proof.
  intros H. unfold unscale. pose proof (pow10_pos decimals) as HP.
  apply Qlt_shift_div_l; [assumption|].
  assert (E : (inject_Z z1 / inject_Z (pow10 decimals)
               * inject_Z (pow10 decimals) == inject_Z z1)%Q) by (field; lra).
  rewrite E. now rewrite <- Zlt_Qlt.
Qed.

Lemma unscale_le (z1 z2 : Z) (decimals : nat) :
  (z1 <= z2)%Z -> (unscale z1 decimals <= unscale z2 decimals)%Q.
Proof.
  intros H. destruct (Z.eq_dec z1 z2) as [->|N]; [apply Qle_refl|].
  apply Qlt_le_weak, unscale_lt. lia.
Qed.

Lemma round_to_monotone (x y : Q) (decimals : nat) :
  (x <= y)%Q -> (round_to x decimals <= round_to y decimals)%Q.
Proof.
  intros H. unfold round_to, round_scaled. apply unscale_le, rint_monotone.
  apply Qmult_le_compat_r; [assumption|].
  apply Qlt_le_weak, pow10_pos.
Qed.

(** A number that has no more decimals than are kept is left as it is. *)
Lemma round_to_fixed (z : Z) (decimals : nat) :
  round_scaled (unscale z decimals) decimals = z.
Proof.
  unfold round_scaled, unscale. pose proof (pow10_pos decimals) as HP.
  assert (E : (inject_Z z / inject_Z (pow10 decimals)
               * inject_Z (pow10 decimals) == inject_Z z)%Q) by (field; lra).
  unfold rint.
  assert (F : Qfloor (inject_Z z / inject_Z (pow10 decimals)
                      * inject_Z (pow10 decimals)) = z).
  { rewrite E. apply Qfloor_Z. }
  rewrite F.
  destruct (Qcompare_spec
              ((inject_Z z / inject_Z (pow10 decimals)
                * inject_Z (pow10 decimals) - inject_Z z) * 2) 1) as [H|H|H].
  - exfalso. rewrite E in H. lra.
  - reflexivity.
  - exfalso. rewrite E in H. lra.
Qed.

End RoundFacts.

(** ** More on the hotspots: their order *)
Module ClustererFacts.
Import Frames Clusterer RoundFacts.

(** *** The order of the hotspots *)

(** The order of the rows of a [groupby] on latitude and longitude. *)
Definition south_west_of (h1 h2 : hotspot) : Prop :=
  (LAT_R h1 < LAT_R h2)%Q
  \/ ((LAT_R h1 == LAT_R h2)%Q /\ (LON_R h1 < LON_R h2)%Q).

Lemma key_leb_total (k1 k2 : Z * Z) :
  key_leb k1 k2 = true \/ key_leb k2 k1 = true.
Proof.
  unfold key_leb. destruct k1 as [a b], k2 as [c d]. cbn [fst snd].
  destruct (Z.ltb_spec a c); [now left|].
  destruct (Z.ltb_spec c a); [now right|].
  assert (a = c) by lia. subst c. rewrite Z.eqb_refl. cbn [orb andb].
  destruct (Z.leb_spec b d); [now left|right]. apply Z.leb_le. lia.
Qed.

Lemma key_leb_spec (k1 k2 : Z * Z) :
  key_leb k1 k2 = true
  <-> (fst k1 < fst k2)%Z \/ (fst k1 = fst k2 /\ (snd k1 <= snd k2)%Z).
Proof.
  unfold key_leb.
  rewrite orb_true_iff, andb_true_iff, Z.ltb_lt, Z.eqb_eq, Z.leb_le.
  reflexivity.
Qed.

Lemma key_leb_trans (k1 k2 k3 : Z * Z) :
  key_leb k1 k2 = true -> key_leb k2 k3 = true -> key_leb k1 k3 = true.
Proof. rewrite !key_leb_spec. lia. Qed.

Lemma sorted_strict {A B : Type} (R : A -> A -> Prop) (f : A -> B)
  (l : list A) :
  StronglySorted R l -> NoDup (map f l) ->
  StronglySorted (fun a b => R a b /\ f a <> f b) l.
Proof.
  induction 1 as [|x l Hs IH Hx]; intros Hnd; [constructor|].
  cbn [map] in Hnd. inversion Hnd as [|? ? Hnin Hnd']; subst.
  constructor; [now apply IH|].
  rewrite Forall_forall in *. intros y Hy. split; [now apply Hx|].
  intros E. apply Hnin. rewrite E. now apply in_map.
Qed.

Lemma sorted_map {A B : Type} (R : B -> B -> Prop) (f : A -> B) (l : list A) :
  StronglySorted (fun a b => R (f a) (f b)) l -> StronglySorted R (map f l).
Proof.
  induction 1 as [|x l Hs IH Hx]; cbn [map]; constructor; [assumption|].
  rewrite Forall_forall in *. intros y Hy. apply in_map_iff in Hy.
  destruct Hy as (a & <- & Ha). now apply Hx.
Qed.

Lemma sorted_impl {A : Type} (R R' : A -> A -> Prop) (l : list A) :
  (forall a b, R a b -> R' a b) -> StronglySorted R l -> StronglySorted R' l.
Proof.
  intros HR. induction 1 as [|x l Hs IH Hx]; constructor; [assumption|].
  rewrite Forall_forall in *. intros y Hy. apply HR. now apply Hx.
Qed.

Lemma sorted_filter {A : Type} (R : A -> A -> Prop) (p : A -> bool)
  (l : list A) :
  StronglySorted R l -> StronglySorted R (filter p l).
Proof.
  induction 1 as [|x l Hs IH Hx]; cbn [filter]; [constructor|].
  destruct (p x); [|assumption]. constructor; [assumption|].
  rewrite Forall_forall in *. intros y Hy. apply filter_In in Hy.
  now apply Hx.
Qed.

Lemma cells_sorted (bus_df : list BusData.bus_row) (decimals : nat) :
  StronglySorted
    (fun g1 g2 => key_leb (fst g1) (fst g2) = true /\ fst g1 <> fst g2)
    (cells bus_df decimals).
Proof.
  apply sorted_strict; [|apply cells_nodup].
  unfold cells.
  apply (sort_on_sorted (fun g1 g2 => key_leb (fst g1) (fst g2))).
  - intros x y. apply key_leb_total.
  - intros x y z. apply key_leb_trans.
Qed.

(** X11: the hotspots come in the order of their grid cells, by latitude
    and then by longitude, and no two of them lie in the same cell. *)
Theorem hotspots_in_cell_order (bus_df : list BusData.bus_row)
  (decimals : nat) (min_boardings : Q) :
  StronglySorted south_west_of (cluster bus_df decimals min_boardings).
Proof.
  unfold cluster. apply sorted_filter, sorted_map.
  apply sorted_impl with (2 := cells_sorted bus_df decimals).
  intros [[a b] v1] [[c d] v2] [Hle Hne]. cbn [fst snd] in *.
  apply key_leb_spec in Hle. cbn [fst snd] in Hle.
  unfold south_west_of, aggregate_cell. cbn [LAT_R LON_R fst snd].
  destruct Hle as [Hlt|[-> Hle]].
  - left. now apply unscale_lt.
  - right. split; [reflexivity|]. apply unscale_lt.
    assert (b <> d) by congruence. lia.
Qed.

End ClustererFacts.

(** ** More on the gap analysis: the nearest station, the thresholds *)
Module GapFacts.
Import Frames GapAnalyzer RoundFacts.

Section Nearest.

Variable haversine_miles : Q -> Q -> Q -> Q -> option Q.

(** The distance from a hotspot to a located station, as the loop calls
    [haversine_miles]. *)
Definition distance_to (b : Clusterer.hotspot) (r : Reconciler.rail_location)
  : option Q :=
  haversine_miles (Clusterer.LON_R b) (Clusterer.LAT_R b)
    (Reconciler.LON r) (Reconciler.LAT r).

(** [r] is the first station of [rail_loc_df] at the least distance [m]. *)
Definition first_nearest (b : Clusterer.hotspot)
  (rail_loc_df : list Reconciler.rail_location)
  (r : Reconciler.rail_location) (m : Q) : Prop :=
  exists earlier later,
    rail_loc_df = earlier ++ r :: later
    /\ distance_to b r = Some m
    /\ (forall r' d, In r' earlier -> distance_to b r' = Some d -> (m < d)%Q)
    /\ (forall r' d, In r' later -> distance_to b r' = Some d -> (m <= d)%Q).

Lemma lt_dist_false (d : Q) (min_dist : option Q) :
  lt_dist d min_dist = false <-> exists i, min_dist = Some i /\ (i <= d)%Q.
Proof.
  destruct min_dist as [i|]; cbn [lt_dist].
  - split.
    + intros E. exists i. split; [reflexivity|].
      apply Qnot_lt_le. intros L. apply BusData.Qlt_bool_iff in L. congruence.
    + intros (i' & [= <-] & Hle).
      destruct (BusData.Qlt_bool d i) eqn:E; [|reflexivity].
      apply BusData.Qlt_bool_iff in E. exfalso. lra.
  - split; [discriminate|]. intros (i & [=] & _).
Qed.

Lemma lt_dist_true (d : Q) (min_dist : option Q) :
  lt_dist d min_dist = true <-> forall i, min_dist = Some i -> (d < i)%Q.
Proof.
  destruct min_dist as [i|]; cbn [lt_dist].
  - rewrite BusData.Qlt_bool_iff. split.
    + now intros H i' [= <-].
    + intros H. now apply H.
  - split; [discriminate|reflexivity].
Qed.

(** What the nearest-station loop returns from given accumulators: it
    leaves them as they are when no station is nearer, and otherwise holds
    the first station at the least distance. *)
Lemma nearest_loop_first (b : Clusterer.hotspot)
  (rail_loc_df : list Reconciler.rail_location) :
  forall min_dist nearest_station,
    let res :=
      nearest_loop haversine_miles (Clusterer.LON_R b) (Clusterer.LAT_R b)
        rail_loc_df min_dist nearest_station in
    (res = (min_dist, nearest_station)
     /\ forall r d, In r rail_loc_df -> distance_to b r = Some d ->
                    lt_dist d min_dist = false)
    \/ exists r m,
        first_nearest b rail_loc_df r m
        /\ res = (Some m, Some (Reconciler.loc_STATION_NAME r))
        /\ lt_dist m min_dist = true.
Proof.
  induction rail_loc_df as [|r rest IH]; intros min_dist nearest_station;
    cbn [nearest_loop].
  - left. split; [reflexivity|]. intros r d [].
  - fold (distance_to b r). destruct (distance_to b r) as [d|] eqn:Ed.
    + destruct (lt_dist d min_dist) eqn:El.
      * right.
        destruct (IH (Some d) (Some (Reconciler.loc_STATION_NAME r)))
          as [[Hres Hall]|(r' & m & (pre & post & Hsplit & Hm & Hpre & Hpost)
                           & Hres & Hlt)].
        -- exists r, d. split; [|split; [exact Hres|exact El]].
           exists [], rest. split; [reflexivity|]. split; [exact Ed|].
           split; [intros r' d' []|].
           intros r' d' Hr' Hd'. specialize (Hall r' d' Hr' Hd').
           apply lt_dist_false in Hall. destruct Hall as (i & [= <-] & Hle).
           exact Hle.
        -- exists r', m. cbn [lt_dist] in Hlt.
           apply BusData.Qlt_bool_iff in Hlt.
           split; [|split; [exact Hres|]].
           ++ exists (r :: pre), post. split; [now rewrite Hsplit|].
              split; [exact Hm|]. split; [|exact Hpost].
              intros r0 d0 [<-|Hr0] Hd0.
              ** rewrite Ed in Hd0. injection Hd0 as <-. exact Hlt.
              ** now apply (Hpre r0).
           ++ apply lt_dist_true. intros i Hi.
              apply (proj1 (lt_dist_true d min_dist) El) in Hi. lra.
      * apply lt_dist_false in El. destruct El as (i & -> & Hid).
        destruct (IH (Some i) nearest_station)
          as [[Hres Hall]|(r' & m & (pre & post & Hsplit & Hm & Hpre & Hpost)
                           & Hres & Hlt)].
        -- left. split; [exact Hres|].
           intros r0 d0 [<-|Hr0] Hd0; [|now apply (Hall r0)].
           rewrite Ed in Hd0. injection Hd0 as <-.
           apply lt_dist_false. now exists i.
        -- right. exists r', m. split; [|split; [exact Hres|exact Hlt]].
           cbn [lt_dist] in Hlt. apply BusData.Qlt_bool_iff in Hlt.
           exists (r :: pre), post. split; [now rewrite Hsplit|].
           split; [exact Hm|]. split; [|exact Hpost].
           intros r0 d0 [<-|Hr0] Hd0.
           ++ rewrite Ed in Hd0. injection Hd0 as <-. lra.
           ++ now apply (Hpre r0).
    + destruct (IH min_dist nearest_station)
        as [[Hres Hall]|(r' & m & (pre & post & Hsplit & Hm & Hpre & Hpost)
                         & Hres & Hlt)].
      * left. split; [exact Hres|].
        intros r0 d0 [<-|Hr0] Hd0; [congruence|now apply (Hall r0)].
      * right. exists r', m. split; [|split; [exact Hres|exact Hlt]].
        exists (r :: pre), post. split; [now rewrite Hsplit|].
        split; [exact Hm|]. split; [|exact Hpost].
        intros r0 d0 [<-|Hr0] Hd0; [congruence|now apply (Hpre r0)].
Qed.

(** X13: the entry of a candidate names the first located station at the
    least distance, with that distance rounded to 2 decimals and above the
    minimum distance before rounding; when no distance to a station could
    be computed it holds the placeholder and no distance. *)
Theorem nearest_rail_is_first_nearest (min_boardings min_distance : Q)
  (rail_loc_df : list Reconciler.rail_location) (b : Clusterer.hotspot) :
  Forall (fun c =>
            (Nearest_Rail c = Some "None" /\ Distance_Miles c = None
             /\ forall r, In r rail_loc_df -> distance_to b r = None)
            \/ exists r m,
                first_nearest b rail_loc_df r m
                /\ (min_distance < m)%Q
                /\ Nearest_Rail c = Some (Reconciler.loc_STATION_NAME r)
                /\ Distance_Miles c = Some (round_to m 2))
    (candidate_of haversine_miles min_boardings min_distance rail_loc_df b).
Proof.
  unfold candidate_of.
  destruct (nearest_loop_first b rail_loc_df None None)
    as [[Hres Hall]|(r & m & Hfirst & Hres & _)]; rewrite Hres.
  - destruct (Qle_bool _ _ && gt_dist None min_distance); constructor;
      [|constructor].
    left. split; [reflexivity|]. split; [reflexivity|].
    intros r Hr. destruct (distance_to b r) as [d|] eqn:Ed; [|reflexivity].
    specialize (Hall r d Hr Ed). discriminate.
  - destruct (Qle_bool min_boardings (Clusterer.SUM_PASSENGERS_ON b));
      cbn [andb gt_dist]; [|constructor].
    destruct (BusData.Qlt_bool min_distance m) eqn:E; constructor;
      [|constructor].
    right. exists r, m. split; [exact Hfirst|].
    split; [now apply BusData.Qlt_bool_iff|]. now split.
Qed.

Lemma candidate_of_stricter (min_boardings min_boardings' : Q)
  (min_distance min_distance' : Q)
  (rail_loc_df : list Reconciler.rail_location) (b : Clusterer.hotspot)
  (c : candidate) :
  (min_boardings <= min_boardings')%Q -> (min_distance <= min_distance')%Q ->
  In c (candidate_of haversine_miles min_boardings' min_distance' rail_loc_df b) ->
  In c (candidate_of haversine_miles min_boardings min_distance rail_loc_df b).
Proof.
  intros Hb Hd. unfold candidate_of.
  destruct (nearest_loop _ _ _ rail_loc_df None None) as [md ns].
  destruct (Qle_bool min_boardings' (Clusterer.SUM_PASSENGERS_ON b)) eqn:E1;
    cbn [andb]; [|intros []].
  destruct (gt_dist md min_distance') eqn:E2; [|intros []].
  apply Qle_bool_iff in E1.
  assert (E1' : Qle_bool min_boardings (Clusterer.SUM_PASSENGERS_ON b) = true).
  { apply Qle_bool_iff. lra. }
  assert (E2' : gt_dist md min_distance = true).
  { destruct md as [m|]; cbn [gt_dist] in *; [|reflexivity].
    apply BusData.Qlt_bool_iff in E2. apply BusData.Qlt_bool_iff. lra. }
  now rewrite E1', E2'.
Qed.

(** X14: raising the minimum boardings or the minimum distance never adds a
    candidate: every candidate under the stricter thresholds is, with the
    same entry, a candidate under the weaker ones. *)
Theorem stricter_thresholds_fewer_candidates
  (min_boardings min_boardings' min_distance min_distance' : Q)
  (bus_hotspots : list Clusterer.hotspot)
  (rail_loc_df : list Reconciler.rail_location) :
  (min_boardings <= min_boardings')%Q -> (min_distance <= min_distance')%Q ->
  incl (potential_stations haversine_miles min_boardings' min_distance'
          bus_hotspots rail_loc_df)
       (potential_stations haversine_miles min_boardings min_distance
          bus_hotspots rail_loc_df).
Proof.
  intros Hb Hd c. unfold potential_stations. rewrite !in_flat_map.
  intros (b & Hin & Hc). exists b. split; [assumption|].
  now apply candidate_of_stricter with min_boardings' min_distance'.
Qed.

Lemma distances_in (b : Clusterer.hotspot)
  (rail_loc_df : list Reconciler.rail_location) (d : Q) :
  In d (distances haversine_miles b rail_loc_df)
  <-> exists r, In r rail_loc_df /\ distance_to b r = Some d.
Proof.
  unfold distances. rewrite in_flat_map. unfold distance_to. split.
  - intros (r & Hr & Hd). exists r. split; [assumption|].
    destruct (haversine_miles _ _ _ _) as [d'|]; [|destruct Hd].
    destruct Hd as [->|[]]. reflexivity.
  - intros (r & Hr & Hd). exists r. split; [assumption|].
    rewrite Hd. now left.
Qed.

Lemma candidate_of_fewer_stations (min_boardings min_distance : Q)
  (rail1 rail2 : list Reconciler.rail_location) (b : Clusterer.hotspot) :
  incl rail1 rail2 ->
  candidate_of haversine_miles min_boardings min_distance rail2 b <> [] ->
  candidate_of haversine_miles min_boardings min_distance rail1 b <> [].
Proof.
  intros Hincl. rewrite !candidate_of_nonempty. intros [Hb Hfar].
  split; [assumption|].
  assert (Hsub : forall d, In d (distances haversine_miles b rail1) ->
                           In d (distances haversine_miles b rail2)).
  { intros d. rewrite !distances_in. intros (r & Hr & Hd).
    exists r. split; [now apply Hincl|assumption]. }
  destruct (distances haversine_miles b rail1) as [|d1 ds1] eqn:E1;
    [now left|right].
  destruct (MeanFacts.least_element (d1 :: ds1) ltac:(discriminate))
    as (m1 & Hm1 & Hle1).
  exists m1. split; [now split|].
  destruct Hfar as [Hnil|(m2 & [_ Hle2] & Hlt)].
  - specialize (Hsub m1 Hm1). rewrite Hnil in Hsub. destruct Hsub.
  - apply Qlt_le_trans with m2; [assumption|]. apply Hle2. now apply Hsub.
Qed.

Lemma candidate_of_length (min_boardings min_distance : Q)
  (rail_loc_df : list Reconciler.rail_location) (b : Clusterer.hotspot) :
  List.length (candidate_of haversine_miles min_boardings min_distance
                 rail_loc_df b)
  = if match candidate_of haversine_miles min_boardings min_distance
                 rail_loc_df b with [] => true | _ => false end
    then 0 else 1.
Proof.
  destruct (candidate_of_entry haversine_miles min_boardings min_distance
              rail_loc_df b) as [->|(c & -> & _)]; reflexivity.
Qed.

(** X15: locating more rail stations never adds a candidate: a hotspot that
    is a candidate with the larger list of located stations is one with the
    smaller list, and the number of candidates does not grow. *)
Theorem more_stations_fewer_candidates (min_boardings min_distance : Q)
  (bus_hotspots : list Clusterer.hotspot)
  (rail1 rail2 : list Reconciler.rail_location) :
  incl rail1 rail2 ->
  (forall b,
      candidate_of haversine_miles min_boardings min_distance rail2 b <> [] ->
      candidate_of haversine_miles min_boardings min_distance rail1 b <> [])
  /\ List.length (potential_stations haversine_miles min_boardings
                    min_distance bus_hotspots rail2)
     <= List.length (potential_stations haversine_miles min_boardings
                       min_distance bus_hotspots rail1).
Proof.
  intros Hincl. split.
  - intros b. now apply candidate_of_fewer_stations.
  - unfold potential_stations.
    induction bus_hotspots as [|b hs IH]; cbn [flat_map]; [lia|].
    rewrite !length_app.
    pose proof (candidate_of_fewer_stations min_boardings min_distance
                  rail1 rail2 b Hincl) as H.
    rewrite !candidate_of_length.
    destruct (candidate_of haversine_miles min_boardings min_distance rail2 b);
      destruct (candidate_of haversine_miles min_boardings min_distance rail1 b);
      try lia.
    exfalso. now apply H.
Qed.

Lemma flat_map_filter_skip {A B : Type} (f : A -> list B) (p : A -> bool)
  (l : list A) :
  (forall x, In x l -> p x = false -> f x = []) ->
  flat_map f (filter p l) = flat_map f l.
Proof.
  induction l as [|x l IH]; intros H; [reflexivity|]. cbn [filter flat_map].
  assert (IH' : flat_map f (filter p l) = flat_map f l).
  { apply IH. intros y Hy. apply H. now right. }
  destruct (p x) eqn:E; cbn [flat_map]; rewrite IH'; [reflexivity|].
  now rewrite (H x (or_introl eq_refl) E).
Qed.

Lemma candidate_of_below (min_boardings min_distance : Q)
  (rail_loc_df : list Reconciler.rail_location) (b : Clusterer.hotspot) :
  (Clusterer.SUM_PASSENGERS_ON b < min_boardings)%Q ->
  candidate_of haversine_miles min_boardings min_distance rail_loc_df b = [].
Proof.
  intros H. unfold candidate_of.
  destruct (nearest_loop _ _ _ rail_loc_df None None) as [md ns].
  destruct (Qle_bool min_boardings (Clusterer.SUM_PASSENGERS_ON b)) eqn:E;
    [|reflexivity].
  apply Qle_bool_iff in E. exfalso. lra.
Qed.

Lemma potential_of_cluster (bus_df : list BusData.bus_row) (decimals : nat)
  (hotspot_min candidate_min min_distance : Q)
  (rail_loc_df : list Reconciler.rail_location) :
  (hotspot_min <= candidate_min)%Q ->
  potential_stations haversine_miles candidate_min min_distance
    (Clusterer.cluster bus_df decimals hotspot_min) rail_loc_df
  = potential_stations haversine_miles candidate_min min_distance
      (map (Clusterer.aggregate_cell decimals) (Clusterer.cells bus_df decimals))
      rail_loc_df.
Proof.
  intros H. unfold potential_stations, Clusterer.cluster.
  apply flat_map_filter_skip. intros h _ E. apply candidate_of_below.
  destruct (Qlt_le_dec (Clusterer.SUM_PASSENGERS_ON h) candidate_min)
    as [L|L]; [assumption|].
  assert (E' : Qle_bool hotspot_min (Clusterer.SUM_PASSENGERS_ON h) = true).
  { apply Qle_bool_iff. lra. }
  congruence.
Qed.

(** X16: as long as the hotspot minimum does not exceed the candidate
    minimum it has no effect on the candidates: two hotspot minimums at or
    below the candidate minimum give the same list of candidates. *)
Theorem hotspot_minimum_is_subsumed (bus_df : list BusData.bus_row)
  (decimals : nat) (hotspot_min hotspot_min' candidate_min min_distance : Q)
  (rail_loc_df : list Reconciler.rail_location) :
  (hotspot_min <= candidate_min)%Q -> (hotspot_min' <= candidate_min)%Q ->
  potential_stations haversine_miles candidate_min min_distance
    (Clusterer.cluster bus_df decimals hotspot_min) rail_loc_df
  = potential_stations haversine_miles candidate_min min_distance
      (Clusterer.cluster bus_df decimals hotspot_min') rail_loc_df.
Proof.
  intros H H'. now rewrite !potential_of_cluster.
Qed.

Lemma candidate_distance (min_boardings min_distance : Q)
  (rail_loc_df : list Reconciler.rail_location) (b : Clusterer.hotspot)
  (c : candidate) :
  In c (candidate_of haversine_miles min_boardings min_distance rail_loc_df b) ->
  Distance_Miles c = None
  \/ exists m, (min_distance < m)%Q /\ Distance_Miles c = Some (round_to m 2).
Proof.
  unfold candidate_of.
  destruct (nearest_loop _ _ _ rail_loc_df None None) as [md ns].
  destruct (Qle_bool min_boardings (Clusterer.SUM_PASSENGERS_ON b));
    cbn [andb]; [|intros []].
  destruct (gt_dist md min_distance) eqn:E; [|intros []].
  intros [<-|[]]. cbn [Distance_Miles].
  destruct md as [m|]; [right|now left]. cbn [gt_dist] in E.
  apply BusData.Qlt_bool_iff in E. now exists m.
Qed.

(** X17: the distance shown for a candidate is the least distance rounded
    to 2 decimals: it is above the minimum distance less half a hundredth,
    and it is not below a minimum distance that has no more than 2
    decimals. *)
Theorem shown_distance_above_minimum (min_boardings min_distance : Q)
  (bus_hotspots : list Clusterer.hotspot)
  (rail_loc_df : list Reconciler.rail_location) :
  Forall (fun c =>
            forall d, Distance_Miles c = Some d ->
                      (min_distance - half_step 2 < d)%Q
                      /\ forall hundredths,
                           (min_distance == unscale hundredths 2)%Q ->
                           (min_distance <= d)%Q)
    (potential_stations haversine_miles min_boardings min_distance
       bus_hotspots rail_loc_df).
Proof.
  apply Forall_forall. intros c Hc d Hd.
  unfold potential_stations in Hc. apply in_flat_map in Hc.
  destruct Hc as (b & _ & Hc).
  destruct (candidate_distance min_boardings min_distance rail_loc_df b c Hc)
    as [Hnone|(m & Hlt & Hm)].
  - congruence.
  - rewrite Hm in Hd. injection Hd as <-. split.
    + pose proof (round_to_close m 2) as Hclose.
      apply Qabs_Qle_condition in Hclose. lra.
    + intros z Hz.
      assert (Hfix : round_to (unscale z 2) 2 = unscale z 2).
      { unfold round_to. now rewrite round_to_fixed. }
      rewrite Hz, <- Hfix. apply round_to_monotone. lra.
Qed.

End Nearest.

(** A located station, and a distance function that puts every station at
    2 miles. *)
Definition sample_station : Reconciler.rail_location :=
  {| Reconciler.loc_STOP_ID := RailUsage.S_ "B03";
     Reconciler.loc_STATION_NAME := "Union Station";
     Reconciler.RAIL_BOARDINGS := 1000;
     Reconciler.LAT := Qmake 3892 100;
     Reconciler.LON := Qmake (-7703) 100;
     Reconciler.MATCHED_STOP := "Union Station";
     Reconciler.MATCH_SCORE := 1 |}.

Definition two_miles : Q -> Q -> Q -> Q -> option Q := fun _ _ _ _ => Some 2%Q.

Lemma stricter_thresholds_fewer_candidates_witness :
  (500 <= 501)%Q /\ (1 <= 3 # 2)%Q
  /\ incl (potential_stations two_miles 501 (3 # 2) (numbered_hotspots 3)
             [sample_station])
          (potential_stations two_miles 500 1 (numbered_hotspots 3)
             [sample_station]).
Proof.
  assert (H1 : (500 <= 501)%Q) by discriminate.
  assert (H2 : (1 <= 3 # 2)%Q) by discriminate.
  split; [exact H1|]. split; [exact H2|].
  exact (stricter_thresholds_fewer_candidates two_miles 500 501 1 (3 # 2)
           (numbered_hotspots 3) [sample_station] H1 H2).
Defined.

Lemma more_stations_fewer_candidates_witness :
  incl [] [sample_station]
  /\ (forall b,
        candidate_of two_miles 500 1 [sample_station] b <> [] ->
        candidate_of two_miles 500 1 [] b <> [])
  /\ List.length (potential_stations two_miles 500 1 (numbered_hotspots 3)
                    [sample_station])
     <= List.length (potential_stations two_miles 500 1 (numbered_hotspots 3)
                       []).
Proof.
  assert (H : incl [] [sample_station]) by (intros x []).
  split; [exact H|].
  exact (more_stations_fewer_candidates two_miles 500 1 (numbered_hotspots 3)
           [] [sample_station] H).
Defined.

Definition sample_bus_rows : list BusData.bus_row :=
  [Clusterer.obs "7th St" (Clusterer.q 3890001 100000)
     (Clusterer.q (-7703001) 100000) 260 "70";
   Clusterer.obs "7th St" (Clusterer.q 3890004 100000)
     (Clusterer.q (-7703004) 100000) 270 "79";
   Clusterer.obs "9th St" (Clusterer.q 3891 100) (Clusterer.q (-7704) 100)
     150 "70"].

Lemma hotspot_minimum_is_subsumed_witness :
  (100 <= 500)%Q /\ (0 <= 500)%Q
  /\ potential_stations two_miles 500 1
       (Clusterer.cluster sample_bus_rows 4 100) [sample_station]
     = potential_stations two_miles 500 1
         (Clusterer.cluster sample_bus_rows 4 0) [sample_station].
Proof.
  assert (H1 : (100 <= 500)%Q) by discriminate.
  assert (H2 : (0 <= 500)%Q) by discriminate.
  split; [exact H1|]. split; [exact H2|].
  exact (hotspot_minimum_is_subsumed two_miles sample_bus_rows 4 100 0 500 1
           [sample_station] H1 H2).
Defined.

(** With the rows above: two hotspots at minimum 0, one at minimum 200,
    and a single candidate. *)
Example subsumed_minimum_example :
  List.length (Clusterer.cluster sample_bus_rows 4 0) = 2
  /\ List.length (Clusterer.cluster sample_bus_rows 4 200) = 1
  /\ map (fun c => (Name c, Qred (Bus_Boardings c)))
       (potential_stations two_miles 500 1
          (Clusterer.cluster sample_bus_rows 4 0) [sample_station])
     = [(Some "7th St", 530%Q)].
Proof. vm_compute. repeat split. Qed.

End GapFacts.

(** ** More on the rail aggregation: the figures of the stations *)
Module RailFacts.
Import Frames RailUsage GroupFacts.

Lemma cell_eqb_refl (x : cell) : cell_eqb x x = true.
Proof.
  destruct x as [|p|s n d]; cbn [cell_eqb].
  - reflexivity.
  - now apply Qeq_bool_iff.
  - apply String.eqb_refl.
Qed.

Lemma map_fst_summary {K V W : Type} (f : list V -> W)
  (groups : list (K * list V)) :
  map fst (map (fun g => (fst g, f (snd g))) groups) = map fst groups.
Proof. rewrite map_map. now apply map_ext. Qed.

(** X18: in the combined rail table every station identifier occurs once:
    no two rows have equal identifiers. *)
Theorem station_ids_are_unique (year_station_dfs : list frame) :
  NoDup (map fst (combine_years year_station_dfs))
  /\ distinct_keys cell_eqb (map fst (combine_years year_station_dfs)).
Proof.
  assert (D : distinct_keys cell_eqb (map fst (combine_years year_station_dfs))).
  { unfold combine_years. destruct year_station_dfs as [|[key_col rows0] rest];
      [constructor|].
    rewrite map_fst_summary. apply group_by_distinct. }
  split; [|exact D].
  exact (distinct_keys_nodup cell_eqb _ cell_eqb_refl D).
Qed.

(** [x] is a yearly figure of station [s] in one of the year summaries. *)
Definition yearly_figure (year_station_dfs : list frame) (s : cell) (x : Q)
  : Prop :=
  exists f k, In f year_station_dfs /\ In (k, x) (snd f)
              /\ cell_eqb k s = true.

Lemma values_of_in {K V : Type} (eqb : K -> K -> bool) (k : K)
  (rows : list (K * V)) (v : V) :
  In v (values_of eqb k rows)
  <-> exists k', In (k', v) rows /\ eqb k' k = true.
Proof.
  unfold values_of. rewrite in_map_iff. split.
  - intros ([k' v'] & <- & H). apply filter_In in H. now exists k'.
  - intros (k' & Hin & E). exists (k', v). split; [reflexivity|].
    now apply filter_In.
Qed.

Lemma combine_years_in (year_station_dfs : list frame) (kv : cell * Q) :
  In kv (combine_years year_station_dfs) ->
  exists vs, vs <> [] /\ snd kv = Qmean vs
             /\ forall v, In v vs -> yearly_figure year_station_dfs (fst kv) v.
Proof.
  unfold combine_years.
  destruct year_station_dfs as [|[key_col rows0] rest]; [intros []|].
  set (dfs := (key_col, rows0) :: rest).
  intros H. apply in_map_iff in H. destruct H as ([k vs] & <- & H).
  apply (group_by_in_class cell_eqb cell_eqb_refl cell_eqb_sym cell_eqb_trans)
    in H.
  destruct H as [Hvs Hne]. exists vs. cbn [fst snd].
  split; [assumption|]. split; [reflexivity|].
  intros v Hv. rewrite Hvs in Hv. apply values_of_in in Hv.
  destruct Hv as (k' & Hin & E). apply in_flat_map in Hin.
  destruct Hin as (f & Hf & Hin). exists f, k'. split; [assumption|].
  split; [|assumption].
  destruct (String.eqb (fst f) key_col); [assumption|destruct Hin].
Qed.

(** *** Figures are not negative when the boardings are not *)

Lemma daily_totals_nonneg (keyed : list (option Z * cell * Q)) :
  (forall r, In r keyed -> (0 <= snd r)%Q) ->
  forall d, In d (daily_totals keyed) -> (0 <= snd d)%Q.
Proof.
  intros H d Hd. unfold daily_totals in Hd. apply in_map_iff in Hd.
  destruct Hd as ([k vs] & <- & Hg). cbn [snd].
  apply MeanFacts.Qsum_nonneg. intros v Hv.
  pose proof (group_values_in _ _ _ _ _ Hg Hv) as Hin.
  apply in_map_iff in Hin. destruct Hin as ([k' v'] & Hv' & Hin).
  cbn [snd] in Hv'. subst v'. apply in_flat_map in Hin.
  destruct Hin as (r & Hr & Hin).
  destruct (fst (fst r)); [|destruct Hin].
  destruct Hin as [[= _ <-]|[]]. now apply H.
Qed.

Lemma station_means_nonneg (daily : list (Z * cell * Q)) :
  (forall d, In d daily -> (0 <= snd d)%Q) ->
  forall kv, In kv (station_means daily) -> (0 <= snd kv)%Q.
Proof.
  intros H kv Hkv. unfold station_means in Hkv. apply in_map_iff in Hkv.
  destruct Hkv as ([k vs] & <- & Hg). cbn [snd].
  apply MeanFacts.Qmean_nonneg. intros v Hv.
  pose proof (group_values_in _ _ _ _ _ Hg Hv) as Hin.
  rewrite map_map in Hin. apply in_map_iff in Hin.
  destruct Hin as (d & <- & Hd). now apply H.
Qed.

Lemma cell_at_in (cols : list string) (row : list cell) (c : string) :
  cell_at cols row c = NA \/ In (cell_at cols row c) row.
Proof.
  unfold cell_at. destruct (index_of c cols) as [i|]; [|now left].
  destruct (nth_in_or_default i row NA); [now right|now left].
Qed.

(** No number in the table is negative. *)
Definition no_negative_number (t : table) : Prop :=
  forall row c x, In row (rows t) -> In c row -> to_number c = Some x ->
                  (0 <= x)%Q.

Lemma process_table_nonneg (t : table) (sc : string)
  (station_avg : list (cell * Q)) :
  no_negative_number t ->
  process_table t = Summary sc station_avg ->
  forall kv, In kv station_avg -> (0 <= snd kv)%Q.
Proof.
  intros Hpos. unfold process_table.
  destruct (falsy _ || falsy _); [discriminate|].
  destruct (SchemaResolver.find_best_column (columns t) stop_candidates)
    as [sc'|]; [|discriminate].
  destruct (SchemaResolver.find_best_column (columns t) board_candidates)
    as [bc|]; [|discriminate].
  destruct (same_column _ sc' || same_column _ bc || String.eqb sc' bc);
    [discriminate|].
  destruct (forallb _ _).
  - intros [= _ <-]. apply station_means_nonneg, daily_totals_nonneg.
    intros r Hr. apply in_map_iff in Hr. destruct Hr as (row & <- & Hrow).
    cbn [snd]. apply filter_In in Hrow. destruct Hrow as [Hrow _].
    destruct (to_number (cell_at (columns t) row bc)) as [x|] eqn:E;
      [|apply Qle_refl].
    destruct (cell_at_in (columns t) row bc) as [Hna|Hin].
    + rewrite Hna in E. discriminate.
    + now apply (Hpos row _ x Hrow Hin).
  - destruct (filter _ _); [|discriminate]. intros [= _ <-] kv [].
Qed.

Lemma summary_of_nonneg (f : rail_file) (g : frame) (kv : cell * Q) :
  (forall t, f = Loaded t -> no_negative_number t) ->
  In g (summary_of f) -> In kv (snd g) -> (0 <= snd kv)%Q.
Proof.
  intros Hpos. unfold summary_of.
  destruct f as [| |t]; [intros []|intros []|].
  destruct (process_table t) as [| |sc station_avg] eqn:E;
    [intros []|intros []|].
  intros [<-|[]]. cbn [snd].
  now apply (process_table_nonneg t sc station_avg (Hpos t eq_refl) E).
Qed.

(** The numbers of the table, all cells taken together. *)
Definition numbers_of (t : table) : list Q :=
  flat_map (fun row =>
              flat_map (fun c => match to_number c with
                                 | Some x => [x]
                                 | None => []
                                 end) row) (rows t).

(** The numbers of the table add up to less than [2^63]: a sum over a column
    of integers, which the program holds in 64 bits, does not wrap
    around. *)
Definition sums_fit_int64 (t : table) : Prop :=
  (Qsum (numbers_of t) < inject_Z (2 ^ 63))%Q.

(** X20: when no table that is read holds a negative number, and the
    numbers of each table add up to less than [2^63] (so that no sum of
    integers leaves the 64-bit range), no station of the combined rail table
    has a negative figure. *)
Theorem figures_are_not_negative (files : list rail_file)
  (rail_usage : list (cell * Q)) :
  (forall t, In (Loaded t) files -> no_negative_number t) ->
  (forall t, In (Loaded t) files -> sums_fit_int64 t) ->
  aggregate_rail_usage files = RailUsageTable rail_usage ->
  Forall (fun kv => (0 <= snd kv)%Q) rail_usage.
Proof.
  intros Hpos _ Hagg. rewrite aggregate_spec in Hagg.
  assert (Hu : rail_usage = combine_years (flat_map summary_of files)).
  { destruct (flat_map summary_of files) as [|d dfs]; [discriminate|].
    injection Hagg as Hagg. symmetry. exact Hagg. }
  rewrite Hu. apply Forall_forall. intros kv Hkv.
  destruct (combine_years_in _ _ Hkv) as (vs & _ & -> & Hvs).
  apply MeanFacts.Qmean_nonneg. intros v Hv.
  destruct (Hvs v Hv) as (g & k & Hg & Hin & _).
  apply in_flat_map in Hg. destruct Hg as (f & Hf & Hg).
  apply (summary_of_nonneg f g (k, v)); [|assumption|assumption].
  intros t ->. now apply Hpos.
Qed.

Lemma dated_table_no_negative_number : no_negative_number dated_table.
Proof.
  intros row c x Hrow Hc Hx. cbn [rows dated_table] in Hrow.
  repeat (destruct Hrow as [<-|Hrow];
          [repeat (destruct Hc as [<-|Hc];
                   [cbn [to_number S_ D_] in Hx;
                    try discriminate Hx; injection Hx as <-; discriminate|]);
           destruct Hc|]).
  destruct Hrow.
Qed.

Lemma dated_table_sums_fit_int64 : sums_fit_int64 dated_table.
Proof. reflexivity. Qed.

Lemma figures_are_not_negative_witness :
  Forall (fun kv : cell * Q => (0 <= snd kv)%Q)
    [(S_ "A01", Qmake 400 2); (S_ "B02", Qmake 50 1)].
Proof.
  apply (figures_are_not_negative [Loaded dated_table]).
  - intros t [[= <-]|[]]. exact dated_table_no_negative_number.
  - intros t [[= <-]|[]]. exact dated_table_sums_fit_int64.
  - reflexivity.
Defined.

(** A table in which the date and the boardings are detected on one column:
    it yields no year summary, and alone it leaves no usable data. *)
Example one_column_detected_twice :
  let t := {| columns := ["station_id"; "avg_boardings_per_day"];
              rows := [[S_ "A01"; Num 100]; [S_ "B02"; Num 50]] |} in
  SchemaResolver.find_best_column (columns t) date_candidates
  = Some "avg_boardings_per_day"
  /\ SchemaResolver.find_best_column (columns t) board_candidates
     = Some "avg_boardings_per_day"
  /\ process_table t = AggregationError
  /\ aggregate_rail_usage [Loaded t] = NoUsableData.
Proof. repeat split. Qed.

End RailFacts.

(** ** More on [find_best_column]: the letter case of the candidates *)
Module SchemaFacts.
Import Text SchemaResolver.

Lemma is_space_lower_char (c : ascii) : is_space (lower_char c) = is_space c.
Proof.
  destruct c as [[] [] [] [] [] [] [] []]; reflexivity.
Qed.

Lemma lstrip_lower (s : string) : lstrip (lower s) = lower (lstrip s).
Proof.
  induction s as [|c s IH]; cbn [lower lstrip]; [reflexivity|].
  rewrite is_space_lower_char. now destruct (is_space c).
Qed.

Lemma rstrip_lower (s : string) : rstrip (lower s) = lower (rstrip s).
Proof.
  induction s as [|c s IH]; cbn [lower rstrip]; [reflexivity|].
  rewrite IH, is_space_lower_char.
  destruct (rstrip s); cbn [lower]; [|reflexivity].
  now destruct (is_space c).
Qed.

Lemma strip_lower (s : string) : strip (lower s) = lower (strip s).
Proof. unfold strip. now rewrite lstrip_lower, rstrip_lower. Qed.

(** The normalized key of a name depends on the name up to letter case
    only. *)
Lemma normalize_lower (c : string) : normalize (lower c) = normalize c.
Proof. unfold normalize. now rewrite strip_lower, lower_idem. Qed.

Lemma normalize_up_to_case (c c' : string) :
  lower c = lower c' -> normalize c = normalize c'.
Proof.
  intros H. now rewrite <- (normalize_lower c), <- (normalize_lower c'), H.
Qed.

Lemma exact_pass_up_to_case (norm_map : dict string) (cands : list string) :
  forall cands',
    map lower cands = map lower cands' ->
    exact_pass norm_map cands = exact_pass norm_map cands'.
Proof.
  induction cands as [|c cands IH]; intros [|c' cands']; cbn [map];
    try discriminate; [reflexivity|].
  intros [= Hc Hrest]. cbn [exact_pass].
  rewrite (normalize_up_to_case c c' Hc), (IH cands' Hrest). reflexivity.
Qed.

Lemma contains_pass_up_to_case (df_cols cands : list string) :
  forall cands',
    map lower cands = map lower cands' ->
    contains_pass df_cols cands = contains_pass df_cols cands'.
Proof.
  induction cands as [|c cands IH]; intros [|c' cands']; cbn [map];
    try discriminate; [reflexivity|].
  intros [= Hc Hrest]. cbn [contains_pass].
  rewrite Hc, (IH cands' Hrest). reflexivity.
Qed.

(** X21: the letter case of the candidate names does not matter: two
    candidate lists that agree up to case select the same column. *)
Theorem candidates_match_up_to_case (df_cols candidates candidates' : list string) :
  map lower candidates = map lower candidates' ->
  find_best_column df_cols candidates = find_best_column df_cols candidates'.
Proof.
  intros H. unfold find_best_column.
  now rewrite (exact_pass_up_to_case _ _ _ H),
    (contains_pass_up_to_case _ _ _ H).
Qed.

Lemma candidates_match_up_to_case_witness :
  find_best_column ["Date"; "Station ID"; "Entries"] ["STOP_ID"; "Station_Id"]
  = find_best_column ["Date"; "Station ID"; "Entries"] ["stop_id"; "station_id"].
Proof.
  apply (candidates_match_up_to_case ["Date"; "Station ID"; "Entries"]
           ["STOP_ID"; "Station_Id"] ["stop_id"; "station_id"]).
  reflexivity.
Defined.

(** The column that is found is a column of the table. *)
Lemma find_best_column_in (df_cols candidates : list string) (c : string) :
  find_best_column df_cols candidates = Some c -> In c df_cols.
Proof.
  unfold find_best_column.
  destruct (exact_pass (build_norm_map df_cols) candidates) as [c'|] eqn:E.
  - intros [= <-]. clear -E.
    induction candidates as [|cand rest IH]; cbn [exact_pass] in E;
      [discriminate|].
    rewrite norm_map_lookup in E. unfold last_exact in E.
    destruct (find _ (rev df_cols)) as [x|] eqn:F.
    + injection E as <-. apply find_some in F. now apply in_rev.
    + now apply IH.
  - clear E. induction candidates as [|cand rest IH]; cbn [contains_pass];
      [discriminate|].
    destruct (find _ df_cols) as [x|] eqn:F.
    + intros [= <-]. now apply find_some in F.
    + apply IH.
Qed.

(** A table that has a column whose normalized name is that of the first
    candidate always yields a column, and one whose name is not empty. *)
Lemma first_candidate_found (df_cols : list string) (label cand : string)
  (rest : list string) :
  In label df_cols -> normalize label = normalize cand ->
  normalize cand <> "" ->
  exists c, find_best_column df_cols (cand :: rest) = Some c
            /\ normalize c = normalize cand /\ c <> "".
Proof.
  intros Hin Hn Hne.
  assert (Hhit : exact_hit df_cols cand = true).
  { apply existsb_exists. exists label. split; [assumption|].
    now apply String.eqb_eq. }
  destruct (last_exact_hit _ _ Hhit) as (c & Hc & _ & Hnc).
  exists c. split; [|split; [assumption|]].
  - unfold find_best_column.
    pose proof (exact_pass_first df_cols [] rest cand
                  (fun _ (F : False) => match F with end) Hhit) as E.
    cbn [app] in E. now rewrite E, Hc.
  - intros ->. apply Hne. rewrite <- Hnc. reflexivity.
Qed.

End SchemaFacts.

(** ** The columns of the bus table ([run_analysis], step 2)

    The four columns that are detected are renamed to [STOP], [LAT], [LON]
    and [SUM_PASSENGERS_ON] when all of them are found; otherwise the run
    warns and goes on with the table as it is.  From then on the columns are
    addressed by these labels and by [ROUTE_NAME]: [dropna(subset=['LAT',
    'LON'])], [groupby('STOP').agg] and the [agg] of the clustering raise
    [KeyError] on a label that is not a column, and nothing catches it. *)
Module BusColumns.
Import Text SchemaResolver.

Definition bus_stop_candidates : list string := ["stop"; "stop_name"; "stoplabel"].
Definition lat_candidates : list string := ["lat"; "latitude"].
Definition lon_candidates : list string := ["lon"; "lng"; "longitude"; "long"].
Definition sum_on_candidates : list string :=
  ["sum_passengers_on"; "sum_on"; "passengers_on"; "sum_boardings";
   "sum_passengers"].

(** The dict literal of the [rename]: a later entry replaces the value of an
    earlier one that has the same key. *)
Definition rename_map (stop_col_bus lat_col lon_col sum_on_col : string)
  : dict string :=
  dict_set sum_on_col "SUM_PASSENGERS_ON"
    (dict_set lon_col "LON"
       (dict_set lat_col "LAT" (dict_set stop_col_bus "STOP" []))).

(** [df.rename(columns=mapping)], on the column labels. *)
Definition rename (mapping : dict string) (cols : list string) : list string :=
  map (fun c => match dict_get c mapping with Some n => n | None => c end) cols.

(** The columns of [bus_df] after the detection. *)
Definition standardize (bus_cols : list string) : list string :=
  let stop_col_bus := find_best_column bus_cols bus_stop_candidates in
  let lat_col := find_best_column bus_cols lat_candidates in
  let lon_col := find_best_column bus_cols lon_candidates in
  let sum_on_col := find_best_column bus_cols sum_on_candidates in
  if RailUsage.falsy stop_col_bus || RailUsage.falsy lat_col
     || RailUsage.falsy lon_col || RailUsage.falsy sum_on_col
  then bus_cols
  else
    match stop_col_bus, lat_col, lon_col, sum_on_col with
    | Some s, Some la, Some lo, Some su =>
        rename (rename_map s la lo su) bus_cols
    | _, _, _, _ => bus_cols
    end.

Definition has_column (cols : list string) (label : string) : bool :=
  existsb (String.eqb label) cols.

(** The labels [dropna] and the two [agg] calls address. *)
Definition required_labels : list string :=
  ["LAT"; "LON"; "STOP"; "SUM_PASSENGERS_ON"; "ROUTE_NAME"].

Inductive bus_outcome : Type :=
| KeyError
| Labelled (cols : list string).

Definition bus_stage (bus_cols : list string) : bus_outcome :=
  let cols := standardize bus_cols in
  if forallb (has_column cols) required_labels then Labelled cols
  else KeyError.

(** *** A warning is followed by a [KeyError] *)

Lemma has_column_in (cols : list string) (label : string) :
  has_column cols label = true <-> In label cols.
Proof.
  unfold has_column. rewrite existsb_exists. split.
  - intros (c & Hc & E). apply String.eqb_eq in E. now subst.
  - intros H. exists label. split; [assumption|apply String.eqb_refl].
Qed.

Lemma labelled_column_found (bus_cols : list string) (label cand : string)
  (rest : list string) :
  In label bus_cols -> normalize label = normalize cand ->
  normalize cand <> "" ->
  RailUsage.falsy (find_best_column bus_cols (cand :: rest)) = false.
Proof.
  intros Hin Hn Hne.
  destruct (SchemaFacts.first_candidate_found bus_cols label cand rest
              Hin Hn Hne) as (c & -> & _ & Hc).
  cbn [RailUsage.falsy]. now apply String.eqb_neq.
Qed.

Definition unresolved (bus_cols : list string) : bool :=
  RailUsage.falsy (find_best_column bus_cols bus_stop_candidates)
  || RailUsage.falsy (find_best_column bus_cols lat_candidates)
  || RailUsage.falsy (find_best_column bus_cols lon_candidates)
  || RailUsage.falsy (find_best_column bus_cols sum_on_candidates).

(** X22: when one of the four bus columns is not detected the run only
    warns, but it cannot go on: one of the labels [STOP], [LAT], [LON],
    [SUM_PASSENGERS_ON] is then not a column of the table, and the run ends
    in a [KeyError]. *)
Theorem warning_is_followed_by_key_error (bus_cols : list string) :
  unresolved bus_cols = true ->
  standardize bus_cols = bus_cols
  /\ (exists label,
        In label ["LAT"; "LON"; "STOP"; "SUM_PASSENGERS_ON"]
        /\ ~ In label bus_cols)
  /\ bus_stage bus_cols = KeyError.
Proof.
  intros Hw.
  assert (Hs : standardize bus_cols = bus_cols).
  { unfold standardize. unfold unresolved in Hw. now rewrite Hw. }
  assert (Hmiss : exists label,
             In label ["LAT"; "LON"; "STOP"; "SUM_PASSENGERS_ON"]
             /\ ~ In label bus_cols).
  { unfold unresolved in Hw.
    apply orb_true_iff in Hw. destruct Hw as [Hw|Hw];
      [apply orb_true_iff in Hw; destruct Hw as [Hw|Hw];
       [apply orb_true_iff in Hw; destruct Hw as [Hw|Hw]|]|].
    - exists "STOP". split; [cbn; tauto|]. intros Hin.
      assert (F : RailUsage.falsy (find_best_column bus_cols bus_stop_candidates)
                  = false).
      { apply (labelled_column_found bus_cols "STOP" "stop");
          [assumption|reflexivity|cbv; discriminate]. }
      congruence.
    - exists "LAT". split; [cbn; tauto|]. intros Hin.
      assert (F : RailUsage.falsy (find_best_column bus_cols lat_candidates)
                  = false).
      { apply (labelled_column_found bus_cols "LAT" "lat");
          [assumption|reflexivity|cbv; discriminate]. }
      congruence.
    - exists "LON". split; [cbn; tauto|]. intros Hin.
      assert (F : RailUsage.falsy (find_best_column bus_cols lon_candidates)
                  = false).
      { apply (labelled_column_found bus_cols "LON" "lon");
          [assumption|reflexivity|cbv; discriminate]. }
      congruence.
    - exists "SUM_PASSENGERS_ON". split; [cbn; tauto|]. intros Hin.
      assert (F : RailUsage.falsy
                    (find_best_column bus_cols sum_on_candidates) = false).
      { apply (labelled_column_found bus_cols "SUM_PASSENGERS_ON"
                 "sum_passengers_on");
          [assumption|reflexivity|cbv; discriminate]. }
      congruence. }
  split; [exact Hs|]. split; [exact Hmiss|].
  unfold bus_stage. rewrite Hs.
  destruct (forallb (has_column bus_cols) required_labels) eqn:E;
    [|reflexivity].
  exfalso. destruct Hmiss as (label & Hl & Hn). apply Hn.
  rewrite forallb_forall in E. apply has_column_in, E.
  cbn in Hl. cbn. tauto.
Qed.

Lemma warning_is_followed_by_key_error_witness :
  standardize ["Stop Name"; "Latitude"; "Sum_Passengers_On"; "ROUTE_NAME"]
  = ["Stop Name"; "Latitude"; "Sum_Passengers_On"; "ROUTE_NAME"]
  /\ (exists label,
        In label ["LAT"; "LON"; "STOP"; "SUM_PASSENGERS_ON"]
        /\ ~ In label
               ["Stop Name"; "Latitude"; "Sum_Passengers_On"; "ROUTE_NAME"])
  /\ bus_stage ["Stop Name"; "Latitude"; "Sum_Passengers_On"; "ROUTE_NAME"]
     = KeyError.
Proof.
  apply (warning_is_followed_by_key_error
           ["Stop Name"; "Latitude"; "Sum_Passengers_On"; "ROUTE_NAME"]).
  reflexivity.
Defined.

(** *** The route column is never detected *)

Lemma rename_in (mapping : dict string) (cols : list string) (x : string) :
  In x (rename mapping cols) ->
  In x cols \/ exists k, In k cols /\ dict_get k mapping = Some x.
Proof.
  unfold rename. rewrite in_map_iff. intros (c & Hc & Hin).
  destruct (dict_get c mapping) as [n|] eqn:E.
  - right. exists c. subst. now split.
  - left. now subst.
Qed.

Lemma rename_map_values (s la lo su k x : string) :
  dict_get k (rename_map s la lo su) = Some x ->
  In x ["STOP"; "LAT"; "LON"; "SUM_PASSENGERS_ON"].
Proof.
  unfold rename_map. rewrite !dict_get_set. cbn [dict_get].
  destruct (String.eqb su k); [intros [= <-]; cbn; tauto|].
  destruct (String.eqb lo k); [intros [= <-]; cbn; tauto|].
  destruct (String.eqb la k); [intros [= <-]; cbn; tauto|].
  destruct (String.eqb s k); [intros [= <-]; cbn; tauto|discriminate].
Qed.

(** A candidate matches a column, by its normalized name or as a part of
    it. *)
Definition matches (cand c : string) : bool :=
  String.eqb (normalize c) (normalize cand) || contains (lower cand) (lower c).

Lemma find_best_column_matches (df_cols candidates : list string) (c : string) :
  find_best_column df_cols candidates = Some c ->
  existsb (fun cand => matches cand c) candidates = true.
Proof.
  unfold find_best_column.
  destruct (exact_pass (build_norm_map df_cols) candidates) as [c'|] eqn:E.
  - intros [= <-]. clear -E.
    induction candidates as [|cand rest IH]; cbn [exact_pass] in E;
      [discriminate|].
    cbn [existsb]. rewrite norm_map_lookup in E. unfold last_exact in E.
    destruct (find _ (rev df_cols)) as [x|] eqn:F.
    + injection E as <-. apply find_some in F. destruct F as [_ F].
      unfold matches. now rewrite F.
    + rewrite (IH E). apply orb_true_r.
  - clear E. induction candidates as [|cand rest IH]; cbn [contains_pass];
      [discriminate|].
    cbn [existsb]. destruct (find _ df_cols) as [x|] eqn:F.
    + intros [= <-]. apply find_some in F. destruct F as [_ F].
      unfold matches. rewrite F. now rewrite orb_true_r.
    + intros H. rewrite (IH H). apply orb_true_r.
Qed.

Lemma route_name_not_detected (bus_cols candidates : list string) :
  existsb (fun cand => matches cand "ROUTE_NAME") candidates = false ->
  find_best_column bus_cols candidates <> Some "ROUTE_NAME".
Proof.
  intros H E. apply find_best_column_matches in E. congruence.
Qed.

Lemma rename_keeps (mapping : dict string) (cols : list string) (x : string) :
  In x cols -> dict_get x mapping = None -> In x (rename mapping cols).
Proof.
  intros Hin E. unfold rename. apply in_map_iff. exists x. now rewrite E.
Qed.

(** X23: the route column is addressed as [ROUTE_NAME] and is never
    detected or renamed: the columns of the bus table hold that label after
    the detection exactly when the file has a column of that very name, and
    without it the run ends in a [KeyError]. *)
Theorem route_column_needs_its_exact_name (bus_cols : list string) :
  (In "ROUTE_NAME" (standardize bus_cols) <-> In "ROUTE_NAME" bus_cols)
  /\ (~ In "ROUTE_NAME" bus_cols -> bus_stage bus_cols = KeyError).
Proof.
  assert (Hiff : In "ROUTE_NAME" (standardize bus_cols)
                 <-> In "ROUTE_NAME" bus_cols).
  { unfold standardize.
    destruct (RailUsage.falsy _ || RailUsage.falsy _ || RailUsage.falsy _
              || RailUsage.falsy _); [reflexivity|].
    destruct (find_best_column bus_cols bus_stop_candidates) as [s|] eqn:Es;
      [|reflexivity].
    destruct (find_best_column bus_cols lat_candidates) as [la|] eqn:Ela;
      [|reflexivity].
    destruct (find_best_column bus_cols lon_candidates) as [lo|] eqn:Elo;
      [|reflexivity].
    destruct (find_best_column bus_cols sum_on_candidates) as [su|] eqn:Esu;
      [|reflexivity].
    split.
    - intros H. apply rename_in in H. destruct H as [H|(k & _ & H)];
        [assumption|].
      apply rename_map_values in H. cbn in H.
      destruct H as [H|[H|[H|[H|[]]]]]; discriminate.
    - intros H. apply rename_keeps; [assumption|].
      unfold rename_map. rewrite !dict_get_set. cbn [dict_get].
      assert (Hs : s <> "ROUTE_NAME").
      { intros ->.
        now apply (route_name_not_detected bus_cols bus_stop_candidates eq_refl) in Es. }
      assert (Hla : la <> "ROUTE_NAME").
      { intros ->.
        now apply (route_name_not_detected bus_cols lat_candidates eq_refl) in Ela. }
      assert (Hlo : lo <> "ROUTE_NAME").
      { intros ->.
        now apply (route_name_not_detected bus_cols lon_candidates eq_refl) in Elo. }
      assert (Hsu : su <> "ROUTE_NAME").
      { intros ->.
        now apply (route_name_not_detected bus_cols sum_on_candidates eq_refl) in Esu. }
      apply String.eqb_neq in Hs, Hla, Hlo, Hsu.
      now rewrite Hs, Hla, Hlo, Hsu. }
  split; [exact Hiff|].
  intros Hn. unfold bus_stage.
  destruct (forallb (has_column (standardize bus_cols)) required_labels)
    eqn:E; [|reflexivity].
  exfalso. apply Hn, Hiff. rewrite forallb_forall in E.
  apply has_column_in, E. cbn. tauto.
Qed.

(** A bus table with a route column of another spelling. *)
Example route_spelling_is_fatal :
  standardize ["Stop"; "Lat"; "Lon"; "Sum_Passengers_On"; "Route_Name"]
  = ["STOP"; "LAT"; "LON"; "SUM_PASSENGERS_ON"; "Route_Name"]
  /\ bus_stage ["Stop"; "Lat"; "Lon"; "Sum_Passengers_On"; "Route_Name"]
     = KeyError.
Proof. split; reflexivity. Qed.

(** *** When the four labels are there *)

Lemma rename_maps (mapping : dict string) (cols : list string)
  (k label : string) :
  In k cols -> dict_get k mapping = Some label -> In label (rename mapping cols).
Proof.
  intros Hin E. unfold rename. apply in_map_iff. exists k. now rewrite E.
Qed.

(** X24: when the four bus columns are detected and are four different
    columns, the table holds the four labels after the renaming; the
    columns that were not detected keep their names. *)
Theorem detected_columns_get_their_labels (bus_cols : list string)
  (s la lo su : string) :
  find_best_column bus_cols bus_stop_candidates = Some s ->
  find_best_column bus_cols lat_candidates = Some la ->
  find_best_column bus_cols lon_candidates = Some lo ->
  find_best_column bus_cols sum_on_candidates = Some su ->
  s <> "" -> la <> "" -> lo <> "" -> su <> "" ->
  NoDup [s; la; lo; su] ->
  standardize bus_cols
  = map (fun c =>
           if String.eqb c s then "STOP"
           else if String.eqb c la then "LAT"
           else if String.eqb c lo then "LON"
           else if String.eqb c su then "SUM_PASSENGERS_ON"
           else c) bus_cols
  /\ Forall (fun label => In label (standardize bus_cols))
       ["STOP"; "LAT"; "LON"; "SUM_PASSENGERS_ON"].
Proof.
  intros Es Ela Elo Esu Hs Hla Hlo Hsu Hnd.
  assert (Hstd : standardize bus_cols = rename (rename_map s la lo su) bus_cols).
  { unfold standardize. rewrite Es, Ela, Elo, Esu. cbn [RailUsage.falsy].
    apply String.eqb_neq in Hs, Hla, Hlo, Hsu.
    now rewrite Hs, Hla, Hlo, Hsu. }
  assert (Hget : forall c,
             dict_get c (rename_map s la lo su)
             = if String.eqb su c then Some "SUM_PASSENGERS_ON"
               else if String.eqb lo c then Some "LON"
               else if String.eqb la c then Some "LAT"
               else if String.eqb s c then Some "STOP"
               else None).
  { intros c. unfold rename_map. rewrite !dict_get_set. reflexivity. }
  inversion Hnd as [|? ? N1 Hnd1]; subst.
  inversion Hnd1 as [|? ? N2 Hnd2]; subst.
  inversion Hnd2 as [|? ? N3 _]; subst.
  assert (D1 : s <> la) by (intros ->; apply N1; now left).
  assert (D2 : s <> lo) by (intros ->; apply N1; right; now left).
  assert (D3 : s <> su) by (intros ->; apply N1; right; right; now left).
  assert (D4 : la <> lo) by (intros ->; apply N2; now left).
  assert (D5 : la <> su) by (intros ->; apply N2; right; now left).
  assert (D6 : lo <> su) by (intros ->; apply N3; now left).
  split.
  - rewrite Hstd. unfold rename. apply map_ext. intros c. rewrite Hget.
    rewrite (String.eqb_sym su c), (String.eqb_sym lo c),
      (String.eqb_sym la c), (String.eqb_sym s c).
    destruct (String.eqb_spec c s) as [->|]; [|].
    + apply String.eqb_neq in D1, D2, D3. now rewrite D1, D2, D3.
    + destruct (String.eqb_spec c la) as [->|].
      * apply String.eqb_neq in D4, D5. now rewrite D4, D5.
      * destruct (String.eqb_spec c lo) as [->|].
        -- apply String.eqb_neq in D6. now rewrite D6.
        -- now destruct (String.eqb_spec c su).
  - rewrite Hstd.
    pose proof (SchemaFacts.find_best_column_in _ _ _ Es) as I1.
    pose proof (SchemaFacts.find_best_column_in _ _ _ Ela) as I2.
    pose proof (SchemaFacts.find_best_column_in _ _ _ Elo) as I3.
    pose proof (SchemaFacts.find_best_column_in _ _ _ Esu) as I4.
    apply String.eqb_neq in D1, D2, D3, D4, D5, D6.
    repeat constructor.
    + apply (rename_maps _ _ s); [assumption|]. rewrite Hget.
      rewrite (String.eqb_sym su s), (String.eqb_sym lo s),
        (String.eqb_sym la s), D1, D2, D3. now rewrite String.eqb_refl.
    + apply (rename_maps _ _ la); [assumption|]. rewrite Hget.
      rewrite (String.eqb_sym su la), (String.eqb_sym lo la), D4, D5.
      now rewrite String.eqb_refl.
    + apply (rename_maps _ _ lo); [assumption|]. rewrite Hget.
      rewrite (String.eqb_sym su lo), D6. now rewrite String.eqb_refl.
    + apply (rename_maps _ _ su); [assumption|]. rewrite Hget.
      now rewrite String.eqb_refl.
Qed.

Lemma detected_columns_get_their_labels_witness :
  standardize ["Route"; "Stop Name"; "Latitude"; "Longitude"; "Sum_On"]
  = map (fun c =>
           if String.eqb c "Stop Name" then "STOP"
           else if String.eqb c "Latitude" then "LAT"
           else if String.eqb c "Longitude" then "LON"
           else if String.eqb c "Sum_On" then "SUM_PASSENGERS_ON"
           else c) ["Route"; "Stop Name"; "Latitude"; "Longitude"; "Sum_On"]
  /\ Forall (fun label =>
               In label
                 (standardize
                    ["Route"; "Stop Name"; "Latitude"; "Longitude"; "Sum_On"]))
       ["STOP"; "LAT"; "LON"; "SUM_PASSENGERS_ON"].
Proof.
  apply (detected_columns_get_their_labels
           ["Route"; "Stop Name"; "Latitude"; "Longitude"; "Sum_On"]
           "Stop Name" "Latitude" "Longitude" "Sum_On");
    try reflexivity; try discriminate.
  repeat constructor; cbn; intuition discriminate.
Defined.

(** Two detections that fall on one column: the later entry of the rename
    wins, a label is missing, and the run ends in a [KeyError]. *)
Example shared_column_is_fatal :
  find_best_column ["stop"; "lat_long"; "sum_on"; "ROUTE_NAME"] lat_candidates
  = Some "lat_long"
  /\ find_best_column ["stop"; "lat_long"; "sum_on"; "ROUTE_NAME"] lon_candidates
     = Some "lat_long"
  /\ standardize ["stop"; "lat_long"; "sum_on"; "ROUTE_NAME"]
     = ["STOP"; "LON"; "SUM_PASSENGERS_ON"; "ROUTE_NAME"]
  /\ bus_stage ["stop"; "lat_long"; "sum_on"; "ROUTE_NAME"] = KeyError.
Proof. repeat split. Qed.

End BusColumns.

(** ** The station table ([station_mappings.py]) and the names of the rail
    stations ([run_analysis], end of step 1) *)
Module StationMappings.
Import SchemaResolver.

(** [STATION_ID_TO_NAME], in the order of the literal. *)
Definition STATION_ID_TO_NAME : dict string :=
  [("A01", "Metro Center"); ("A02", "Farragut North");
   ("A03", "Dupont Circle"); ("A04", "Woodley Park");
   ("A05", "Cleveland Park"); ("A06", "Van Ness");
   ("A07", "Tenleytown"); ("A08", "Friendship Heights");
   ("A09", "Bethesda"); ("A10", "Medical Center");
   ("A11", "Grosvenor"); ("A12", "North Bethesda");
   ("A13", "Twinbrook"); ("A14", "Rockville");
   ("A15", "Shady Grove"); ("B01", "Gallery Place");
   ("B02", "Judiciary Square"); ("B03", "Union Station");
   ("B04", "Rhode Island Ave"); ("B05", "Brookland");
   ("B06", "Fort Totten"); ("B07", "Takoma");
   ("B08", "Silver Spring"); ("B09", "Forest Glen");
   ("B10", "Wheaton"); ("B11", "Glenmont");
   ("C01", "Metro Center"); ("C02", "McPherson Square");
   ("C03", "Farragut West"); ("C04", "Foggy Bottom");
   ("C05", "Rosslyn"); ("C06", "Arlington Cemetery");
   ("C07", "Pentagon"); ("C08", "Pentagon City");
   ("C09", "Crystal City"); ("C10", "Ronald Reagan Washington National Airport");
   ("C11", "Potomac Yard"); ("C12", "Braddock Road");
   ("C13", "King St-Old Town"); ("C14", "Eisenhower Avenue");
   ("C15", "Huntington"); ("D01", "Federal Triangle");
   ("D02", "Smithsonian"); ("D03", "L'Enfant Plaza");
   ("D04", "Federal Center SW"); ("D05", "Capitol South");
   ("D06", "Eastern Market"); ("D07", "Potomac Ave");
   ("D08", "Stadium-Armory"); ("D09", "Minnesota Ave");
   ("D10", "Deanwood"); ("D11", "Cheverly");
   ("D12", "Landover"); ("D13", "New Carrollton");
   ("E01", "Mt Vernon Sq"); ("E02", "Shaw-Howard U");
   ("E03", "U Street"); ("E04", "Columbia Heights");
   ("E05", "Georgia Ave-Petworth"); ("E06", "Fort Totten");
   ("E07", "West Hyattsville"); ("E08", "Hyattsville Crossing");
   ("E09", "College Park"); ("E10", "Greenbelt");
   ("F01", "Gallery Place"); ("F02", "Archives");
   ("F03", "L'Enfant Plaza"); ("F04", "Waterfront");
   ("F05", "Navy Yard"); ("F06", "Anacostia");
   ("F07", "Congress Heights"); ("F08", "Southern Avenue");
   ("F09", "Naylor Road"); ("F10", "Suitland");
   ("F11", "Branch Ave"); ("G01", "Benning Road");
   ("G02", "Capitol Heights"); ("G03", "Addison Road");
   ("G04", "Morgan Boulevard"); ("G05", "Downtown Largo");
   ("J02", "Van Dorn Street"); ("J03", "Franconia-Springfield");
   ("K01", "Court House"); ("K02", "Clarendon");
   ("K03", "Virginia Square"); ("K04", "Ballston");
   ("K05", "East Falls Church"); ("K06", "West Falls Church");
   ("K07", "Dunn Loring"); ("K08", "Vienna");
   ("N01", "McLean"); ("N02", "Tysons");
   ("N03", "Greensboro"); ("N04", "Spring Hill");
   ("N06", "Wiehle-Reston East"); ("N07", "Reston Town Center");
   ("N08", "Herndon"); ("N09", "Innovation Center");
   ("N10", "Dulles Airport"); ("N11", "Loudoun Gateway");
   ("N12", "Ashburn")].

(** An entry of [RAIL_LINES]. *)
Record rail_line : Type := {
  line : string;
  color : string;
  stations : list string
}.

Definition RAIL_LINES : list rail_line :=
  [{| line := "Red"; color := "#BE2D25";
      stations :=
        ["A15"; "A14"; "A13"; "A12"; "A11"; "A10"; "A09"; "A08"; "A07";
          "A06"; "A05"; "A04"; "A03"; "A02"; "A01"; "B01"; "B02"; "B03";
          "B04"; "B05"; "B06"; "B07"; "B08"; "B09"; "B10"; "B11"] |};
   {| line := "Blue"; color := "#0075BF";
      stations :=
        ["J03"; "J02"; "C13"; "C12"; "C11"; "C10"; "C09"; "C08"; "C07";
          "C06"; "C05"; "C04"; "C03"; "C02"; "C01"; "D01"; "D02"; "D03";
          "D04"; "D05"; "D06"; "D07"; "D08"; "G01"; "G02"; "G03"; "G04";
          "G05"] |};
   {| line := "Orange"; color := "#E87515";
      stations :=
        ["K08"; "K07"; "K06"; "K05"; "K04"; "K03"; "K02"; "K01"; "C05";
          "C04"; "C03"; "C02"; "C01"; "D01"; "D02"; "D03"; "D04"; "D05";
          "D06"; "D07"; "D08"; "D09"; "D10"; "D11"; "D12"; "D13"] |};
   {| line := "Silver"; color := "#97999B";
      stations :=
        ["N12"; "N11"; "N10"; "N09"; "N08"; "N07"; "N06"; "N04"; "N03";
          "N02"; "N01"; "K05"; "K04"; "K03"; "K02"; "K01"; "C05"; "C04";
          "C03"; "C02"; "C01"; "D01"; "D02"; "D03"; "D04"; "D05"; "D06";
          "D07"; "D08"; "G01"; "G02"; "G03"; "G04"; "G05"] |};
   {| line := "Green"; color := "#00A94F";
      stations :=
        ["F11"; "F10"; "F09"; "F08"; "F07"; "F06"; "F05"; "F04"; "F03";
          "F02"; "F01"; "E01"; "E02"; "E03"; "E04"; "E05"; "E06"; "E07";
          "E08"; "E09"; "E10"] |};
   {| line := "Yellow"; color := "#FCDD44";
      stations :=
        ["C15"; "C14"; "C13"; "C12"; "C11"; "C10"; "C09"; "C08"; "C07";
          "F03"; "F02"; "F01"; "E01"] |}].

(** *** The two tables agree *)

Definition known (stop_id : string) : bool :=
  RailUsage.is_some (dict_get stop_id STATION_ID_TO_NAME).

Definition served (stop_id : string) : bool :=
  existsb (fun l => existsb (String.eqb stop_id) (stations l)) RAIL_LINES.

Fixpoint distinct (l : list string) : bool :=
  match l with
  | [] => true
  | x :: rest => negb (existsb (String.eqb x) rest) && distinct rest
  end.

Lemma distinct_nodup (l : list string) : distinct l = true -> NoDup l.
Proof.
  induction l as [|x l IH]; cbn [distinct]; [constructor|].
  intros H. apply andb_true_iff in H. destruct H as [Hx Hl].
  constructor; [|now apply IH].
  intros Hin. apply negb_true_iff in Hx.
  assert (E : existsb (String.eqb x) l = true).
  { apply existsb_exists. exists x. split; [assumption|apply String.eqb_refl]. }
  congruence.
Qed.

(** X25: the line table and the name table agree: every station of every
    line has a name, every named station is on a line, no identifier has
    two entries in the name table, and no line lists a station twice. *)
Theorem lines_and_names_agree :
  Forall (fun l =>
            Forall (fun s => exists name,
                        dict_get s STATION_ID_TO_NAME = Some name)
              (stations l)
            /\ NoDup (stations l)) RAIL_LINES
  /\ Forall (fun kv => exists l, In l RAIL_LINES /\ In (fst kv) (stations l))
       STATION_ID_TO_NAME
  /\ NoDup (map fst STATION_ID_TO_NAME).
Proof.
  split; [|split].
  - assert (H : forallb (fun l => forallb known (stations l)
                                  && distinct (stations l)) RAIL_LINES = true)
      by (vm_compute; reflexivity).
    rewrite forallb_forall in H. apply Forall_forall. intros l Hl.
    specialize (H l Hl). apply andb_true_iff in H. destruct H as [H1 H2].
    split; [|now apply distinct_nodup].
    rewrite forallb_forall in H1. apply Forall_forall. intros st Hst.
    specialize (H1 st Hst). unfold known in H1.
    destruct (dict_get st STATION_ID_TO_NAME) as [name|]; [|discriminate].
    now exists name.
  - assert (H : forallb (fun kv => served (fst kv)) STATION_ID_TO_NAME = true)
      by (vm_compute; reflexivity).
    rewrite forallb_forall in H. apply Forall_forall. intros kv Hkv.
    specialize (H kv Hkv). unfold served in H. apply existsb_exists in H.
    destruct H as (l & Hl & H). apply existsb_exists in H.
    destruct H as (st & Hst & E). apply String.eqb_eq in E. subst st.
    now exists l.
  - apply distinct_nodup. vm_compute. reflexivity.
Qed.

(** *** Naming the stations of the rail table *)

(** [STATION_ID_TO_NAME[stop_id]] under [Series.map]: a value that is not a
    key, a number among them, gives NaN. *)
Definition mapped_name (mapping : dict string) (stop_id : RailUsage.cell)
  : option string :=
  match stop_id with
  | RailUsage.Txt s _ _ => dict_get s mapping
  | _ => None
  end.

(** [rail_usage['STOP_ID'].map(STATION_ID_TO_NAME)] followed by
    [dropna(subset=['STATION_NAME'])], for a station table that is not
    empty. *)
Definition name_stations (mapping : dict string)
  (rail_usage : list (RailUsage.cell * Q)) : list Reconciler.rail_station :=
  flat_map (fun row =>
              match mapped_name mapping (fst row) with
              | Some name =>
                  [{| Reconciler.STOP_ID := fst row;
                      Reconciler.AVG_BOARDINGS := snd row;
                      Reconciler.STATION_NAME := name |}]
              | None => []
              end) rail_usage.

Lemma dict_get_in {V : Type} (k : string) (v : V) (d : dict V) :
  dict_get k d = Some v -> In (k, v) d.
Proof.
  induction d as [|[k0 v0] d IH]; cbn [dict_get]; [discriminate|].
  destruct (String.eqb_spec k0 k) as [->|].
  - intros [= ->]. now left.
  - intros H. right. now apply IH.
Qed.

Lemma station_names_are_short (stop_id name : string) :
  dict_get stop_id STATION_ID_TO_NAME = Some name ->
  name <> "" /\ String.length name < 200.
Proof.
  intros H. apply dict_get_in in H.
  assert (A : forallb (fun kv => negb (String.eqb (snd kv) "")
                                 && (String.length (snd kv) <? 200))
                STATION_ID_TO_NAME = true) by (vm_compute; reflexivity).
  rewrite forallb_forall in A. specialize (A _ H). cbn [snd] in A.
  apply andb_true_iff in A. destruct A as [A1 A2].
  apply negb_true_iff, String.eqb_neq in A1. apply Nat.ltb_lt in A2.
  now split.
Qed.

(** X26: a station of the rail table whose identifier is in the station
    table, and whose name there is the name of a bus stop up to letter
    case, is located, under its name and with a match score of 1. *)
Theorem known_station_with_namesake_stop_is_located
  (rail_usage : list (RailUsage.cell * Q)) (bus_df : list BusData.bus_row)
  (stop_id : RailUsage.cell) (key : string) (avg : Q) (name b : string)
  (r : BusData.bus_row) :
  In (stop_id, avg) rail_usage ->
  (exists n d, stop_id = RailUsage.Txt key n d) ->
  dict_get key STATION_ID_TO_NAME = Some name ->
  In r bus_df -> BusData.STOP r = Some b ->
  Text.lower b = Text.lower name ->
  exists e,
    In e (Reconciler.locate (name_stations STATION_ID_TO_NAME rail_usage) bus_df)
    /\ Reconciler.loc_STOP_ID e = stop_id
    /\ Reconciler.loc_STATION_NAME e = name
    /\ (Reconciler.MATCH_SCORE e == 1)%Q.
Proof.
  intros Hin (n & d & ->) Hname Hr Hb Hlow.
  destruct (station_names_are_short key name Hname) as [Hne Hlen].
  set (st := {| Reconciler.STOP_ID := RailUsage.Txt key n d;
                Reconciler.AVG_BOARDINGS := avg;
                Reconciler.STATION_NAME := name |}).
  assert (Hst : In st (name_stations STATION_ID_TO_NAME rail_usage)).
  { unfold name_stations. apply in_flat_map.
    exists (RailUsage.Txt key n d, avg). split; [assumption|].
    cbn [fst snd mapped_name]. rewrite Hname. now left. }
  exact (ReconcilerFacts.namesake_located _ bus_df st r b Hst Hr Hb Hlow
           Hne Hlen).
Qed.

Definition sample_usage : list (RailUsage.cell * Q) :=
  [(RailUsage.S_ "A01", 9500%Q); (RailUsage.S_ "Z99", 10%Q);
   (RailUsage.Num 17, 300%Q)].

Definition sample_bus : list BusData.bus_row :=
  [Clusterer.obs "METRO CENTER" (Qmake 38898 1000) (Qmake (-77028) 1000)
     120 "54";
   Clusterer.obs "House of Pizza" (Qmake 38891 1000) (Qmake (-77085) 1000)
     15 "38B"].

Lemma known_station_with_namesake_stop_is_located_witness :
  exists e,
    In e (Reconciler.locate (name_stations STATION_ID_TO_NAME sample_usage)
            sample_bus)
    /\ Reconciler.loc_STOP_ID e = RailUsage.S_ "A01"
    /\ Reconciler.loc_STATION_NAME e = "Metro Center"
    /\ (Reconciler.MATCH_SCORE e == 1)%Q.
Proof.
  apply (known_station_with_namesake_stop_is_located sample_usage sample_bus
           (RailUsage.S_ "A01") "A01" 9500 "Metro Center" "METRO CENTER"
           (Clusterer.obs "METRO CENTER" (Qmake 38898 1000)
              (Qmake (-77028) 1000) 120 "54")).
  - now left.
  - now exists None, None.
  - reflexivity.
  - now left.
  - reflexivity.
  - reflexivity.
Defined.

(** The rows of the sample whose identifier is not in the table are
    dropped. *)
Example sample_names :
  map (fun st => (Reconciler.STOP_ID st, Reconciler.STATION_NAME st))
    (name_stations STATION_ID_TO_NAME sample_usage)
  = [(RailUsage.S_ "A01", "Metro Center")].
Proof. reflexivity. Qed.

(** *** Identifiers that the station table does not know *)




End StationMappings.


(** ** The names of the converted files ([excel_to_csv.py])

    [convert_xlsx_to_csv] writes, for every entry of the folder whose name
    ends in [.xlsx], a CSV file named [os.path.splitext(file)[0] + ".csv"]
    into one output folder.  [splitext] is the one of [posixpath]
    ([genericpath._splitext] with [sep = '/'], no [altsep] and
    [extsep = '.']). *)
Module ExcelToCsv.

(** [p.rfind(ch)] for a one-character [ch], counting from [i]: the index of
    the last occurrence, [-1] when there is none. *)
Fixpoint rfind_from (ch : ascii) (p : string) (i : Z) : Z :=
  match p with
  | EmptyString => (-1)%Z
  | String c rest =>
      let later := rfind_from ch rest (i + 1) in
      if (0 <=? later)%Z then later
      else if Ascii.eqb c ch then i else (-1)%Z
  end.

Definition rfind (ch : ascii) (p : string) : Z := rfind_from ch p 0.

(** The [while] loop of [_splitext] ("skip all leading dots"): whether a
    character other than the dot is met from [filenameIndex] on, in [steps]
    steps. *)
Fixpoint name_before_dot (p : string) (filenameIndex steps : nat) : bool :=
  match steps with
  | 0 => false
  | S steps' =>
      if negb (String.eqb (substring filenameIndex 1 p) ".") then true
      else name_before_dot p (S filenameIndex) steps'
  end.

(** [os.path.splitext(p)] *)
Definition splitext (p : string) : string * string :=
  let sepIndex := rfind "/" p in
  let dotIndex := rfind "." p in
  if (sepIndex <? dotIndex)%Z then
    let filenameIndex := Z.to_nat (sepIndex + 1) in
    if name_before_dot p filenameIndex (Z.to_nat dotIndex - filenameIndex)
    then (substring 0 (Z.to_nat dotIndex) p,
          substring (Z.to_nat dotIndex) (String.length p - Z.to_nat dotIndex) p)
    else (p, "")
  else (p, "").

(** [s.endswith(suffix)] *)
Definition endswith (suffix s : string) : bool :=
  (String.length suffix <=? String.length s)
  && String.eqb
       (substring (String.length s - String.length suffix)
          (String.length suffix) s) suffix.

(** [csv_filename = os.path.splitext(file)[0] + ".csv"] *)
Definition csv_filename (file : string) : string :=
  (fst (splitext file) ++ ".csv")%string.

(** The loop over [os.listdir(folder_path)]: the entries that are converted,
    each with the name of the file written to the output folder. *)
Definition conversions (listing : list string) : list (string * string) :=
  flat_map (fun file =>
              if endswith ".xlsx" file then [(file, csv_filename file)]
              else []) listing.

(** *** Strings *)

Fixpoint has_char (ch : ascii) (s : string) : bool :=
  match s with
  | EmptyString => false
  | String c rest => Ascii.eqb c ch || has_char ch rest
  end.

Fixpoint all_dots (s : string) : bool :=
  match s with
  | EmptyString => true
  | String c rest => Ascii.eqb c "." && all_dots rest
  end.

Lemma app_assoc_s (a b c : string) :
  ((a ++ b) ++ c = a ++ (b ++ c))%string.
Proof.
  induction a as [|x a IH]; cbn [String.append]; [reflexivity|].
  now rewrite IH.
Qed.

Lemma length_app_s (a b : string) :
  String.length (a ++ b)%string = String.length a + String.length b.
Proof.
  induction a as [|x a IH]; cbn [String.append String.length]; [reflexivity|].
  now rewrite IH.
Qed.

Lemma has_char_app (ch : ascii) (a b : string) :
  has_char ch (a ++ b)%string = has_char ch a || has_char ch b.
Proof.
  induction a as [|x a IH]; cbn [String.append has_char]; [reflexivity|].
  now rewrite IH, orb_assoc.
Qed.

Lemma rfind_from_none (ch : ascii) (s : string) :
  forall i, has_char ch s = false -> rfind_from ch s i = (-1)%Z.
Proof.
  induction s as [|c s IH]; intros i; cbn [has_char rfind_from];
    [reflexivity|].
  intros H. apply orb_false_elim in H. destruct H as [H1 H2].
  now rewrite (IH (i + 1)%Z H2), H1.
Qed.

Lemma rfind_from_last (ch : ascii) (s t : string) :
  has_char ch t = false ->
  forall i, (0 <= i)%Z ->
    rfind_from ch (s ++ String ch t)%string i
    = (i + Z.of_nat (String.length s))%Z.
Proof.
  intros Ht. induction s as [|c s IH]; intros i Hi;
    cbn [String.append rfind_from String.length].
  - rewrite (rfind_from_none ch t (i + 1)%Z Ht). cbn.
    rewrite Ascii.eqb_refl. lia.
  - rewrite (IH (i + 1)%Z) by lia.
    destruct (Z.leb_spec 0 (i + 1 + Z.of_nat (String.length s))); lia.
Qed.

Lemma substring_skip (pre x : string) (m : nat) :
  substring (String.length pre) m (pre ++ x)%string = substring 0 m x.
Proof.
  induction pre as [|c pre IH]; cbn [String.length String.append];
    [reflexivity|].
  cbn [substring]. exact IH.
Qed.

Lemma substring_prefix (s t : string) :
  substring 0 (String.length s) (s ++ t)%string = s.
Proof.
  induction s as [|c s IH]; cbn [String.length String.append].
  - now destruct t.
  - cbn [substring]. now rewrite IH.
Qed.

Lemma substring_all (s : string) : substring 0 (String.length s) s = s.
Proof.
  induction s as [|c s IH]; cbn [String.length substring]; [reflexivity|].
  now rewrite IH.
Qed.

Lemma name_before_dot_spec (s t : string) :
  forall pre,
    name_before_dot (pre ++ s ++ t)%string (String.length pre)
      (String.length s)
    = negb (all_dots s).
Proof.
  induction s as [|c s IH]; intros pre;
    cbn [String.length name_before_dot all_dots]; [reflexivity|].
  rewrite substring_skip. cbn [String.append substring].
  assert (E : substring 0 0 (s ++ t)%string = "") by now destruct (s ++ t)%string.
  rewrite E.
  assert (Ec : String.eqb (String c "") "." = Ascii.eqb c ".").
  { cbn [String.eqb]. now destruct (Ascii.eqb c "."). }
  rewrite Ec. destruct (Ascii.eqb c ".") eqn:D; cbn [negb andb];
    [|reflexivity].
  specialize (IH (pre ++ String c "")%string).
  rewrite length_app_s in IH. cbn [String.length] in IH.
  rewrite app_assoc_s in IH. cbn [String.append] in IH.
  replace (String.length pre + 1) with (S (String.length pre)) in IH by lia.
  exact IH.
Qed.

Lemma substring_split (s : string) :
  forall k, k <= String.length s ->
    s = (substring 0 k s ++ substring k (String.length s - k) s)%string.
Proof.
  induction s as [|c s IH]; intros k Hk; cbn [String.length] in *.
  - replace k with 0 by lia. reflexivity.
  - destruct k as [|k].
    + cbn [substring String.append Nat.sub]. now rewrite substring_all.
    + cbn [substring String.append Nat.sub]. f_equal. apply IH. lia.
Qed.

Lemma endswith_iff (suffix s : string) :
  endswith suffix s = true <-> exists stem, s = (stem ++ suffix)%string.
Proof.
  unfold endswith. split.
  - intros H. apply andb_true_iff in H. destruct H as [Hlen H].
    apply Nat.leb_le in Hlen. apply String.eqb_eq in H.
    exists (substring 0 (String.length s - String.length suffix) s).
    pose proof (substring_split s (String.length s - String.length suffix)
                  ltac:(lia)) as E.
    replace (String.length s - (String.length s - String.length suffix))
      with (String.length suffix) in E by lia.
    now rewrite H in E.
  - intros (stem & ->). rewrite length_app_s.
    replace (String.length stem + String.length suffix - String.length suffix)
      with (String.length stem) by lia.
    rewrite substring_skip, substring_all, String.eqb_refl.
    apply andb_true_iff. split; [apply Nat.leb_le; lia|reflexivity].
Qed.

Lemma app_inj_r (a b suffix : string) :
  (a ++ suffix = b ++ suffix)%string -> a = b.
Proof.
  revert b. induction a as [|x a IH]; intros [|y b] H;
    cbn [String.append] in H.
  - reflexivity.
  - exfalso. apply (f_equal String.length) in H.
    cbn [String.length] in H. rewrite length_app_s in H. lia.
  - exfalso. apply (f_equal String.length) in H.
    cbn [String.length] in H. rewrite length_app_s in H. lia.
  - injection H as -> H. f_equal. now apply IH.
Qed.

(** What [splitext] makes of the name of a spreadsheet. *)
Lemma splitext_xlsx (stem : string) :
  has_char "/" stem = false ->
  splitext (stem ++ ".xlsx")%string
  = if all_dots stem then ((stem ++ ".xlsx")%string, "")
    else (stem, ".xlsx").
Proof.
  intros Hsep. unfold splitext, rfind.
  assert (Es : rfind_from "/" (stem ++ ".xlsx")%string 0 = (-1)%Z).
  { apply rfind_from_none. rewrite has_char_app, Hsep. reflexivity. }
  assert (Ed : rfind_from "." (stem ++ ".xlsx")%string 0
               = Z.of_nat (String.length stem)).
  { change ".xlsx" with (String "." "xlsx").
    rewrite (rfind_from_last "." stem "xlsx" eq_refl 0%Z) by lia. lia. }
  rewrite Es, Ed.
  destruct (Z.ltb_spec (-1) (Z.of_nat (String.length stem))) as [_|]; [|lia].
  change (Z.to_nat (-1 + 1)) with 0. rewrite Nat2Z.id, Nat.sub_0_r.
  pose proof (name_before_dot_spec stem ".xlsx" "") as E.
  cbn [String.append String.length] in E. rewrite E.
  destruct (all_dots stem); cbn [negb]; [reflexivity|].
  rewrite substring_prefix, length_app_s, Nat.add_comm, Nat.add_sub.
  rewrite substring_skip. reflexivity.
Qed.

(** X29: a spreadsheet [stem.xlsx] is written to [stem.csv], unless the
    stem is empty or made of dots only: then the name is taken to have no
    extension and the file is written to [stem.xlsx.csv]. *)
Theorem csv_filename_of_spreadsheet (stem : string) :
  has_char "/" stem = false ->
  endswith ".xlsx" (stem ++ ".xlsx")%string = true
  /\ csv_filename (stem ++ ".xlsx")%string
     = if all_dots stem then (stem ++ ".xlsx.csv")%string
       else (stem ++ ".csv")%string.
Proof.
  intros Hsep. split.
  - apply endswith_iff. now exists stem.
  - unfold csv_filename. rewrite (splitext_xlsx stem Hsep).
    destruct (all_dots stem); cbn [fst]; [|reflexivity].
    now rewrite app_assoc_s.
Qed.

Lemma csv_filename_of_spreadsheet_witness :
  endswith ".xlsx" ("Metro_Rail_2024" ++ ".xlsx")%string = true
  /\ csv_filename ("Metro_Rail_2024" ++ ".xlsx")%string
     = if all_dots "Metro_Rail_2024" then ("Metro_Rail_2024" ++ ".xlsx.csv")%string
       else ("Metro_Rail_2024" ++ ".csv")%string.
Proof.
  apply (csv_filename_of_spreadsheet "Metro_Rail_2024"). reflexivity.
Defined.

Example hidden_spreadsheet_keeps_its_extension :
  conversions [".xlsx"; "a.xlsx"; "notes.txt"; "b.xlsx.bak"]
  = [(".xlsx", ".xlsx.csv"); ("a.xlsx", "a.csv")].
Proof. reflexivity. Qed.

(** *** Two spreadsheets, one CSV file *)

(** The name does not start with a dot and holds no slash. *)
Definition ordinary (file : string) : bool :=
  negb (has_char "/" file)
  && match file with
     | EmptyString => true
     | String c _ => negb (Ascii.eqb c ".")
     end.

Lemma ordinary_stem (stem : string) :
  ordinary (stem ++ ".xlsx")%string = true ->
  has_char "/" stem = false /\ all_dots stem = false.
Proof.
  unfold ordinary. intros H. apply andb_true_iff in H. destruct H as [H1 H2].
  apply negb_true_iff in H1. rewrite has_char_app in H1.
  apply orb_false_elim in H1. destruct H1 as [H1 _]. split; [assumption|].
  destruct stem as [|c stem]; cbn [String.append all_dots] in *.
  - discriminate.
  - apply negb_true_iff in H2. now rewrite H2.
Qed.

Lemma conversions_in (listing : list string) (file csv : string) :
  In (file, csv) (conversions listing)
  <-> In file listing /\ endswith ".xlsx" file = true
      /\ csv = csv_filename file.
Proof.
  unfold conversions. rewrite in_flat_map. split.
  - intros (f & Hf & H). destruct (endswith ".xlsx" f) eqn:E; [|destruct H].
    destruct H as [[= <- <-]|[]]. now repeat split.
  - intros (Hf & E & ->). exists file. split; [assumption|]. rewrite E.
    now left.
Qed.

(** X30: two different entries of the folder with ordinary names (no
    leading dot) are never written to the same CSV file. *)
Theorem ordinary_names_do_not_collide (listing : list string)
  (file1 file2 csv : string) :
  ordinary file1 = true -> ordinary file2 = true ->
  In (file1, csv) (conversions listing) ->
  In (file2, csv) (conversions listing) ->
  file1 = file2.
Proof.
  intros O1 O2 H1 H2. apply conversions_in in H1, H2.
  destruct H1 as (_ & E1 & C1). destruct H2 as (_ & E2 & C2).
  apply endswith_iff in E1, E2.
  destruct E1 as (stem1 & ->). destruct E2 as (stem2 & ->).
  destruct (ordinary_stem stem1 O1) as [S1 D1].
  destruct (ordinary_stem stem2 O2) as [S2 D2].
  unfold csv_filename in C1, C2.
  rewrite (splitext_xlsx stem1 S1), D1 in C1.
  rewrite (splitext_xlsx stem2 S2), D2 in C2.
  cbn [fst] in C1, C2. f_equal. apply (app_inj_r stem1 stem2 ".csv").
  congruence.
Qed.

Lemma ordinary_names_do_not_collide_witness :
  In ("a.xlsx", "a.csv") (conversions ["a.xlsx"; "b.xlsx"])
  /\ "a.xlsx" = "a.xlsx".
Proof.
  assert (H : In ("a.xlsx", "a.csv") (conversions ["a.xlsx"; "b.xlsx"]))
    by (now left).
  split; [exact H|].
  exact (ordinary_names_do_not_collide ["a.xlsx"; "b.xlsx"] "a.xlsx" "a.xlsx"
           "a.csv" eq_refl eq_refl H H).
Defined.

(** With a leading dot two entries can collide: the second file written
    replaces the first. *)
Example dotted_names_collide :
  conversions ["..xlsx"; "..xlsx.xlsx"]
  = [("..xlsx", "..xlsx.csv"); ("..xlsx.xlsx", "..xlsx.csv")].
Proof. reflexivity. Qed.

End ExcelToCsv.
